(** * init/devices.cpp: the uevent device manager

    A shallow embedding of the device manager of Android's init
    (init/devices.cpp): permission rules, the platform device registry,
    the uevent parser, the block and generic device handlers, module
    loading by MODALIAS and the firmware loader.

    Conventions.
    - A C string is a [string] holding the bytes before its terminator.
    - A pointer into a string is the suffix it points at, so a pointer
      difference [end - start] is a difference of lengths.
    - A nullable [const char *] is an [option string].
    - [int], [mode_t] and [unsigned] values are [Z].
    - An intrusive [listnode] list is a [list] in insertion order;
      [list_add_tail] appends and [list_for_each_reverse] scans [rev].
    - Calls to collaborators outside the file are recorded in a trace. *)

From Stdlib Require Import ZArith List String Ascii Bool Lia.
Import ListNotations.

Open Scope string_scope.
Open Scope list_scope.
Open Scope Z_scope.

(** ** The C library *)

(** The parts of libc whose behaviour is not written out below. *)
Class Libc := {
  (** [fnmatch pattern string flags], 0 on a match. *)
  fnmatch : string -> string -> Z -> Z;
  FNM_PATHNAME : Z;
  (** [atoi] of the C string at a pointer. *)
  atoi : string -> Z
}.

Definition strlen (s : string) : Z := Z.of_nat (String.length s).

(** Only the sign of the result of [strcmp] and [strncmp] is specified. *)
Definition byte_order (c1 c2 : ascii) : Z :=
  if (nat_of_ascii c1 <? nat_of_ascii c2)%nat then -1 else 1.

Fixpoint strcmp (s1 s2 : string) : Z :=
  match s1, s2 with
  | EmptyString, EmptyString => 0
  | EmptyString, String _ _ => -1
  | String _ _, EmptyString => 1
  | String c1 r1, String c2 r2 =>
      if Ascii.eqb c1 c2 then strcmp r1 r2 else byte_order c1 c2
  end.

Fixpoint strncmp (s1 s2 : string) (n : nat) {struct n} : Z :=
  match n with
  | O => 0
  | S n' =>
      match s1, s2 with
      | EmptyString, EmptyString => 0
      | EmptyString, String _ _ => -1
      | String _ _, EmptyString => 1
      | String c1 r1, String c2 r2 =>
          if Ascii.eqb c1 c2 then strncmp r1 r2 n' else byte_order c1 c2
      end
  end.

(** [s + n] for [n] within the string. *)
Fixpoint advance (n : nat) (s : string) : string :=
  match n, s with
  | O, _ => s
  | S _, EmptyString => EmptyString
  | S n', String _ r => advance n' r
  end.

(** The first [n] bytes of [s] ([strncpy] followed by a terminator). *)
Fixpoint strncpy (s : string) (n : nat) : string :=
  match n, s with
  | O, _ => EmptyString
  | S _, EmptyString => EmptyString
  | S n', String c r => String c (strncpy r n')
  end.

(** [s[i]]; the byte at [strlen s] is the terminator. *)
Definition char_at (s : string) (i : Z) : ascii :=
  match String.get (Z.to_nat i) s with
  | Some c => c
  | None => zero
  end.

(** [strchr]: the suffix starting at the first [c], if any. *)
Fixpoint strchr (s : string) (c : ascii) : option string :=
  match s with
  | EmptyString => None
  | String a r => if Ascii.eqb a c then Some s else strchr r c
  end.

(** [strrchr]: the suffix starting at the last [c], if any. *)
Fixpoint strrchr (s : string) (c : ascii) : option string :=
  match s with
  | EmptyString => None
  | String a r =>
      match strrchr r c with
      | Some p => Some p
      | None => if Ascii.eqb a c then Some s else None
      end
  end.

(** [snprintf(buf, size, ...)] keeps at most [size - 1] bytes of the
    formatted text and returns the length of the whole text. *)
Definition snprintf (size : Z) (text : string) : string * Z :=
  (strncpy text (Z.to_nat (size - 1)), strlen text).

(** [%s] of a null pointer prints as bionic does. *)
Definition fmt_s (s : option string) : string :=
  match s with
  | Some s => s
  | None => "(null)"
  end.

Definition digit_char (d : Z) : ascii := ascii_of_nat (48 + Z.to_nat d).

(** The decimal digits of a non-negative [int], most significant first;
    ten digits are enough below 2^31. *)
Fixpoint dec_digits (fuel : nat) (n : Z) (acc : string) : string :=
  match fuel with
  | O => acc
  | S fuel' =>
      let acc' := String (digit_char (n mod 10)) acc in
      if n / 10 =? 0 then acc' else dec_digits fuel' (n / 10) acc'
  end.

(** [%d] *)
Definition fmt_d (n : Z) : string :=
  if n <? 0 then String "-" (dec_digits 10 (- n) "") else dec_digits 10 n "".

Fixpoint zeros (n : nat) : string :=
  match n with
  | O => EmptyString
  | S n' => String "0" (zeros n')
  end.

(** [%03d] of a non-negative [int]. *)
Definition fmt_03d (n : Z) : string :=
  let d := fmt_d n in
  (zeros (3 - String.length d) ++ d)%string.

(** *** A concrete C library, used to run the model on examples

    [glob] covers the patterns made of literal bytes, [?] and [*];
    with [pathname] set, [?] and [*] do not match a slash. *)
Fixpoint glob (pathname : bool) (pat : string) : string -> bool :=
  match pat with
  | EmptyString =>
      fun s => match s with EmptyString => true | String _ _ => false end
  | String p pat' =>
      if Ascii.eqb p "*" then
        fix star (s : string) : bool :=
          glob pathname pat' s ||
          match s with
          | EmptyString => false
          | String c s' =>
              if pathname && Ascii.eqb c "/" then false else star s'
          end
      else
        fun s =>
          match s with
          | EmptyString => false
          | String c s' =>
              if Ascii.eqb p "?"
              then negb (pathname && Ascii.eqb c "/") && glob pathname pat' s'
              else Ascii.eqb p c && glob pathname pat' s'
          end
  end.

Definition is_digit (c : ascii) : bool :=
  ((48 <=? nat_of_ascii c) && (nat_of_ascii c <=? 57))%nat.

Fixpoint digits_value (s : string) (acc : Z) : Z :=
  match s with
  | EmptyString => acc
  | String c r =>
      if is_digit c
      then digits_value r (10 * acc + Z.of_nat (nat_of_ascii c - 48))
      else acc
  end.

(** Optional sign, then decimal digits (no leading white space). *)
Definition atoi_decimal (s : string) : Z :=
  match s with
  | String "-" r => - digits_value r 0
  | String "+" r => digits_value r 0
  | _ => digits_value s 0
  end.

Definition sample_libc : Libc := {|
  fnmatch := fun pat s flags =>
    if glob (Z.testbit flags 1) pat s then 0 else 1;
  FNM_PATHNAME := 2;
  atoi := atoi_decimal
|}.

(** ** Permission rules *)

Record perms_ := {
  dp_name : string;
  dp_attr : option string;
  dp_perm : Z;
  dp_uid : Z;
  dp_gid : Z;
  dp_prefix : Z;
  dp_wildcard : Z
}.

Section Permissions.
Context `{Libc}.


Definition perm_path_matches (path : string) (dp : perms_) : bool :=
  if negb (dp_prefix dp =? 0) then
    strncmp path (dp_name dp) (String.length (dp_name dp)) =? 0
  else if negb (dp_wildcard dp =? 0) then
    fnmatch (dp_name dp) path FNM_PATHNAME =? 0
  else
    strcmp path (dp_name dp) =? 0.

(** [for (i = 0; links[i]; i++)] with its [break] on the first match. *)
Fixpoint links_match (links : list string) (dp : perms_) : bool :=
  match links with
  | [] => false
  | l :: rest => if perm_path_matches l dp then true else links_match rest dp
  end.

(** The body of [list_for_each_reverse], over the nodes in scan order. *)
Fixpoint get_device_perm_scan (nodes : list perms_) (path : string)
    (links : option (list string)) : Z * Z * Z :=
  match nodes with
  | [] => (384 (* 0600 *), 0, 0)
  | dp :: rest =>
      let matched :=
        if perm_path_matches path dp then true
        else match links with
             | Some ls => links_match ls dp
             | None => false
             end in
      if matched then (dp_perm dp, dp_uid dp, dp_gid dp)
      else get_device_perm_scan rest path links
  end.

(** Returns (mode, uid, gid). *)
Definition get_device_perm (dev_perms : list perms_) (path : string)
    (links : option (list string)) : Z * Z * Z :=
  get_device_perm_scan (rev dev_perms) path links.

End Permissions.

(** ** Undefined behaviour

    A computation that dereferences a null pointer, or reads past the
    end of its buffer, has no result. *)
Notation "x <- e ;; k" :=
  (match e with Some x => k | None => None end)
  (at level 61, e at next level, right associativity).

(** ** The platform device registry *)

Record platform_node := {
  bus_name : string;
  bus_path : string;
  bus_path_len : Z
}.

Definition add_platform_device (platform_names : list platform_node)
    (path : string) : list platform_node :=
  let path_len := strlen path in
  let name :=
    if strncmp path "/devices/" 9 =? 0 then
      let name := advance 9 path in
      if strncmp name "platform/" 9 =? 0 then advance 9 name else name
    else path in
  platform_names ++
    [{| bus_name := name; bus_path := path; bus_path_len := path_len |}].

Fixpoint find_platform_device_scan (nodes : list platform_node)
    (path : string) : option platform_node :=
  match nodes with
  | [] => None
  | bus :: rest =>
      if (bus_path_len bus <? strlen path)
         && Ascii.eqb (char_at path (bus_path_len bus)) "/"
         && (strncmp path (bus_path bus) (Z.to_nat (bus_path_len bus)) =? 0)
      then Some bus
      else find_platform_device_scan rest path
  end.

Definition find_platform_device (platform_names : list platform_node)
    (path : string) : option platform_node :=
  find_platform_device_scan (rev platform_names) path.

(** The nodes in scan order, with the first one whose path is [path]
    unlinked. *)
Fixpoint remove_platform_device_scan (nodes : list platform_node)
    (path : string) : list platform_node :=
  match nodes with
  | [] => []
  | bus :: rest =>
      if strcmp path (bus_path bus) =? 0 then rest
      else bus :: remove_platform_device_scan rest path
  end.

Definition remove_platform_device (platform_names : list platform_node)
    (path : string) : list platform_node :=
  rev (remove_platform_device_scan (rev platform_names) path).

(** Returns the status and, on success, the contents of [buf]. *)
Definition find_pci_device_prefix (path : string) (buf_sz : Z)
    : Z * option string :=
  if negb (strncmp path "/devices/pci" 12 =? 0) then (-1, None)
  else
    let start := advance 9 path in
    match strchr start "/" with
    | None => (-1, None)
    | Some end1 =>
        match strchr (advance 1 end1) "/" with
        | None => (-1, None)
        | Some end2 =>
            let n := strlen start - strlen end2 (* end - start *) in
            if n + 1 >? buf_sz then (-1, None)
            else (0, Some (strncpy start (Z.to_nat n)))
        end
    end.

(** ** Uevents *)

Record uevent := {
  ue_action : option string;
  ue_path : option string;
  ue_subsystem : option string;
  ue_firmware : option string;
  ue_partition_name : option string;
  ue_device_name : option string;
  ue_modalias : option string;
  ue_partition_num : Z;
  ue_major : Z;
  ue_minor : Z
}.

Definition is_nul (c : ascii) : bool := Ascii.eqb c zero.

(** The C string at a pointer into a byte buffer. *)
Fixpoint cstr (p : list ascii) : string :=
  match p with
  | [] => EmptyString
  | c :: r => if is_nul c then EmptyString else String c (cstr r)
  end.

(** The loop that moves [msg] past the next terminator. *)
Fixpoint skip_record (msg : list ascii) : option (list ascii) :=
  match msg with
  | [] => None
  | c :: rest => if is_nul c then Some rest else skip_record rest
  end.

Section Parser.
Context `{Libc}.

(** One turn of the tag chain: the advanced pointer and the updated
    event. *)
Definition parse_tag (msg : list ascii) (ue : uevent)
    : list ascii * uevent :=
  let at_ (tag : string) := strncmp (cstr msg) tag (String.length tag) =? 0 in
  let past (tag : string) := skipn (String.length tag) msg in
  let '(Build_uevent action path subsystem firmware partition_name
          device_name modalias partition_num major minor) := ue in
  if at_ "ACTION=" then
    let msg := past "ACTION=" in
    (msg, Build_uevent (Some (cstr msg)) path subsystem firmware
            partition_name device_name modalias partition_num major minor)
  else if at_ "DEVPATH=" then
    let msg := past "DEVPATH=" in
    (msg, Build_uevent action (Some (cstr msg)) subsystem firmware
            partition_name device_name modalias partition_num major minor)
  else if at_ "SUBSYSTEM=" then
    let msg := past "SUBSYSTEM=" in
    (msg, Build_uevent action path (Some (cstr msg)) firmware
            partition_name device_name modalias partition_num major minor)
  else if at_ "FIRMWARE=" then
    let msg := past "FIRMWARE=" in
    (msg, Build_uevent action path subsystem (Some (cstr msg))
            partition_name device_name modalias partition_num major minor)
  else if at_ "MAJOR=" then
    let msg := past "MAJOR=" in
    (msg, Build_uevent action path subsystem firmware
            partition_name device_name modalias partition_num
            (atoi (cstr msg)) minor)
  else if at_ "MINOR=" then
    let msg := past "MINOR=" in
    (msg, Build_uevent action path subsystem firmware
            partition_name device_name modalias partition_num
            major (atoi (cstr msg)))
  else if at_ "PARTN=" then
    let msg := past "PARTN=" in
    (msg, Build_uevent action path subsystem firmware
            partition_name device_name modalias (atoi (cstr msg))
            major minor)
  else if at_ "PARTNAME=" then
    let msg := past "PARTNAME=" in
    (msg, Build_uevent action path subsystem firmware
            (Some (cstr msg)) device_name modalias partition_num major minor)
  else if at_ "DEVNAME=" then
    let msg := past "DEVNAME=" in
    (msg, Build_uevent action path subsystem firmware
            partition_name (Some (cstr msg)) modalias partition_num
            major minor)
  else if at_ "MODALIAS=" then
    let msg := past "MODALIAS=" in
    (msg, Build_uevent action path subsystem firmware
            partition_name device_name (Some (cstr msg)) partition_num
            major minor)
  else (msg, ue).

(** The loop over the records; every turn moves [msg] forward, so the
    length of the buffer bounds the number of turns. *)
Fixpoint parse_event_loop (turns : nat) (msg : list ascii) (ue : uevent)
    : option uevent :=
  match turns with
  | O => None
  | S turns' =>
      match msg with
      | [] => None
      | c :: _ =>
          if is_nul c then Some ue
          else
            let '(msg', ue') := parse_tag msg ue in
            next <- skip_record msg' ;;
            parse_event_loop turns' next ue'
      end
  end.

Definition parse_event (msg : list ascii) : option uevent :=
  parse_event_loop (S (List.length msg)) msg
    {| ue_action := Some ""; ue_path := Some ""; ue_subsystem := Some "";
       ue_firmware := Some ""; ue_major := -1; ue_minor := -1;
       ue_partition_name := None; ue_partition_num := -1;
       ue_device_name := None; ue_modalias := None |}.

End Parser.

(** ** Symbolic links of a device *)

Definition sanitize_accept (c : ascii) : bool :=
  let n := nat_of_ascii c in
  ((97 <=? n) && (n <=? 122) || (65 <=? n) && (n <=? 90)
   || (48 <=? n) && (n <=? 57))%nat
  || Ascii.eqb c "_" || Ascii.eqb c "-" || Ascii.eqb c ".".

(** Modelled from the spec: [sanitize] of util.cpp, which this file
    calls and does not define: replace any byte outside [A-Za-z0-9._-]
    with an underscore. *)
Fixpoint sanitize (s : string) : string :=
  match s with
  | EmptyString => EmptyString
  | String c r => String (if sanitize_accept c then c else "_"%char) (sanitize r)
  end.

(** The calls a handler makes to the file system helpers, in order. *)
Inductive call :=
| make_dir (path : string) (mode : Z)
| mkdir (path : string) (mode : Z)
| mkdir_recursive (path : string) (mode : Z)
| make_device (path upath : string) (block major minor : Z)
    (links : option (list string))
| make_link_init (oldpath newpath : string)
| remove_link (oldpath newpath : string)
| unlink (path : string).

Definition is_empty (s : string) : bool :=
  match s with
  | EmptyString => true
  | String _ _ => false
  end.

Fixpoint to_slash (s : string) : string :=
  match s with
  | EmptyString => EmptyString
  | String c r => if Ascii.eqb c "/" then s else to_slash r
  end.

(** The loop that pre-increments [parent] until it is at a slash or at
    the terminator. *)
Definition next_slash (parent : string) : string :=
  to_slash (advance 1 parent).

(** Returns the links (a null result is [None]) and the calls made.
    Allocation is taken to succeed. *)
Definition get_character_device_symlinks
    (platform_names : list platform_node) (ue : uevent)
    : option (option (list string) * list call) :=
  path <- ue_path ue ;;
  match find_platform_device platform_names path with
  | None => Some (None, [])
  | Some pdev =>
      match strchr (advance (Z.to_nat (bus_path_len pdev)) path) "/" with
      | None => Some (None, [])
      | Some parent =>
          if strncmp parent "/usb" 4 =? 0 then
            let parent := next_slash parent in
            let parent :=
              if is_empty parent then parent else next_slash parent in
            if is_empty parent then Some (None, [])
            else
              let parent := advance 1 parent in
              match strchr parent "/" with
              | None => Some (None, [])
              | Some slash =>
                  let width := strlen parent - strlen slash in
                  if width <=? 0 then Some (None, [])
                  else
                    subsystem <- ue_subsystem ue ;;
                    Some (Some [("/dev/usb/" ++ subsystem
                                 ++ strncpy parent (Z.to_nat width))%string],
                          [mkdir "/dev/usb" 493 (* 0755 *)])
              end
          else Some (None, [])
      end
  end.

(** Returns the links; a null result is [None].  Allocation is taken to
    succeed. *)
Definition get_block_device_symlinks
    (platform_names : list platform_node) (ue : uevent)
    : option (option (list string)) :=
  path <- ue_path ue ;;
  let parent :=
    match find_platform_device platform_names path with
    | Some pdev => Some (bus_name pdev, "platform")
    | None =>
        match find_pci_device_prefix path 256 with
        | (0, Some buf) => Some (buf, "pci")
        | _ => None
        end
    end in
  match parent with
  | None => Some None
  | Some (device, type) =>
      let link_path :=
        fst (snprintf 256 ("/dev/block/" ++ type ++ "/" ++ device)%string) in
      let links := [] in
      let links :=
        match ue_partition_name ue with
        | Some partition_name =>
            let p := sanitize partition_name in
            links ++ [(link_path ++ "/by-name/" ++ p)%string]
        | None => links
        end in
      let links :=
        if ue_partition_num ue >=? 0
        then links ++ [(link_path ++ "/by-num/p"
                        ++ fmt_d (ue_partition_num ue))%string]
        else links in
      slash <- strrchr path "/" ;;
      Some (Some (links ++ [(link_path ++ "/" ++ advance 1 slash)%string]))
  end.

(** ** Device nodes *)

Definition links_or_nil (links : option (list string)) : list string :=
  match links with
  | Some ls => ls
  | None => []
  end.

Definition handle_device (action devpath path : string)
    (block major minor : Z) (links : option (list string)) : list call :=
  (if strcmp action "add" =? 0
   then make_device devpath path block major minor links
        :: map (make_link_init devpath) (links_or_nil links)
   else [])
  ++
  (if strcmp action "remove" =? 0
   then map (remove_link devpath) (links_or_nil links) ++ [unlink devpath]
   else []).

Definition handle_platform_device_event
    (platform_names : list platform_node) (ue : uevent)
    : option (list platform_node) :=
  path <- ue_path ue ;;
  action <- ue_action ue ;;
  if strcmp action "add" =? 0 then Some (add_platform_device platform_names path)
  else if strcmp action "remove" =? 0
       then Some (remove_platform_device platform_names path)
       else Some platform_names.

(** A null result is [Some None]. *)
Definition parse_device_name (ue : uevent) (len : Z)
    : option (option string) :=
  if (ue_major ue <? 0) || (ue_minor ue <? 0) then Some None
  else
    path <- ue_path ue ;;
    match strrchr path "/" with
    | None => Some None
    | Some name =>
        let name := advance 1 name in
        if strlen name >? len then Some None else Some (Some name)
    end.

Definition handle_block_device_event
    (platform_names : list platform_node) (ue : uevent)
    : option (list call) :=
  let base := "/dev/block/" in
  name <- parse_device_name ue 64 ;;
  match name with
  | None => Some []
  | Some name =>
      let devpath := fst (snprintf 96 (base ++ name)%string) in
      path <- ue_path ue ;;
      links <- (if strncmp path "/devices/" 9 =? 0
                then get_block_device_symlinks platform_names ue
                else Some None) ;;
      action <- ue_action ue ;;
      Some (make_dir base 493 (* 0755 *)
            :: handle_device action devpath path 1
                 (ue_major ue) (ue_minor ue) links)
  end.

Definition DEVPATH_LEN : Z := 96.

(** Returns the status and the contents of [devpath]. *)
Definition assemble_devpath (dirname : string) (devname : option string)
    : bool * string :=
  let '(devpath, s) :=
    snprintf DEVPATH_LEN (dirname ++ "/" ++ fmt_s devname)%string in
  if s <? 0 then (false, devpath)
  else if s >=? DEVPATH_LEN then (false, devpath)
  else (true, devpath).

Definition mkdir_recursive_for_devpath (devpath : string) : option call :=
  slash <- strrchr devpath "/" ;;
  let dir := strncpy devpath (String.length devpath - String.length slash) in
  Some (mkdir_recursive dir 493 (* 0755 *)).

(** Modelled from the spec: the subsystem override table of
    ueventd_parser.h, which this file consults and does not define: a
    subsystem name maps to a directory name and the source of the device
    name (the uevent's DEVNAME or the tail of its DEVPATH); the handler's
    switch has a default for any other source. *)
Inductive devname_src_t :=
| DEVNAME_UNKNOWN
| DEVNAME_UEVENT_DEVNAME
| DEVNAME_UEVENT_DEVPATH.

Record ueventd_subsystem := {
  ss_name : string;
  ss_dirname : string;
  ss_devname_src : devname_src_t
}.

Class Ueventd_parser := {
  ueventd_subsystem_find_by_name : string -> option ueventd_subsystem
}.

Section Generic.
Context `{Ueventd_parser}.

(** The end of the handler, after the chain on the subsystem:
    [calls] were made so far, [devpath] is the buffer ([""] when it was
    not written) and [base] is [None] while it is not initialised. *)
Definition handle_generic_device_tail
    (platform_names : list platform_node) (ue : uevent)
    (calls : list call) (devpath : string) (base : option string)
    (name : string) : option (list call) :=
  r <- get_character_device_symlinks platform_names ue ;;
  let '(links, link_calls) := r in
  devpath <- (if is_empty devpath
              then base <- base ;; Some (fst (snprintf 96 (base ++ name)%string))
              else Some devpath) ;;
  action <- ue_action ue ;;
  path <- ue_path ue ;;
  Some (calls ++ link_calls
        ++ handle_device action devpath path 0
             (ue_major ue) (ue_minor ue) links).

Definition handle_generic_device_event
    (platform_names : list platform_node) (ue : uevent)
    : option (list call) :=
  name <- parse_device_name ue 64 ;;
  match name with
  | None => Some []
  | Some name =>
      subsys <- ue_subsystem ue ;;
      let finish := handle_generic_device_tail platform_names ue in
      let under (base : string) :=
        finish [make_dir base 493 (* 0755 *)] "" (Some base) name in
      let assembled (dirname : string) (devname : option string) :=
        let '(ok, devpath) := assemble_devpath dirname devname in
        if negb ok then Some []
        else
          c <- mkdir_recursive_for_devpath devpath ;;
          finish [c] devpath None name in
      match ueventd_subsystem_find_by_name subsys with
      | Some subsystem =>
          match ss_devname_src subsystem with
          | DEVNAME_UEVENT_DEVNAME =>
              assembled (ss_dirname subsystem) (ue_device_name ue)
          | DEVNAME_UEVENT_DEVPATH =>
              assembled (ss_dirname subsystem) (Some name)
          | DEVNAME_UNKNOWN => Some []
          end
      | None =>
          if strncmp subsys "usb" 3 =? 0 then
            if (strcmp subsys "usb" =? 0) || (strcmp subsys "usbmisc" =? 0)
            then
              match ue_device_name ue with
              | Some device_name => assembled "/dev" (Some device_name)
              | None =>
                  let bus_id := Z.quot (ue_minor ue) 128 + 1 in
                  let device_id := Z.rem (ue_minor ue) 128 + 1 in
                  let busdir :=
                    fst (snprintf 96 ("/dev/bus/usb/" ++ fmt_03d bus_id)%string) in
                  let devpath :=
                    fst (snprintf 96 ("/dev/bus/usb/" ++ fmt_03d bus_id ++ "/"
                                      ++ fmt_03d device_id)%string) in
                  finish [make_dir "/dev/bus" 493; make_dir "/dev/bus/usb" 493;
                        make_dir busdir 493] devpath None name
              end
            else Some []
          else if strncmp subsys "graphics" 8 =? 0 then under "/dev/graphics/"
          else if strncmp subsys "drm" 3 =? 0 then under "/dev/dri/"
          else if strncmp subsys "oncrpc" 6 =? 0 then under "/dev/oncrpc/"
          else if strncmp subsys "adsp" 4 =? 0 then under "/dev/adsp/"
          else if strncmp subsys "msm_camera" 10 =? 0
               then under "/dev/msm_camera/"
          else if strncmp subsys "input" 5 =? 0 then under "/dev/input/"
          else if strncmp subsys "mtd" 3 =? 0 then under "/dev/mtd/"
          else if strncmp subsys "sound" 5 =? 0 then under "/dev/snd/"
          else if (strncmp subsys "misc" 4 =? 0)
                  && (strncmp name "log_" 4 =? 0)
               then finish [make_dir "/dev/log/" 493] "" (Some "/dev/log/")
                      (advance 4 name)
          else finish [] "" (Some "/dev/") name
      end
  end.

End Generic.

(** ** Loading modules by MODALIAS *)

Record module_alias_node := {
  alias_name : option string;
  alias_pattern : option string
}.

Record module_blacklist_node := {
  blk_name : string;
  blk_deferred : bool
}.

(** [insmod_by_dep] of libcutils: its status for a module name, given
    the names it was called with before. *)
Class Probe_module := {
  insmod_by_dep : list string -> string -> Z
}.

(** The tokens [next_token] yields for a file; [T_EOF] ends the list. *)
Inductive token :=
| T_TEXT (text : string)
| T_NEWLINE.

(** The lists of the module engine and the names passed to
    [insmod_by_dep] so far. *)
Record modules := {
  modules_aliases_map : list module_alias_node;
  modules_blacklist : list module_blacklist_node;
  deferred_module_loading_list : list module_alias_node;
  insmod_calls : list string
}.

(** What the engine sees of the system during one event: the tokens of
    modules.alias and of modules.blacklist when they can be read, and
    whether /dev/.booting exists. *)
Record module_env := {
  env_modules_alias : option (list token);
  env_modules_blacklist : option (list token);
  env_is_booting : bool
}.

Fixpoint is_module_blacklisted_or_deferred_scan
    (blacklist : list module_blacklist_node) (name : string)
    (need_deferred : bool) : Z :=
  match blacklist with
  | [] => 0
  | b :: rest =>
      if strcmp name (blk_name b) =? 0
      then if blk_deferred b then (if need_deferred then 2 else 0) else 1
      else is_module_blacklisted_or_deferred_scan rest name need_deferred
  end.

Definition is_module_blacklisted_or_deferred
    (blacklist : list module_blacklist_node) (name : option string)
    (need_deferred : bool) : Z :=
  match name with
  | None => 0
  | Some name =>
      is_module_blacklisted_or_deferred_scan blacklist name need_deferred
  end.

Definition parse_line_module_alias (aliases : list module_alias_node)
    (args : list string) : list module_alias_node :=
  match args with
  | [_; pattern; name] =>
      aliases ++ [{| alias_name := Some name; alias_pattern := Some pattern |}]
  | _ => aliases
  end.

Definition parse_line_module_blacklist
    (blacklist : list module_blacklist_node) (args : list string)
    : list module_blacklist_node :=
  match args with
  | [keyword; name] =>
      if strncmp keyword "blacklist" 9 =? 0
      then blacklist ++ [{| blk_name := name; blk_deferred := false |}]
      else if strncmp keyword "deferred" 8 =? 0
      then blacklist ++ [{| blk_name := name; blk_deferred := true |}]
      else blacklist
  | _ => blacklist
  end.

(** The token loop of [__read_modules_desc_file]; [args] holds the
    [nargs] words of the current line. *)
Fixpoint read_modules_desc_tokens {A : Type} (parse_line : A -> list string -> A)
    (args_to_read : nat) (tokens : list token) (args : list string)
    (table : A) : A :=
  match tokens with
  | [] => table
  | T_NEWLINE :: rest =>
      match args with
      | [] => read_modules_desc_tokens parse_line args_to_read rest [] table
      | _ :: _ =>
          read_modules_desc_tokens parse_line args_to_read rest []
            (parse_line table args)
      end
  | T_TEXT text :: rest =>
      if (List.length args <? args_to_read)%nat
      then read_modules_desc_tokens parse_line args_to_read rest
             (args ++ [text]) table
      else read_modules_desc_tokens parse_line args_to_read rest args table
  end.

Definition read_modules_aliases (env : module_env) (st : modules)
    : Z * modules :=
  match env_modules_alias env with
  | None => (-1, st)
  | Some tokens =>
      (0, {| modules_aliases_map :=
               read_modules_desc_tokens parse_line_module_alias 3 tokens []
                 (modules_aliases_map st);
             modules_blacklist := modules_blacklist st;
             deferred_module_loading_list := deferred_module_loading_list st;
             insmod_calls := insmod_calls st |})
  end.

Definition read_modules_blacklist (env : module_env) (st : modules)
    : Z * modules :=
  match env_modules_blacklist env with
  | None => (-1, st)
  | Some tokens =>
      (0, {| modules_aliases_map := modules_aliases_map st;
             modules_blacklist :=
               read_modules_desc_tokens parse_line_module_blacklist 2 tokens []
                 (modules_blacklist st);
             deferred_module_loading_list := deferred_module_loading_list st;
             insmod_calls := insmod_calls st |})
  end.

Definition list_empty {A : Type} (l : list A) : bool :=
  match l with
  | [] => true
  | _ :: _ => false
  end.

Section Modules.
Context `{Libc} `{Probe_module}.

(** The body of [list_for_each] over the alias map; [ret] and [calls]
    are carried from one alias to the next. *)
Fixpoint load_module_by_device_modalias_loop
    (aliases : list module_alias_node)
    (blacklist : list module_blacklist_node) (id : string)
    (need_deferred : bool) (ret : Z) (calls : list string)
    : Z * list string :=
  match aliases with
  | [] => (ret, calls)
  | alias :: rest =>
      match alias_name alias, alias_pattern alias with
      | Some name, Some pattern =>
          if fnmatch pattern id 0 =? 0 then
            let ret :=
              is_module_blacklisted_or_deferred blacklist (Some name)
                need_deferred in
            if ret =? 0 then
              let ret := insmod_by_dep calls name in
              load_module_by_device_modalias_loop rest blacklist id
                need_deferred ret (calls ++ [name])
            else
              load_module_by_device_modalias_loop rest blacklist id
                need_deferred ret calls
          else
            load_module_by_device_modalias_loop rest blacklist id
              need_deferred ret calls
      | _, _ =>
          load_module_by_device_modalias_loop rest blacklist id
            need_deferred ret calls
      end
  end.

(** Returns the status and the names passed to [insmod_by_dep], after
    those of [calls]. *)
Definition load_module_by_device_modalias
    (aliases : list module_alias_node)
    (blacklist : list module_blacklist_node) (id : string)
    (need_deferred : bool) (calls : list string) : Z * list string :=
  load_module_by_device_modalias_loop aliases blacklist id need_deferred
    (-1) calls.

(** The body of [list_for_each_safe] over the deferred queue: the nodes
    left in the queue and the calls made. *)
Fixpoint handle_deferred_module_loading_loop
    (queue aliases : list module_alias_node)
    (blacklist : list module_blacklist_node) (calls : list string)
    : list module_alias_node * list string :=
  match queue with
  | [] => ([], calls)
  | alias :: rest =>
      match alias_pattern alias with
      | Some pattern =>
          let '(_, calls) :=
            load_module_by_device_modalias aliases blacklist pattern false
              calls in
          handle_deferred_module_loading_loop rest aliases blacklist calls
      | None =>
          let '(kept, calls) :=
            handle_deferred_module_loading_loop rest aliases blacklist calls in
          (alias :: kept, calls)
      end
  end.

Definition handle_deferred_module_loading (st : modules) : modules :=
  if negb (list_empty (modules_aliases_map st)) then
    let '(queue, calls) :=
      handle_deferred_module_loading_loop (deferred_module_loading_list st)
        (modules_aliases_map st) (modules_blacklist st) (insmod_calls st) in
    {| modules_aliases_map := modules_aliases_map st;
       modules_blacklist := modules_blacklist st;
       deferred_module_loading_list := queue;
       insmod_calls := calls |}
  else st.

(** [list_add_tail] of a node holding a copy of [modalias]; allocation is
    taken to succeed. *)
Definition enqueue_deferred (st : modules) (modalias : string) : modules :=
  {| modules_aliases_map := modules_aliases_map st;
     modules_blacklist := modules_blacklist st;
     deferred_module_loading_list :=
       deferred_module_loading_list st
       ++ [{| alias_name := None; alias_pattern := Some modalias |}];
     insmod_calls := insmod_calls st |}.

Definition handle_module_loading (env : module_env) (st : modules)
    (modalias : option string) : modules :=
  let st :=
    if list_empty (modules_aliases_map st) then
      match read_modules_aliases env st with
      | (0, st') => snd (read_modules_blacklist env st')
      | (_, st') => st'
      end
    else st in
  match modalias with
  | None => st
  | Some modalias =>
      if list_empty (modules_aliases_map st) then enqueue_deferred st modalias
      else
        let '(ret, calls) :=
          load_module_by_device_modalias (modules_aliases_map st)
            (modules_blacklist st) modalias (env_is_booting env)
            (insmod_calls st) in
        let st :=
          {| modules_aliases_map := modules_aliases_map st;
             modules_blacklist := modules_blacklist st;
             deferred_module_loading_list := deferred_module_loading_list st;
             insmod_calls := calls |} in
        if ret =? 2 then enqueue_deferred st modalias else st
  end.

End Modules.

(** ** Firmware *)

(** What one [read] of the firmware file returns: end of file, an
    error, or [nr] bytes, together with whether the [WriteFully] of
    those bytes to the data file then succeeds. *)
Inductive read_result :=
| Read_eof
| Read_error
| Read_data (nr : positive) (written : bool).

(** An open firmware file: the size [fstat] reports, if it succeeds,
    and the results of the successive reads; past the end of the list a
    read returns 0. *)
Record fw_file := {
  fw_fstat : option Z;
  fw_reads : list read_result
}.

(** The writes to the two sysfs files. *)
Inductive fw_write :=
| write_loading (bytes : string)
| write_data (nr : positive).

Fixpoint load_firmware_loop (reads : list read_result) (len_to_copy : Z)
    : Z * list fw_write :=
  if len_to_copy >? 0 then
    match reads with
    | [] => (0, [])
    | Read_eof :: _ => (0, [])
    | Read_error :: _ => (-1, [])
    | Read_data nr written :: rest =>
        if written then
          let '(ret, writes) :=
            load_firmware_loop rest (len_to_copy - Z.pos nr) in
          (ret, write_data nr :: writes)
        else (-1, [])
    end
  else (0, []).

Definition load_firmware (fw : fw_file) : Z * list fw_write :=
  match fw_fstat fw with
  | None => (-1, [])
  | Some st_size =>
      let '(ret, writes) := load_firmware_loop (fw_reads fw) st_size in
      (ret,
       [write_loading "1"] ++ writes
       ++ [if ret =? 0 then write_loading "0" else write_loading "-1"])
  end.

Definition firmware_dirs (x86 : bool) : list string :=
  if x86 then ["/system/lib/firmware"]
  else ["/etc/firmware"; "/vendor/firmware"; "/firmware/image"].

(** What the loader sees of the file system: whether the two sysfs files
    open, the firmware file found at a path during the [n]-th search,
    and [is_booting] at the start ([n = 0]) and after the [n]-th sleep. *)
Record fw_env := {
  fw_open_loading : string -> bool;
  fw_open_data : string -> bool;
  fw_open : nat -> string -> option fw_file;
  fw_is_booting : nat -> bool
}.

(** The loop over [firmware_dirs]: [None] when no file opened. *)
Fixpoint search_firmware_dirs (dirs : list string)
    (open : string -> option fw_file) (firmware : string)
    : option (Z * list fw_write) :=
  match dirs with
  | [] => None
  | dir :: rest =>
      match open (dir ++ "/" ++ firmware)%string with
      | Some fw => Some (load_firmware fw)
      | None => search_firmware_dirs rest open firmware
      end
  end.

(** The retries from [try_loading_again]; [None] while the loader is
    still waiting after [searches] searches. *)
Fixpoint try_loading_again (searches : nat) (n : nat) (booting : bool)
    (x86 : bool) (env : fw_env) (firmware : string)
    : option (list fw_write) :=
  match searches with
  | O => None
  | S searches' =>
      match search_firmware_dirs (firmware_dirs x86) (fw_open env n) firmware with
      | Some (_, writes) => Some writes
      | None =>
          if booting
          then try_loading_again searches' (S n) (fw_is_booting env (S n))
                 x86 env firmware
          else Some [write_loading "-1"]
      end
  end.

(** Allocation is taken to succeed. *)
Definition process_firmware_event (searches : nat) (x86 : bool)
    (env : fw_env) (ue : uevent) : option (list fw_write) :=
  let booting := fw_is_booting env O in
  let root := ("/sys" ++ fmt_s (ue_path ue) ++ "/")%string in
  let loading := (root ++ "loading")%string in
  let data := (root ++ "data")%string in
  if negb (fw_open_loading env loading) then Some []
  else if negb (fw_open_data env data) then Some []
  else try_loading_again searches O booting x86 env (fmt_s (ue_firmware ue)).

Definition handle_firmware_event (searches : nat) (x86 : bool)
    (env : fw_env) (ue : uevent) : option (list fw_write) :=
  subsystem <- ue_subsystem ue ;;
  if negb (strcmp subsystem "firmware" =? 0) then Some []
  else
    action <- ue_action ue ;;
    if negb (strcmp action "add" =? 0) then Some []
    else process_firmware_event searches x86 env ue.

(** ** Runs of the platform registry *)

(** The registry after a sequence of platform events. *)
Fixpoint platform_events (platform_names : list platform_node)
    (events : list uevent) : option (list platform_node) :=
  match events with
  | [] => Some platform_names
  | ue :: rest =>
      platform_names' <- handle_platform_device_event platform_names ue ;;
      platform_events platform_names' rest
  end.

(** ** Vocabulary of the statements *)

Section Vocabulary.
Context `{Libc}.

(** A rule applies to a device when it matches the device path or one
    of the alternate links. *)
Definition rule_applies (path : string) (links : option (list string))
    (dp : perms_) : Prop :=
  perm_path_matches path dp = true
  \/ exists ls l, links = Some ls /\ In l ls /\ perm_path_matches l dp = true.

(** The match a rule asks for: prefix, glob or exact. *)
Definition rule_mode_matches (path : string) (dp : perms_) : Prop :=
  if negb (dp_prefix dp =? 0) then exists rest, path = (dp_name dp ++ rest)%string
  else if negb (dp_wildcard dp =? 0)
       then fnmatch (dp_name dp) path FNM_PATHNAME = 0
       else path = dp_name dp.

End Vocabulary.

(** The devpaths stored in the registry. *)
Definition stored_paths (platform_names : list platform_node) : list string :=
  map bus_path platform_names.

(** No add event of the run names a devpath stored at that time. *)
Fixpoint adds_are_new (platform_names : list platform_node)
    (events : list uevent) : Prop :=
  match events with
  | [] => True
  | ue :: rest =>
      (forall path, ue_action ue = Some "add" -> ue_path ue = Some path ->
                    ~ In path (stored_paths platform_names))
      /\ (forall platform_names',
             handle_platform_device_event platform_names ue
             = Some platform_names' ->
             adds_are_new platform_names' rest)
  end.

(** The bytes of [s] before its [k]-th slash ([k] counted from 1), when
    [s] has that many slashes. *)
Fixpoint before_slash (k : nat) (s : string) : option string :=
  match s with
  | EmptyString => None
  | String c r =>
      if Ascii.eqb c "/" then
        match k with
        | O => None
        | S O => Some EmptyString
        | S k' => option_map (String c) (before_slash k' r)
        end
      else option_map (String c) (before_slash k r)
  end.

(** [leaf] is the leaf name of [path]: what follows its last slash, or
    the whole path when it has no slash. *)
Definition leaf_of (path leaf : string) : Prop :=
  (strchr path "/" = None /\ leaf = path)
  \/ (exists dir, path = (dir ++ String "/" leaf)%string
                  /\ strchr leaf "/" = None).

(** The device node a call creates, removes or links to. *)
Definition node_path (c : call) : list string :=
  match c with
  | make_device path _ _ _ _ _ => [path]
  | unlink path => [path]
  | make_link_init oldpath _ => [oldpath]
  | remove_link oldpath _ => [oldpath]
  | make_dir _ _ | mkdir _ _ | mkdir_recursive _ _ => []
  end.

Definition node_paths (calls : list call) : list string :=
  flat_map node_path calls.

Section Routing.
Context `{Ueventd_parser}.

(** The base directory followed by the device name that the routing
    table of the generic handler gives a device with leaf name [name] in
    subsystem [subsys], before any limit on its length; [None] for the
    events the table ignores. *)
Definition chosen_devpath (ue : uevent) (name subsys : string)
    : option string :=
  match ueventd_subsystem_find_by_name subsys with
  | Some subsystem =>
      match ss_devname_src subsystem with
      | DEVNAME_UEVENT_DEVNAME =>
          Some (ss_dirname subsystem ++ "/" ++ fmt_s (ue_device_name ue))%string
      | DEVNAME_UEVENT_DEVPATH =>
          Some (ss_dirname subsystem ++ "/" ++ name)%string
      | DEVNAME_UNKNOWN => None
      end
  | None =>
      if strncmp subsys "usb" 3 =? 0 then
        if (strcmp subsys "usb" =? 0) || (strcmp subsys "usbmisc" =? 0) then
          match ue_device_name ue with
          | Some device_name => Some ("/dev/" ++ device_name)%string
          | None =>
              Some ("/dev/bus/usb/"
                    ++ fmt_03d (Z.quot (ue_minor ue) 128 + 1) ++ "/"
                    ++ fmt_03d (Z.rem (ue_minor ue) 128 + 1))%string
          end
        else None
      else if strncmp subsys "graphics" 8 =? 0 then Some ("/dev/graphics/" ++ name)%string
      else if strncmp subsys "drm" 3 =? 0 then Some ("/dev/dri/" ++ name)%string
      else if strncmp subsys "oncrpc" 6 =? 0 then Some ("/dev/oncrpc/" ++ name)%string
      else if strncmp subsys "adsp" 4 =? 0 then Some ("/dev/adsp/" ++ name)%string
      else if strncmp subsys "msm_camera" 10 =? 0
           then Some ("/dev/msm_camera/" ++ name)%string
      else if strncmp subsys "input" 5 =? 0 then Some ("/dev/input/" ++ name)%string
      else if strncmp subsys "mtd" 3 =? 0 then Some ("/dev/mtd/" ++ name)%string
      else if strncmp subsys "sound" 5 =? 0 then Some ("/dev/snd/" ++ name)%string
      else if (strncmp subsys "misc" 4 =? 0) && (strncmp name "log_" 4 =? 0)
           then Some ("/dev/log/" ++ advance 4 name)%string
      else Some ("/dev/" ++ name)%string
  end.

End Routing.

(** The by-name and by-num links under a base link directory. *)
Definition by_name_link (base : string) (ue : uevent) : list string :=
  match ue_partition_name ue with
  | Some partition_name =>
      [(base ++ "/by-name/" ++ sanitize partition_name)%string]
  | None => []
  end.

Definition by_num_link (base : string) (ue : uevent) : list string :=
  if 0 <=? ue_partition_num ue
  then [(base ++ "/by-num/p" ++ fmt_d (ue_partition_num ue))%string]
  else [].

(** The parent of a block device: a platform entry, with its name, or
    failing that a PCI prefix. *)
Definition block_parent (platform_names : list platform_node)
    (path type device : string) : Prop :=
  (exists pdev, find_platform_device platform_names path = Some pdev
                /\ type = "platform" /\ device = bus_name pdev)
  \/ (find_platform_device platform_names path = None
      /\ find_pci_device_prefix path 256 = (0, Some device)
      /\ type = "pci").

(** The pieces of a message between terminators; the last piece is what
    follows the last terminator. *)
Fixpoint fields (msg : list ascii) : list string :=
  match msg with
  | [] => [EmptyString]
  | c :: rest =>
      if is_nul c then EmptyString :: fields rest
      else match fields rest with
           | f :: fs => String c f :: fs
           | [] => [String c EmptyString]
           end
  end.

Fixpoint leading_records (fs : list string) : list string :=
  match fs with
  | [] => []
  | f :: rest => if is_empty f then [] else f :: leading_records rest
  end.

(** The records of a message: its terminated pieces, up to the first
    empty one. *)
Definition records (msg : list ascii) : list string :=
  leading_records (fields msg).

(** The value of a record that carries the tag. *)
Definition tag_value (tag r : string) : option string :=
  if strncmp r tag (String.length tag) =? 0
  then Some (advance (String.length tag) r)
  else None.

(** The value of the last record that carries the tag. *)
Definition last_value (tag : string) (recs : list string) : option string :=
  fold_left (fun found r =>
               match tag_value tag r with
               | Some v => Some v
               | None => found
               end) recs None.

Definition or_empty (v : option string) : string :=
  match v with
  | Some s => s
  | None => EmptyString
  end.

Section Records.
Context `{Libc}.

Definition number_or (default : Z) (v : option string) : Z :=
  match v with
  | Some s => atoi s
  | None => default
  end.

(** What one record does to the event: the tag chain of the parser,
    read on the record itself. *)
Definition record_update (ue : uevent) (r : string) : uevent :=
  let at_ (tag : string) := strncmp r tag (String.length tag) =? 0 in
  let past (tag : string) := advance (String.length tag) r in
  let '(Build_uevent action path subsystem firmware partition_name
          device_name modalias partition_num major minor) := ue in
  if at_ "ACTION=" then
    Build_uevent (Some (past "ACTION=")) path subsystem firmware
      partition_name device_name modalias partition_num major minor
  else if at_ "DEVPATH=" then
    Build_uevent action (Some (past "DEVPATH=")) subsystem firmware
      partition_name device_name modalias partition_num major minor
  else if at_ "SUBSYSTEM=" then
    Build_uevent action path (Some (past "SUBSYSTEM=")) firmware
      partition_name device_name modalias partition_num major minor
  else if at_ "FIRMWARE=" then
    Build_uevent action path subsystem (Some (past "FIRMWARE="))
      partition_name device_name modalias partition_num major minor
  else if at_ "MAJOR=" then
    Build_uevent action path subsystem firmware
      partition_name device_name modalias partition_num
      (atoi (past "MAJOR=")) minor
  else if at_ "MINOR=" then
    Build_uevent action path subsystem firmware
      partition_name device_name modalias partition_num
      major (atoi (past "MINOR="))
  else if at_ "PARTN=" then
    Build_uevent action path subsystem firmware
      partition_name device_name modalias (atoi (past "PARTN="))
      major minor
  else if at_ "PARTNAME=" then
    Build_uevent action path subsystem firmware
      (Some (past "PARTNAME=")) device_name modalias partition_num major minor
  else if at_ "DEVNAME=" then
    Build_uevent action path subsystem firmware
      partition_name (Some (past "DEVNAME=")) modalias partition_num
      major minor
  else if at_ "MODALIAS=" then
    Build_uevent action path subsystem firmware
      partition_name device_name (Some (past "MODALIAS=")) partition_num
      major minor
  else ue.

End Records.

(** A received message: its bytes followed by the two terminators the
    receiver appends; or what is left of one at its last terminator. *)
Definition padded (msg : list ascii) : Prop :=
  msg = [zero] \/ exists bytes, msg = bytes ++ [zero; zero].

(** An [insmod_by_dep] that loads every module, to run the model on
    examples. *)
Definition sample_probe_module : Probe_module := {|
  insmod_by_dep := fun _ _ => 0
|}.

(** A subsystem table without entries, to run the model on examples. *)
Definition sample_ueventd_parser : Ueventd_parser := {|
  ueventd_subsystem_find_by_name := fun _ => None
|}.

(** The bytes of the last write to the loading file. *)
Fixpoint last_loading_write (writes : list fw_write) : option string :=
  match writes with
  | [] => None
  | w :: rest =>
      match last_loading_write rest with
      | Some bytes => Some bytes
      | None =>
          match w with
          | write_loading bytes => Some bytes
          | write_data _ => None
          end
      end
  end.

(** The first entry of the blacklist for a module name is [b]. *)
Definition first_blacklist_entry (blacklist : list module_blacklist_node)
    (name : string) (b : module_blacklist_node) : Prop :=
  exists before after,
    blacklist = before ++ b :: after
    /\ blk_name b = name
    /\ forall x, In x before -> blk_name x <> name.

(** ** Sample rules and events *)

Definition input_rules : list perms_ :=
  [ {| dp_name := "/dev/null"; dp_attr := None; dp_perm := 438;
       dp_uid := 0; dp_gid := 0; dp_prefix := 0; dp_wildcard := 0 |};
    {| dp_name := "/dev/input/*"; dp_attr := None; dp_perm := 432;
       dp_uid := 0; dp_gid := 1004; dp_prefix := 0; dp_wildcard := 1 |} ].

Definition platform_event (action path : string) : uevent :=
  {| ue_action := Some action; ue_path := Some path;
     ue_subsystem := Some "platform"; ue_firmware := Some "";
     ue_partition_name := None; ue_device_name := None;
     ue_modalias := None; ue_partition_num := -1;
     ue_major := -1; ue_minor := -1 |}.

Definition usb_event : uevent :=
  {| ue_action := Some "add";
     ue_path := Some "/devices/pci0000:00/0000:00:1d.0/usb2/2-1";
     ue_subsystem := Some "usb"; ue_firmware := Some "";
     ue_partition_name := None; ue_device_name := Some "bus/usb/002/005";
     ue_modalias := None; ue_partition_num := -1;
     ue_major := 189; ue_minor := 133 |}.

Definition mmc_event : uevent :=
  {| ue_action := Some "add";
     ue_path := Some "/devices/platform/soc.0/by.pci/mmcblk0p3";
     ue_subsystem := Some "block"; ue_firmware := Some "";
     ue_partition_name := Some "user data/bad"; ue_device_name := None;
     ue_modalias := None; ue_partition_num := 3;
     ue_major := 179; ue_minor := 3 |}.

(** ** Sysfs permissions *)

(** The system calls of [fixup_sys_perms] and [make_device], in order. *)
Inductive sys_call :=
| chown (path : string) (uid gid : Z)
| chmod (path : string) (perm : Z)
| restorecon_recursive (path : string)
| setfscreatecon (context : option string)
| setegid (gid : Z)
| mknod (path : string) (mode : Z) (major minor : Z)
| lsetfilecon (path context : string)
| freecon (context : string).

Section Sysfs.
Context `{Libc}.

(** The test of a sysfs rule against a uevent path: the rule's name
    without its first four bytes. *)
Definition sys_perm_matches (upath : string) (dp : perms_) : bool :=
  let name4 := advance 4 (dp_name dp) in
  if negb (dp_prefix dp =? 0) then
    strncmp upath name4 (String.length name4) =? 0
  else if negb (dp_wildcard dp =? 0) then
    fnmatch name4 upath FNM_PATHNAME =? 0
  else
    strcmp upath name4 =? 0.

(** The body of [list_for_each] over [sys_perms]: [continue] on a rule
    that does not match, [break] on one whose attribute path does not
    fit the buffer.  A name shorter than four bytes, or a null
    attribute, is read out of bounds. *)
Fixpoint fixup_sys_perms_loop (nodes : list perms_) (upath : string)
    : option (list sys_call) :=
  match nodes with
  | [] => Some []
  | dp :: rest =>
      if strlen (dp_name dp) <? 4 then None
      else if negb (sys_perm_matches upath dp)
      then fixup_sys_perms_loop rest upath
      else
        attr <- dp_attr dp ;;
        if strlen upath + strlen attr + 6 >? 512 then Some []
        else
          let buf :=
            fst (snprintf 512 ("/sys" ++ upath ++ "/" ++ attr)%string) in
          calls <- fixup_sys_perms_loop rest upath ;;
          Some (chown buf (dp_uid dp) (dp_gid dp)
                :: chmod buf (dp_perm dp) :: calls)
  end.

(** [access] tells whether [access(path, F_OK)] succeeds. *)
Definition fixup_sys_perms (access : string -> bool)
    (sys_perms : list perms_) (upath : string) : option (list sys_call) :=
  calls <- fixup_sys_perms_loop sys_perms upath ;;
  let '(buf, len) := snprintf 512 ("/sys" ++ upath)%string in
  if (len <? 0) || (len >=? 512) then Some calls
  else if access buf then Some (calls ++ [restorecon_recursive buf])
  else Some calls.

End Sysfs.

(** ** Creating a device node *)

Definition S_IFCHR : Z := 8192 (* 0020000 *).
Definition S_IFBLK : Z := 24576 (* 0060000 *).
Definition AID_ROOT : Z := 0.
Definition EEXIST : Z := 17.

Module Dev.
Section Make_device.
Context `{Libc}.

(** [selabel] is the context [selabel_lookup_best_match] finds, if any;
    [mknod_errno] is [errno] when [mknod] fails, [None] when it
    succeeds.  The device number is kept as its major and minor. *)
Definition make_device
    (selabel : string -> option (list string) -> Z -> option string)
    (mknod_errno : string -> Z -> Z -> Z -> option Z)
    (dev_perms : list perms_) (path : string) (block major minor : Z)
    (links : option (list string)) : list sys_call :=
  let '(perm, uid, gid) := get_device_perm dev_perms path links in
  let mode := Z.lor perm (if negb (block =? 0) then S_IFBLK else S_IFCHR) in
  match selabel path links mode with
  | None => []
  | Some secontext =>
      [setfscreatecon (Some secontext); setegid gid;
       mknod path mode major minor]
      ++ (match mknod_errno path mode major minor with
          | Some errno =>
              if errno =? EEXIST then [lsetfilecon path secontext] else []
          | None => []
          end)
      ++ [chown path uid (-1); setegid AID_ROOT; freecon secontext;
          setfscreatecon None]
  end.

End Make_device.
End Dev.

(** ** The modprobe helper *)

Definition EPERM : Z := 1.
Definition EINVAL : Z := 22.

(** The loop of [modprobe_main] that drops "-q" and "--": each turn is
    [argc--, argv++]. *)
Fixpoint skip_quiet_flags (argv : list string) : list string :=
  match argv with
  | _ :: ((a1 :: _) as argv') =>
      if (strcmp a1 "-q" =? 0) || (strcmp a1 "--" =? 0)
      then skip_quiet_flags argv'
      else argv
  | _ => argv
  end.

(** The options string of [module_probe]: the words joined by spaces. *)
Fixpoint join_options (words : list string) : string :=
  match words with
  | [] => EmptyString
  | [w] => w
  | w :: rest => (w ++ " " ++ join_options rest)%string
  end.

Section Modprobe.
Context `{Libc} `{Probe_module}.

(** [insmod_options calls name options] is the status of the call of
    [insmod_by_dep] with an options string, after the calls [calls].
    Returns the status, the lists, and the name and options of that call
    when it is made.  [argv] holds at least two words. *)
Definition module_probe (insmod_options : list string -> string -> string -> Z)
    (env : module_env) (st : modules) (argv : list string)
    : option (Z * modules * option (string * string)) :=
  let st :=
    if list_empty (modules_aliases_map st)
    then snd (read_modules_blacklist env (snd (read_modules_aliases env st)))
    else st in
  argv1 <- nth_error argv 1 ;;
  let '(ret, calls) :=
    load_module_by_device_modalias (modules_aliases_map st)
      (modules_blacklist st) argv1 false (insmod_calls st) in
  let loaded (calls : list string) :=
    {| modules_aliases_map := modules_aliases_map st;
       modules_blacklist := modules_blacklist st;
       deferred_module_loading_list := deferred_module_loading_list st;
       insmod_calls := calls |} in
  if negb (ret =? 0) then
    let options := join_options (skipn 2 argv) in
    Some (insmod_options calls argv1 options, loaded (calls ++ [argv1]),
          Some (argv1, options))
  else Some (ret, loaded calls, None).

(** [uid] is what [getuid] returns. *)
Definition modprobe_main (insmod_options : list string -> string -> string -> Z)
    (uid : Z) (env : module_env) (st : modules) (argv : list string)
    : option (Z * modules * option (string * string)) :=
  if negb (uid =? 0) then Some (- EPERM, st, None)
  else
    let argv := skip_quiet_flags argv in
    if (List.length argv <? 2)%nat then Some (- EINVAL, st, None)
    else module_probe insmod_options env st argv.

End Modprobe.

(** ** The event dispatcher *)

(** The tables of the device manager. *)
Record devices := {
  dev_sys_perms : list perms_;
  dev_dev_perms : list perms_;
  dev_platform_names : list platform_node;
  dev_modules : modules
}.

Section Dispatcher.
Context `{Libc} `{Probe_module} `{Ueventd_parser}.

(** Returns the tables after the event, the system calls on sysfs and
    the calls of the device handlers. *)
Definition handle_device_event (access : string -> bool) (env : module_env)
    (st : devices) (ue : uevent)
    : option (devices * list sys_call * list call) :=
  action <- ue_action ue ;;
  let mods :=
    if strcmp action "add" =? 0
    then handle_module_loading env (dev_modules st) (ue_modalias ue)
    else dev_modules st in
  sys_calls <-
    (if (strcmp action "add" =? 0) || (strcmp action "change" =? 0)
        || (strcmp action "online" =? 0)
     then path <- ue_path ue ;; fixup_sys_perms access (dev_sys_perms st) path
     else Some []) ;;
  subsystem <- ue_subsystem ue ;;
  let with_names (names : list platform_node) :=
    {| dev_sys_perms := dev_sys_perms st; dev_dev_perms := dev_dev_perms st;
       dev_platform_names := names; dev_modules := mods |} in
  if strncmp subsystem "block" 5 =? 0 then
    calls <- handle_block_device_event (dev_platform_names st) ue ;;
    Some (with_names (dev_platform_names st), sys_calls, calls)
  else if strncmp subsystem "platform" 8 =? 0 then
    names <- handle_platform_device_event (dev_platform_names st) ue ;;
    Some (with_names names, sys_calls, [])
  else
    calls <- handle_generic_device_event (dev_platform_names st) ue ;;
    Some (with_names (dev_platform_names st), sys_calls, calls).

End Dispatcher.

(** ** Vocabulary of the further statements *)

(** Every entry of the registry records the length of its path. *)
Definition lengths_recorded (platform_names : list platform_node) : Prop :=
  Forall (fun bus => bus_path_len bus = strlen (bus_path bus)) platform_names.

(** [parent] is a directory above [path]. *)
Definition directory_above (parent path : string) : Prop :=
  exists rest, path = (parent ++ String "/" rest)%string.

(** The ten tags of the parser. *)
Definition known_tags : list string :=
  ["ACTION="; "DEVPATH="; "SUBSYSTEM="; "FIRMWARE="; "MAJOR="; "MINOR=";
   "PARTN="; "PARTNAME="; "DEVNAME="; "MODALIAS="].

Definition has_known_tag (r : string) : bool :=
  existsb (fun tag => strncmp r tag (String.length tag) =? 0) known_tags.

(** The tokens of a file made of lines of words, each line ended by a
    newline. *)
Definition tokens_of_lines (lines : list (list string)) : list token :=
  flat_map (fun line => map T_TEXT line ++ [T_NEWLINE]) lines.

(** What the lines do to a table: every line is cut to its first
    [args_to_read] words and parsed, unless nothing is left of it. *)
Definition parse_lines {A : Type} (parse_line : A -> list string -> A)
    (args_to_read : nat) (lines : list (list string)) (table : A) : A :=
  fold_left (fun table line =>
               match firstn args_to_read line with
               | [] => table
               | (_ :: _) as args => parse_line table args
               end) lines table.

(** The alias a line of modules.alias adds: its second word is the
    pattern and its third the module, whatever the first word is. *)
Definition alias_of_line (line : list string) : list module_alias_node :=
  match line with
  | _ :: pattern :: name :: _ =>
      [{| alias_name := Some name; alias_pattern := Some pattern |}]
  | _ => []
  end.

(** The attribute file of a sysfs rule for a uevent path. *)
Definition sys_attr_path (upath : string) (dp : perms_) : string :=
  ("/sys" ++ upath ++ "/" ++ or_empty (dp_attr dp))%string.

(** The two calls [fixup_sys_perms] makes for a rule. *)
Definition sys_attr_calls (upath : string) (dp : perms_) : list sys_call :=
  [chown (sys_attr_path upath dp) (dp_uid dp) (dp_gid dp);
   chmod (sys_attr_path upath dp) (dp_perm dp)].

(** A sysfs rule that can be read: a name of at least four bytes and an
    attribute. *)
Definition sys_rule_readable (dp : perms_) : Prop :=
  4 <= strlen (dp_name dp) /\ dp_attr dp <> None.

(** The attribute path of the rule fits the buffer of
    [fixup_sys_perms]. *)
Definition sys_rule_fits (upath : string) (dp : perms_) : Prop :=
  strlen upath + strlen (or_empty (dp_attr dp)) + 6 <= 512.

Section Alias_vocabulary.
Context `{Libc}.

(** The alias has a name and a pattern, and the pattern matches. *)
Definition alias_matches (id : string) (alias : module_alias_node) : Prop :=
  exists name pattern,
    alias_name alias = Some name /\ alias_pattern alias = Some pattern
    /\ fnmatch pattern id 0 = 0.

End Alias_vocabulary.

(** Every node of the deferred queue holds a modalias. *)
Definition queue_holds_modaliases (st : modules) : Prop :=
  Forall (fun node => alias_pattern node <> None)
    (deferred_module_loading_list st).

(** The writes to the data file among the writes of the loader. *)
Definition is_write_data (w : fw_write) : bool :=
  match w with
  | write_data _ => true
  | write_loading _ => false
  end.

(** No read fails and every write of the bytes read succeeds. *)
Definition reads_without_error (reads : list read_result) : Prop :=
  forall r, In r reads -> r = Read_eof \/ exists nr, r = Read_data nr true.

(** Whether every argument is one of the flags [modprobe_main] drops. *)
Definition quiet_flags (flags : list string) : Prop :=
  forall f, In f flags -> f = "-q" \/ f = "--".

(** The result of the [n]-th search of the firmware directories. *)
Definition firmware_search (x86 : bool) (env : fw_env) (firmware : string)
    (n : nat) : option (Z * list fw_write) :=
  search_firmware_dirs (firmware_dirs x86) (fw_open env n) firmware.

(** Both sysfs files of a firmware request open. *)
Definition sysfs_files_open (env : fw_env) (ue : uevent) : Prop :=
  fw_open_loading env ("/sys" ++ fmt_s (ue_path ue) ++ "/" ++ "loading")%string
  = true
  /\ fw_open_data env ("/sys" ++ fmt_s (ue_path ue) ++ "/" ++ "data")%string
     = true.

(** ** Further sample tables and events *)

Definition soc_registry : list platform_node :=
  add_platform_device [] "/devices/platform/soc.0".

Definition cpu_rule : perms_ :=
  {| dp_name := "/sys/devices/system/cpu/cpu0"; dp_attr := Some "online";
     dp_perm := 436; dp_uid := 0; dp_gid := 1000; dp_prefix := 0;
     dp_wildcard := 0 |}.

Definition cpu_prefix_rule : perms_ :=
  {| dp_name := "/sys/devices/system/cpu"; dp_attr := Some "uevent";
     dp_perm := 420; dp_uid := 0; dp_gid := 0; dp_prefix := 1;
     dp_wildcard := 0 |}.

Definition long_cpu_rule : perms_ :=
  {| dp_name := "/sys/devices/system/cpu/cpu0"; dp_attr := Some (zeros 600);
     dp_perm := 436; dp_uid := 0; dp_gid := 1000; dp_prefix := 0;
     dp_wildcard := 0 |}.

Definition tty_event : uevent :=
  {| ue_action := Some "add";
     ue_path :=
       Some "/devices/platform/soc.0/usb1/1-1/1-1:1.0/ttyUSB0/tty/ttyUSB0";
     ue_subsystem := Some "tty"; ue_firmware := Some "";
     ue_partition_name := None; ue_device_name := None;
     ue_modalias := None; ue_partition_num := -1;
     ue_major := 188; ue_minor := 0 |}.

Definition usb_change_event : uevent :=
  {| ue_action := Some "change";
     ue_path := Some "/devices/pci0000:00/0000:00:1d.0/usb2/2-1";
     ue_subsystem := Some "usb"; ue_firmware := Some "";
     ue_partition_name := None; ue_device_name := Some "bus/usb/002/005";
     ue_modalias := None; ue_partition_num := -1;
     ue_major := 189; ue_minor := 133 |}.

Definition no_modules : modules :=
  {| modules_aliases_map := []; modules_blacklist := [];
     deferred_module_loading_list := []; insmod_calls := [] |}.

Definition no_files : module_env :=
  {| env_modules_alias := None; env_modules_blacklist := None;
     env_is_booting := true |}.

Definition no_tables : devices :=
  {| dev_sys_perms := []; dev_dev_perms := []; dev_platform_names := [];
     dev_modules := no_modules |}.

Definition foo_alias : module_alias_node :=
  {| alias_name := Some "foo"; alias_pattern := Some "pci:*" |}.

Definition firmware_event : uevent :=
  {| ue_action := Some "add";
     ue_path := Some "/devices/pci0000:00/0000:00:1c.0/firmware/foo";
     ue_subsystem := Some "firmware"; ue_firmware := Some "foo.bin";
     ue_partition_name := None; ue_device_name := None;
     ue_modalias := None; ue_partition_num := -1;
     ue_major := -1; ue_minor := -1 |}.

Definition two_chunks : fw_file :=
  {| fw_fstat := Some 6000;
     fw_reads := [Read_data 4096 true; Read_data 1904 true] |}.

(** The firmware file is there from the second search on. *)
Definition late_firmware (booting : bool) : fw_env :=
  {| fw_open_loading := fun _ => true;
     fw_open_data := fun _ => true;
     fw_open := fun n file =>
       if (1 <=? n)%nat && String.eqb file "/system/lib/firmware/foo.bin"
       then Some two_chunks else None;
     fw_is_booting := fun _ => booting |}.

Definition no_firmware : fw_env :=
  {| fw_open_loading := fun _ => true;
     fw_open_data := fun _ => true;
     fw_open := fun _ _ => None;
     fw_is_booting := fun _ => false |}.

(** * Properties *)

(** ** Strings *)

Lemma byte_order_nonzero (c1 c2 : ascii) : byte_order c1 c2 <> 0.
Proof. unfold byte_order. destruct (_ <? _)%nat; lia. Qed.

Lemma strcmp_refl (s : string) : strcmp s s = 0.
Proof.
  induction s as [|c s IH]; simpl; [reflexivity|].
  now rewrite Ascii.eqb_refl.
Qed.

Lemma strcmp_zero (s1 s2 : string) : strcmp s1 s2 = 0 <-> s1 = s2.
Proof.
  split; [|intros ->; apply strcmp_refl].
  revert s2. induction s1 as [|c1 r1 IH]; intros [|c2 r2]; simpl;
    try discriminate; try reflexivity.
  destruct (Ascii.eqb c1 c2) eqn:E.
  - apply Ascii.eqb_eq in E. intros Hc. f_equal; auto.
  - intros Hc. now apply byte_order_nonzero in Hc.
Qed.

Lemma strcmp_eqb (s1 s2 : string) : (strcmp s1 s2 =? 0) = true <-> s1 = s2.
Proof. rewrite Z.eqb_eq. apply strcmp_zero. Qed.

Lemma strncmp_prefix (s p : string) :
  strncmp s p (String.length p) = 0 <-> exists rest, s = (p ++ rest)%string.
Proof.
  revert s. induction p as [|c p IH]; intros [|a s]; simpl.
  - split; [intros _; now exists "" | reflexivity].
  - split; [intros _; now exists (String a s) | reflexivity].
  - split; [discriminate | intros [rest Hr]; discriminate].
  - destruct (Ascii.eqb a c) eqn:E.
    + apply Ascii.eqb_eq in E. subst a. rewrite IH.
      split; intros [rest Hr]; exists rest; [now rewrite Hr | now inversion Hr].
    + split.
      * intros Hc. now apply byte_order_nonzero in Hc.
      * intros [rest Hr]. inversion Hr. subst.
        now rewrite Ascii.eqb_refl in E.
Qed.

Lemma strncmp_prefix_eqb (s p : string) :
  (strncmp s p (String.length p) =? 0) = true
  <-> exists rest, s = (p ++ rest)%string.
Proof. rewrite Z.eqb_eq. apply strncmp_prefix. Qed.

(** ** Permission resolution *)

Section Permission_facts.
Context `{Libc}.

Lemma links_match_In (ls : list string) (dp : perms_) :
  links_match ls dp = true <-> exists l, In l ls /\ perm_path_matches l dp = true.
Proof.
  induction ls as [|l ls IH]; simpl.
  - split; [discriminate | intros [l [[] _]]].
  - destruct (perm_path_matches l dp) eqn:E.
    + split; [intros _; exists l; auto | reflexivity].
    + rewrite IH. split; intros [l' [Hin Hm]].
      * exists l'; auto.
      * destruct Hin as [->|Hin]; [congruence | exists l'; auto].
Qed.

Lemma rule_applies_test (path : string) (links : option (list string))
    (dp : perms_) :
  rule_applies path links dp <->
  (if perm_path_matches path dp then true
   else match links with
        | Some ls => links_match ls dp
        | None => false
        end) = true.
Proof.
  unfold rule_applies. destruct (perm_path_matches path dp) eqn:E.
  - split; auto.
  - destruct links as [ls|].
    + rewrite links_match_In. split.
      * intros [Hc | [ls' [l [Hs [Hin Hm]]]]]; [discriminate|].
        inversion Hs; subst. exists l; auto.
      * intros [l [Hin Hm]]. right. exists ls, l; auto.
    + split; [|discriminate].
      intros [Hc | [ls' [l [Hs _]]]]; discriminate.
Qed.

Lemma perm_path_matches_mode (path : string) (dp : perms_) :
  perm_path_matches path dp = true <-> rule_mode_matches path dp.
Proof.
  unfold perm_path_matches, rule_mode_matches.
  destruct (negb (dp_prefix dp =? 0)).
  - apply strncmp_prefix_eqb.
  - destruct (negb (dp_wildcard dp =? 0)).
    + apply Z.eqb_eq.
    + apply strcmp_eqb.
Qed.

Lemma get_device_perm_scan_first (before : list perms_) (dp : perms_)
    (after : list perms_) (path : string) (links : option (list string)) :
  (forall r, In r before -> ~ rule_applies path links r) ->
  rule_applies path links dp ->
  get_device_perm_scan (before ++ dp :: after) path links
  = (dp_perm dp, dp_uid dp, dp_gid dp).
Proof.
  intros Hbefore Hdp. induction before as [|r before IH]; simpl.
  - apply rule_applies_test in Hdp. now rewrite Hdp.
  - destruct (if perm_path_matches path r then true else _) eqn:E.
    + exfalso. apply (Hbefore r); [now left|]. now apply rule_applies_test.
    + apply IH. intros r' Hin. apply Hbefore. now right.
Qed.

Lemma get_device_perm_scan_default (nodes : list perms_) (path : string)
    (links : option (list string)) :
  (forall r, In r nodes -> ~ rule_applies path links r) ->
  get_device_perm_scan nodes path links = (384, 0, 0).
Proof.
  induction nodes as [|r nodes IH]; intros Hnone; simpl; [reflexivity|].
  destruct (if perm_path_matches path r then true else _) eqn:E.
  - exfalso. apply (Hnone r); [now left|]. now apply rule_applies_test.
  - apply IH. intros r' Hin. apply Hnone. now right.
Qed.

(** C1. Permission resolution scans the device rules in reverse
    insertion order and returns the mode, uid and gid of the first rule
    that matches the path or, failing that, one of the alternate links,
    by prefix, glob or exact comparison as the rule asks; when no rule
    matches it returns mode 0600, uid 0 and gid 0. *)
Theorem get_device_perm_first_match (dev_perms : list perms_)
    (path : string) (links : option (list string)) :
  (forall before dp after,
      rev dev_perms = before ++ dp :: after ->
      (forall r, In r before -> ~ rule_applies path links r) ->
      rule_applies path links dp ->
      get_device_perm dev_perms path links
      = (dp_perm dp, dp_uid dp, dp_gid dp))
  /\ ((forall r, In r dev_perms -> ~ rule_applies path links r) ->
      get_device_perm dev_perms path links = (384, 0, 0))
  /\ (forall p dp, perm_path_matches p dp = true <-> rule_mode_matches p dp).
Proof.
  unfold get_device_perm. repeat split.
  - intros before dp after Hrev Hbefore Hdp. rewrite Hrev.
    now apply get_device_perm_scan_first.
  - intros Hnone. apply get_device_perm_scan_default.
    intros r Hin. apply Hnone. now apply in_rev.
  - apply perm_path_matches_mode.
  - apply perm_path_matches_mode.
Qed.

End Permission_facts.

(** ** The platform device registry *)

Lemma remove_scan_paths_incl (nodes : list platform_node) (path p : string) :
  In p (stored_paths (remove_platform_device_scan nodes path)) ->
  In p (stored_paths nodes).
Proof.
  induction nodes as [|bus nodes IH]; simpl; [auto|].
  destruct (strcmp path (bus_path bus) =? 0); simpl.
  - now right.
  - intros [Hp | Hp]; [now left | right; now apply IH].
Qed.

Lemma remove_scan_NoDup (nodes : list platform_node) (path : string) :
  NoDup (stored_paths nodes) ->
  NoDup (stored_paths (remove_platform_device_scan nodes path)).
Proof.
  induction nodes as [|bus nodes IH]; simpl; [auto|].
  intros Hnd. inversion Hnd as [|x l Hnotin Hrest]; subst.
  destruct (strcmp path (bus_path bus) =? 0); simpl; [assumption|].
  constructor; [|now apply IH].
  intros Hin. apply Hnotin. now apply remove_scan_paths_incl in Hin.
Qed.

Lemma stored_paths_rev (nodes : list platform_node) :
  stored_paths (rev nodes) = rev (stored_paths nodes).
Proof. apply map_rev. Qed.

Lemma remove_platform_device_NoDup (platform_names : list platform_node)
    (path : string) :
  NoDup (stored_paths platform_names) ->
  NoDup (stored_paths (remove_platform_device platform_names path)).
Proof.
  intros Hnd. unfold remove_platform_device.
  rewrite stored_paths_rev. apply NoDup_rev. apply remove_scan_NoDup.
  rewrite stored_paths_rev. now apply NoDup_rev.
Qed.

Lemma add_platform_device_paths (platform_names : list platform_node)
    (path : string) :
  stored_paths (add_platform_device platform_names path)
  = stored_paths platform_names ++ [path].
Proof. unfold add_platform_device, stored_paths. now rewrite map_app. Qed.

Lemma add_platform_device_NoDup (platform_names : list platform_node)
    (path : string) :
  NoDup (stored_paths platform_names) ->
  ~ In path (stored_paths platform_names) ->
  NoDup (stored_paths (add_platform_device platform_names path)).
Proof.
  intros Hnd Hnew. rewrite add_platform_device_paths.
  apply NoDup_app; [assumption | repeat constructor; intros [] |].
  intros a Ha [<- | []]. now apply Hnew.
Qed.

(** C4, as the code has it.  Removing a platform device keeps the stored
    devpaths pairwise distinct, and adding one keeps them distinct when
    its devpath is not stored yet; so the registry holds no two entries
    with the same devpath after any run of platform events in which no
    add names a devpath that is stored at that time. *)
Theorem platform_registry_distinct_paths
    (platform_names : list platform_node) (events : list uevent)
    (platform_names' : list platform_node) :
  NoDup (stored_paths platform_names) ->
  adds_are_new platform_names events ->
  platform_events platform_names events = Some platform_names' ->
  NoDup (stored_paths platform_names').
Proof.
  revert platform_names. induction events as [|ue rest IH];
    intros names Hnd Hnew Hrun; simpl in Hrun.
  - now inversion Hrun; subst.
  - destruct Hnew as [Hfresh Hnext].
    destruct (handle_platform_device_event names ue) as [names1|] eqn:Hev;
      [|discriminate].
    apply (IH names1); [|now apply Hnext|assumption].
    unfold handle_platform_device_event in Hev.
    destruct (ue_path ue) as [path|]; [|discriminate].
    destruct (ue_action ue) as [action|]; [|discriminate].
    destruct (strcmp action "add" =? 0) eqn:Eadd.
    + inversion Hev; subst. apply add_platform_device_NoDup; [assumption|].
      apply Hfresh; [|reflexivity].
      apply strcmp_eqb in Eadd. now subst.
    + destruct (strcmp action "remove" =? 0); inversion Hev; subst;
        [now apply remove_platform_device_NoDup | assumption].
Qed.

(** C4, as stated, fails: two add events for one devpath leave two
    entries with that devpath. *)
Lemma platform_registry_duplicate_add :
  let add := {| ue_action := Some "add";
                ue_path := Some "/devices/platform/soc.0";
                ue_subsystem := Some "platform"; ue_firmware := Some "";
                ue_partition_name := None; ue_device_name := None;
                ue_modalias := None; ue_partition_num := -1;
                ue_major := -1; ue_minor := -1 |} in
  exists platform_names,
    platform_events [] [add; add] = Some platform_names
    /\ stored_paths platform_names
       = ["/devices/platform/soc.0"; "/devices/platform/soc.0"]
    /\ ~ NoDup (stored_paths platform_names).
Proof.
  eexists. split; [reflexivity|]. split; [reflexivity|].
  intros Hnd. inversion Hnd as [|x l Hnotin _]; subst.
  apply Hnotin. now left.
Qed.

(** ** The PCI prefix *)

Lemma length_append (a b : string) :
  String.length (a ++ b) = (String.length a + String.length b)%nat.
Proof. induction a as [|c a IH]; simpl; [reflexivity | now rewrite IH]. Qed.

Lemma strncpy_append (a b : string) : strncpy (a ++ b) (String.length a) = a.
Proof. induction a as [|c a IH]; simpl; [now destruct b | now rewrite IH]. Qed.

Lemma advance_append (a b : string) : advance (String.length a) (a ++ b) = b.
Proof. induction a as [|c a IH]; simpl; [now destruct b | assumption]. Qed.

Lemma append_assoc (a b c : string) :
  ((a ++ b) ++ c = a ++ (b ++ c))%string.
Proof. induction a as [|x a IH]; simpl; [reflexivity | now rewrite IH]. Qed.

(** [strchr] splits a string at the first occurrence of the byte. *)
Lemma strchr_split (s : string) (c : ascii) (e : string) :
  strchr s c = Some e ->
  exists a e', s = (a ++ e)%string /\ e = String c e' /\ strchr a c = None.
Proof.
  induction s as [|x s IH]; simpl; [discriminate|].
  destruct (Ascii.eqb x c) eqn:E.
  - intros Hs. inversion Hs; subst. apply Ascii.eqb_eq in E. subst x.
    exists "", s. auto.
  - intros Hs. destruct (IH Hs) as [a [e' [Ha [He Hn]]]].
    exists (String x a), e'. simpl. rewrite E. repeat split; auto.
    now rewrite Ha.
Qed.

Lemma before_slash_none (k : nat) (s : string) :
  strchr s "/" = None -> before_slash k s = None.
Proof.
  induction s as [|x s IH]; simpl; [reflexivity|].
  destruct (Ascii.eqb x "/"); [discriminate|].
  intros Hs. now rewrite IH.
Qed.

Lemma before_slash_first (a r : string) :
  strchr a "/" = None ->
  before_slash 1 (a ++ String "/" r) = Some a.
Proof.
  induction a as [|x a IH]; simpl; [reflexivity|].
  destruct (Ascii.eqb x "/"); [discriminate|].
  intros Hs. now rewrite IH.
Qed.

Lemma before_slash_next (k : nat) (a r : string) :
  strchr a "/" = None ->
  before_slash (S (S k)) (a ++ String "/" r)
  = option_map (fun t => (a ++ String "/" t)%string) (before_slash (S k) r).
Proof.
  induction a as [|x a IH]; simpl.
  - intros _. now destruct (before_slash _ r).
  - destruct (Ascii.eqb x "/"); [discriminate|].
    intros Hs. rewrite (IH Hs).
    now destruct (before_slash _ r).
Qed.

Lemma find_pci_device_prefix_cases (rest : string) (buf_sz : Z) :
  let path := ("/devices/pci" ++ rest)%string in
  find_pci_device_prefix path buf_sz
  = match before_slash 2 (advance 9 path) with
    | None => (-1, None)
    | Some pre =>
        if strlen pre + 1 >? buf_sz then (-1, None) else (0, Some pre)
    end.
Proof.
  intros path. unfold find_pci_device_prefix.
  assert (Hp : (strncmp path "/devices/pci" 12 =? 0) = true).
  { apply (strncmp_prefix_eqb path "/devices/pci"). now exists rest. }
  rewrite Hp. simpl negb. cbv iota.
  set (start := advance 9 path).
  destruct (strchr start "/") as [end1|] eqn:E1.
  2:{ now rewrite before_slash_none. }
  destruct (strchr_split _ _ _ E1) as [a [r1 [Hs [He1 Ha]]]].
  subst end1. replace (advance 1 (String "/" r1)) with r1 by reflexivity.
  rewrite Hs. rewrite (before_slash_next 0 a r1 Ha).
  destruct (strchr r1 "/") as [end2|] eqn:E2.
  2:{ now rewrite before_slash_none. }
  destruct (strchr_split _ _ _ E2) as [b [r2 [Hr1 [He2 Hb]]]].
  subst end2. rewrite Hr1. rewrite (before_slash_first b r2 Hb). simpl option_map.
  assert (Hn : strlen (a ++ String "/" (b ++ String "/" r2))
               - strlen (String "/" r2)
               = strlen (a ++ String "/" b)).
  { unfold strlen. rewrite !length_append. simpl String.length.
    rewrite !length_append. simpl String.length. lia. }
  rewrite Hn.
  destruct (strlen (a ++ String "/" b) + 1 >? buf_sz); [reflexivity|].
  unfold strlen. rewrite Nat2Z.id.
  replace (a ++ String "/" (b ++ String "/" r2))%string
    with ((a ++ String "/" b) ++ String "/" r2)%string.
  - now rewrite strncpy_append.
  - rewrite append_assoc. reflexivity.
Qed.

(** C7, as the code has it.  For a devpath that begins with
    "/devices/pci" and a buffer with room for the result and its
    terminator, the function returns 0 and fills the buffer with the
    bytes from offset 9 up to the second slash after that offset; it
    returns -1 when the devpath does not begin with "/devices/pci", when
    there are fewer than two slashes after offset 9, or when the buffer
    is too small. *)
Theorem find_pci_device_prefix_second_slash (path : string) (buf_sz : Z) :
  (forall pre,
      (exists rest, path = ("/devices/pci" ++ rest)%string) ->
      before_slash 2 (advance 9 path) = Some pre ->
      strlen pre + 1 <= buf_sz ->
      find_pci_device_prefix path buf_sz = (0, Some pre))
  /\ ((~ exists rest, path = ("/devices/pci" ++ rest)%string) ->
      find_pci_device_prefix path buf_sz = (-1, None))
  /\ (before_slash 2 (advance 9 path) = None ->
      find_pci_device_prefix path buf_sz = (-1, None))
  /\ (forall pre,
         before_slash 2 (advance 9 path) = Some pre ->
         buf_sz < strlen pre + 1 ->
         find_pci_device_prefix path buf_sz = (-1, None)).
Proof.
  assert (Hnot : (~ exists rest, path = ("/devices/pci" ++ rest)%string) ->
                 find_pci_device_prefix path buf_sz = (-1, None)).
  { intros Hn. unfold find_pci_device_prefix.
    destruct (strncmp path "/devices/pci" 12 =? 0) eqn:E; [|reflexivity].
    exfalso. apply Hn. now apply (strncmp_prefix_eqb path "/devices/pci"). }
  assert (Hdec : (exists rest, path = ("/devices/pci" ++ rest)%string)
                 \/ ~ exists rest, path = ("/devices/pci" ++ rest)%string).
  { destruct (strncmp path "/devices/pci" 12 =? 0) eqn:E.
    - left. now apply (strncmp_prefix_eqb path "/devices/pci").
    - right. intros Hp.
      apply (strncmp_prefix_eqb path "/devices/pci") in Hp.
      change (String.length "/devices/pci") with 12%nat in Hp. congruence. }
  repeat split.
  - intros pre [rest ->] Hpre Hfit.
    rewrite find_pci_device_prefix_cases, Hpre.
    destruct (strlen pre + 1 >? buf_sz) eqn:E; [lia | reflexivity].
  - exact Hnot.
  - intros Hnone. destruct Hdec as [[rest ->] | Hn]; [|now apply Hnot].
    now rewrite find_pci_device_prefix_cases, Hnone.
  - intros pre Hpre Hsmall. destruct Hdec as [[rest ->] | Hn]; [|now apply Hnot].
    rewrite find_pci_device_prefix_cases, Hpre.
    destruct (strlen pre + 1 >? buf_sz) eqn:E; [reflexivity | lia].
Qed.

(** C7, as stated, fails: the result ends before the second slash after
    offset 9, not before the third. *)
Lemma find_pci_device_prefix_not_third_slash :
  let path := "/devices/pci0000:00/0000:00:1f.2/ata1/host0/block/sda" in
  before_slash 3 (advance 9 path) = Some "pci0000:00/0000:00:1f.2/ata1"
  /\ find_pci_device_prefix path 256 = (0, Some "pci0000:00/0000:00:1f.2")
  /\ find_pci_device_prefix path 256
     <> (0, before_slash 3 (advance 9 path)).
Proof. repeat split; vm_compute; discriminate. Qed.

(** ** Device names *)

Lemma strrchr_none (s : string) (c : ascii) :
  strchr s c = None -> strrchr s c = None.
Proof.
  induction s as [|x s IH]; simpl; [reflexivity|].
  destruct (Ascii.eqb x c); [discriminate|].
  intros Hs. now rewrite IH.
Qed.

Lemma strrchr_last (dir leaf : string) (c : ascii) :
  strchr leaf c = None ->
  strrchr (dir ++ String c leaf) c = Some (String c leaf).
Proof.
  intros Hleaf. induction dir as [|x dir IH]; simpl.
  - now rewrite (strrchr_none _ _ Hleaf), Ascii.eqb_refl.
  - now rewrite IH.
Qed.

(** [strrchr] splits a string at the last occurrence of the byte. *)
Lemma strrchr_split (s : string) (c : ascii) (p : string) :
  strrchr s c = Some p ->
  exists dir leaf, s = (dir ++ p)%string /\ p = String c leaf
                   /\ strchr leaf c = None.
Proof.
  revert p. induction s as [|x s IH]; simpl; [discriminate|].
  intros p. destruct (strrchr s c) as [q|] eqn:E.
  - intros Hp. inversion Hp; subst q.
    destruct (IH p eq_refl) as [dir [leaf [Hs [Hq Hl]]]].
    exists (String x dir), leaf. simpl. now rewrite Hs.
  - destruct (Ascii.eqb x c) eqn:Ex; [|discriminate].
    intros Hp. inversion Hp; subst p. apply Ascii.eqb_eq in Ex. subst x.
    exists "", s. repeat split.
    clear IH Hp. induction s as [|y s IHs]; simpl in *; [reflexivity|].
    destruct (strrchr s c); [discriminate|].
    destruct (Ascii.eqb y c); [discriminate|]. now apply IHs.
Qed.

Lemma parse_device_name_null (ue : uevent) :
  ue_major ue < 0 \/ ue_minor ue < 0
  \/ (exists path leaf,
        ue_path ue = Some path /\ leaf_of path leaf /\ 64 < strlen leaf) ->
  parse_device_name ue 64 = Some None.
Proof.
  unfold parse_device_name.
  destruct ((ue_major ue <? 0) || (ue_minor ue <? 0)) eqn:E; [reflexivity|].
  apply orb_false_iff in E. destruct E as [Emaj Emin].
  intros [Hneg | [Hneg | [path [leaf [Hpath [Hleaf Hlong]]]]]]; try lia.
  rewrite Hpath. destruct Hleaf as [[Hnone _] | [dir [-> Hl]]].
  - now rewrite (strrchr_none _ _ Hnone).
  - rewrite (strrchr_last _ _ _ Hl). simpl advance.
    destruct (strlen leaf >? 64) eqn:El; [reflexivity | lia].
Qed.

(** C10. When the major or the minor number of a uevent is negative, or
    the leaf name of its devpath is longer than 64 bytes,
    [parse_device_name] returns null, and the block handler and the
    generic handler both return without a single call: no device node
    is created, removed or relabelled. *)
Theorem handlers_return_on_null_device_name `{Ueventd_parser}
    (platform_names : list platform_node) (ue : uevent) :
  ue_major ue < 0 \/ ue_minor ue < 0
  \/ (exists path leaf,
        ue_path ue = Some path /\ leaf_of path leaf /\ 64 < strlen leaf) ->
  parse_device_name ue 64 = Some None
  /\ handle_block_device_event platform_names ue = Some []
  /\ handle_generic_device_event platform_names ue = Some [].
Proof.
  intros Hcase. apply parse_device_name_null in Hcase.
  unfold handle_block_device_event, handle_generic_device_event.
  now rewrite Hcase.
Qed.

(** ** The generic handler *)

Lemma strncpy_all (s : string) (n : nat) :
  (String.length s <= n)%nat -> strncpy s n = s.
Proof.
  revert n. induction s as [|c s IH]; intros [|n] Hn; simpl in *;
    try reflexivity; try lia.
  rewrite IH; [reflexivity | lia].
Qed.

Lemma strncpy_length (s : string) (n : nat) :
  (String.length (strncpy s n) <= n)%nat.
Proof.
  revert n. induction s as [|c s IH]; intros [|n]; simpl; try lia.
  specialize (IH n). lia.
Qed.

Lemma advance_length (n : nat) (s : string) :
  (String.length (advance n s) <= String.length s)%nat.
Proof.
  revert s. induction n as [|n IH]; intros [|c s]; simpl; try lia.
  specialize (IH s). lia.
Qed.

Lemma snprintf_fits (size : Z) (text : string) :
  strlen text < size -> fst (snprintf size text) = text.
Proof.
  intros Hfit. unfold snprintf, strlen in *. simpl.
  apply strncpy_all. lia.
Qed.

Lemma dec_digits_length (fuel : nat) (n : Z) (acc : string) :
  (String.length (dec_digits fuel n acc) <= fuel + String.length acc)%nat.
Proof.
  revert n acc. induction fuel as [|fuel IH]; intros n acc; simpl; [lia|].
  destruct (n / 10 =? 0); simpl; [lia|].
  specialize (IH (n / 10) (String (digit_char (n mod 10)) acc)).
  simpl in IH. lia.
Qed.

Lemma fmt_d_length (n : Z) : (String.length (fmt_d n) <= 11)%nat.
Proof.
  unfold fmt_d. destruct (n <? 0).
  - pose proof (dec_digits_length 10 (- n) ""). simpl in *. lia.
  - pose proof (dec_digits_length 10 n ""). simpl in *. lia.
Qed.

Lemma zeros_length (n : nat) : String.length (zeros n) = n.
Proof. induction n as [|n IH]; simpl; [reflexivity | now rewrite IH]. Qed.

Lemma fmt_03d_length (n : Z) : (String.length (fmt_03d n) <= 11)%nat.
Proof.
  unfold fmt_03d. rewrite length_append, zeros_length.
  pose proof (fmt_d_length n). lia.
Qed.

Lemma parse_device_name_some (ue : uevent) (len : Z) (name : string) :
  parse_device_name ue len = Some (Some name) ->
  strlen name <= len /\ 0 <= ue_major ue /\ 0 <= ue_minor ue.
Proof.
  unfold parse_device_name.
  destruct ((ue_major ue <? 0) || (ue_minor ue <? 0)) eqn:E; [discriminate|].
  apply orb_false_iff in E. destruct E as [Emaj Emin].
  destruct (ue_path ue) as [path|]; [|discriminate].
  destruct (strrchr path "/") as [p|]; [|discriminate].
  remember (advance 1 p) as leaf eqn:Hleaf.
  destruct (strlen leaf >? len) eqn:El; [discriminate|].
  intros [= <-]. lia.
Qed.

Lemma handle_device_node_paths (action devpath path : string)
    (block major minor : Z) (links : option (list string)) (p : string) :
  In p (node_paths (handle_device action devpath path block major minor links)) ->
  p = devpath.
Proof.
  unfold handle_device, node_paths. rewrite flat_map_app, in_app_iff.
  assert (Hmap : forall (f : string -> string -> call) ls,
             (forall a b, node_path (f a b) = [a]) ->
             In p (flat_map node_path (map (f devpath) ls)) -> p = devpath).
  { intros f ls Hf. induction ls as [|l ls IH]; simpl; [intros []|].
    rewrite Hf. simpl. intros [Hp | Hp]; [now symmetry | now apply IH]. }
  intros [Hadd | Hrem].
  - destruct (strcmp action "add" =? 0); [|destruct Hadd].
    simpl in Hadd. destruct Hadd as [Hp | Hp]; [now symmetry|].
    now apply (Hmap make_link_init (links_or_nil links)).
  - destruct (strcmp action "remove" =? 0); [|destruct Hrem].
    rewrite flat_map_app, in_app_iff in Hrem.
    destruct Hrem as [Hp | Hp].
    + now apply (Hmap remove_link (links_or_nil links)).
    + simpl in Hp. destruct Hp as [Hp | []]. now symmetry.
Qed.

Lemma get_character_device_symlinks_calls
    (platform_names : list platform_node) (ue : uevent)
    (links : option (list string)) (calls : list call) :
  get_character_device_symlinks platform_names ue = Some (links, calls) ->
  node_paths calls = [].
Proof.
  unfold get_character_device_symlinks.
  repeat match goal with
         | |- context [match ?x with _ => _ end] => destruct x
         end;
    intros Hs; inversion Hs; reflexivity.
Qed.

Section Generic_facts.
Context `{Ueventd_parser}.

(** The end of the handler names no device node but [devpath], or the
    base directory followed by the name while [devpath] is empty. *)
Lemma handle_generic_device_tail_paths
    (platform_names : list platform_node) (ue : uevent) (calls : list call)
    (devpath : string) (base : option string) (name text : string)
    (trace : list call) :
  handle_generic_device_tail platform_names ue calls devpath base name
  = Some trace ->
  node_paths calls = [] ->
  (if is_empty devpath then option_map (fun b => (b ++ name)%string) base
   else Some devpath) = Some text ->
  strlen text <= 95 ->
  forall p, In p (node_paths trace) -> p = text.
Proof.
  unfold handle_generic_device_tail. intros Htail Hcalls Htext Hlen p.
  destruct (get_character_device_symlinks platform_names ue)
    as [[links link_calls]|] eqn:Hsym; [|discriminate].
  apply get_character_device_symlinks_calls in Hsym.
  assert (Hd : (if is_empty devpath
                then base <- base ;; Some (fst (snprintf 96 (base ++ name)%string))
                else Some devpath) = Some text).
  { destruct (is_empty devpath); [|assumption].
    destruct base as [b|]; [|discriminate].
    simpl in Htext. inversion Htext; subst.
    rewrite snprintf_fits; [reflexivity | lia]. }
  rewrite Hd in Htail.
  destruct (ue_action ue) as [action|]; [|discriminate].
  destruct (ue_path ue) as [path|]; [|discriminate].
  inversion Htail; subst trace. unfold node_paths.
  rewrite !flat_map_app, !in_app_iff.
  fold (node_paths calls) (node_paths link_calls). rewrite Hcalls, Hsym.
  intros [[] | [[] | Hp]]. now apply handle_device_node_paths in Hp.
Qed.

Lemma is_empty_with_slash (a b : string) :
  is_empty (a ++ String "/" b) = false.
Proof. now destruct a. Qed.

Lemma mkdir_recursive_for_devpath_call (devpath : string) (c : call) :
  mkdir_recursive_for_devpath devpath = Some c -> node_paths [c] = [].
Proof.
  unfold mkdir_recursive_for_devpath.
  destruct (strrchr devpath "/"); [|discriminate].
  now intros [= <-].
Qed.

(** The route through [assemble_devpath]. *)
Lemma handle_generic_assembled
    (platform_names : list platform_node) (ue : uevent) (name : string)
    (dirname : string) (devname : option string) :
  let run :=
    let '(ok, devpath) := assemble_devpath dirname devname in
    if negb ok then Some []
    else
      c <- mkdir_recursive_for_devpath devpath ;;
      handle_generic_device_tail platform_names ue [c] devpath None name in
  let text := (dirname ++ "/" ++ fmt_s devname)%string in
  if 95 <? strlen text then run = Some []
  else forall trace, run = Some trace ->
       forall p, In p (node_paths trace) -> p = text.
Proof.
  unfold assemble_devpath, snprintf, DEVPATH_LEN. cbv zeta.
  set (text := (dirname ++ "/" ++ fmt_s devname)%string) in *.
  assert (Hpos : (strlen text <? 0) = false)
    by (apply Z.ltb_ge; unfold strlen; lia).
  rewrite Hpos.
  destruct (strlen text >=? 96) eqn:Elen; simpl negb; cbv iota.
  - destruct (95 <? strlen text) eqn:E; [reflexivity | lia].
  - destruct (95 <? strlen text) eqn:E; [lia|].
    intros trace Hrun.
    rewrite strncpy_all in Hrun by (unfold strlen in *; lia).
    destruct (mkdir_recursive_for_devpath text) as [c|] eqn:Hc; [|discriminate].
    apply mkdir_recursive_for_devpath_call in Hc.
    apply (handle_generic_device_tail_paths _ _ _ _ _ _ text _ Hrun Hc);
      [|lia].
    change text with (dirname ++ String "/" (fmt_s devname))%string.
    now rewrite is_empty_with_slash.
Qed.

(** The routes that only choose a base directory. *)
Lemma handle_generic_under
    (platform_names : list platform_node) (ue : uevent)
    (calls : list call) (base name : string) :
  node_paths calls = [] ->
  strlen base <= 31 -> strlen name <= 64 ->
  let run :=
    handle_generic_device_tail platform_names ue calls "" (Some base) name in
  if 95 <? strlen (base ++ name) then run = Some []
  else forall trace, run = Some trace ->
       forall p, In p (node_paths trace) -> p = (base ++ name)%string.
Proof.
  intros Hcalls Hbase Hname run.
  assert (Hlen : strlen (base ++ name) <= 95).
  { unfold strlen in *. rewrite length_append. lia. }
  destruct (95 <? strlen (base ++ name)) eqn:E; [lia|].
  intros trace Hrun.
  now apply (handle_generic_device_tail_paths _ _ _ _ _ _ _ _ Hrun Hcalls).
Qed.

(** The generic handler against its routing table. *)
Lemma handle_generic_device_event_route
    (platform_names : list platform_node) (ue : uevent)
    (name subsys : string) :
  parse_device_name ue 64 = Some (Some name) ->
  ue_subsystem ue = Some subsys ->
  match chosen_devpath ue name subsys with
  | None => handle_generic_device_event platform_names ue = Some []
  | Some text =>
      if 95 <? strlen text
      then handle_generic_device_event platform_names ue = Some []
      else forall trace,
          handle_generic_device_event platform_names ue = Some trace ->
          forall p, In p (node_paths trace) -> p = text
  end.
Proof.
  intros Hname Hsub. unfold handle_generic_device_event, chosen_devpath.
  rewrite Hname, Hsub. cbv zeta.
  apply parse_device_name_some in Hname. destruct Hname as [Hlen [Hmaj Hmin]].
  destruct (ueventd_subsystem_find_by_name subsys) as [subsystem|].
  { destruct (ss_devname_src subsystem).
    - reflexivity.
    - apply handle_generic_assembled.
    - apply (handle_generic_assembled _ _ _ _ (Some name)). }
  destruct (strncmp subsys "usb" 3 =? 0).
  { destruct ((strcmp subsys "usb" =? 0) || (strcmp subsys "usbmisc" =? 0));
      [|reflexivity].
    destruct (ue_device_name ue) as [device_name|].
    - apply (handle_generic_assembled _ _ _ "/dev" (Some device_name)).
    - set (text := ("/dev/bus/usb/" ++ fmt_03d (Z.quot (ue_minor ue) 128 + 1)
                    ++ "/" ++ fmt_03d (Z.rem (ue_minor ue) 128 + 1))%string)
        in *.
      assert (Htext : strlen text <= 95).
      { unfold text, strlen. rewrite !length_append.
        pose proof (fmt_03d_length (Z.quot (ue_minor ue) 128 + 1)).
        pose proof (fmt_03d_length (Z.rem (ue_minor ue) 128 + 1)).
        simpl String.length. lia. }
      destruct (95 <? strlen text) eqn:E; [lia|].
      intros trace Hrun.
      rewrite (snprintf_fits 96 text) in Hrun by lia.
      now apply (handle_generic_device_tail_paths _ _ _ _ _ _ text _ Hrun). }
  repeat match goal with
         | |- context [if strncmp subsys ?lit ?n =? 0 then _ else _] =>
             destruct (strncmp subsys lit n =? 0);
             [now apply handle_generic_under|]
         end.
  destruct ((strncmp subsys "misc" 4 =? 0) && (strncmp name "log_" 4 =? 0));
    apply handle_generic_under;
    try reflexivity; try (now vm_compute); try assumption.
  pose proof (advance_length 4 name). unfold strlen in *. lia.
Qed.

Lemma get_character_device_symlinks_returns
    (platform_names : list platform_node) (ue : uevent) :
  ue_path ue <> None -> ue_subsystem ue <> None ->
  exists r, get_character_device_symlinks platform_names ue = Some r.
Proof.
  intros Hpath Hsub. unfold get_character_device_symlinks.
  destruct (ue_path ue) as [path|]; [|contradiction].
  destruct (ue_subsystem ue) as [subsys|]; [|contradiction].
  repeat match goal with
         | |- context [match ?x with _ => _ end] => destruct x
         end; eauto.
Qed.

Lemma handle_generic_device_tail_returns
    (platform_names : list platform_node) (ue : uevent) (calls : list call)
    (devpath : string) (base : option string) (name : string) :
  ue_action ue <> None -> ue_path ue <> None -> ue_subsystem ue <> None ->
  (is_empty devpath = true -> base <> None) ->
  exists trace,
    handle_generic_device_tail platform_names ue calls devpath base name
    = Some trace.
Proof.
  intros Haction Hpath Hsub Hbase. unfold handle_generic_device_tail.
  destruct (get_character_device_symlinks_returns platform_names ue Hpath Hsub)
    as [[links link_calls] ->].
  destruct (ue_action ue) as [action|]; [|contradiction].
  destruct (ue_path ue) as [path|]; [|contradiction].
  destruct (is_empty devpath); [|eauto].
  destruct base as [base|]; [eauto | now contradiction Hbase].
Qed.

Lemma strrchr_with_slash (a b : string) :
  strrchr (a ++ String "/" b) "/" <> None.
Proof.
  induction a as [|x a IH]; simpl.
  - now destruct (strrchr b "/").
  - now destruct (strrchr (a ++ String "/" b) "/").
Qed.

Lemma handle_generic_assembled_returns
    (platform_names : list platform_node) (ue : uevent) (name : string)
    (dirname : string) (devname : option string) :
  ue_action ue <> None -> ue_path ue <> None -> ue_subsystem ue <> None ->
  exists trace,
    (let '(ok, devpath) := assemble_devpath dirname devname in
     if negb ok then Some []
     else
       c <- mkdir_recursive_for_devpath devpath ;;
       handle_generic_device_tail platform_names ue [c] devpath None name)
    = Some trace.
Proof.
  intros Haction Hpath Hsub.
  unfold assemble_devpath, snprintf, DEVPATH_LEN.
  change (dirname ++ "/" ++ fmt_s devname)%string
    with (dirname ++ String "/" (fmt_s devname))%string.
  set (text := (dirname ++ String "/" (fmt_s devname))%string).
  destruct (strlen text <? 0); simpl negb; cbv iota; [eauto|].
  destruct (strlen text >=? 96) eqn:Elen; simpl negb; cbv iota; [eauto|].
  rewrite strncpy_all by (unfold strlen in *; lia).
  unfold mkdir_recursive_for_devpath.
  pose proof (strrchr_with_slash dirname (fmt_s devname)) as Hslash.
  fold text in Hslash.
  destruct (strrchr text "/"); [|contradiction].
  apply handle_generic_device_tail_returns; auto.
  unfold text. now rewrite is_empty_with_slash.
Qed.

(** On an event with an action, a path and a subsystem, as the parser
    gives, the generic handler returns. *)
Lemma handle_generic_device_event_returns
    (platform_names : list platform_node) (ue : uevent) :
  ue_action ue <> None -> ue_path ue <> None -> ue_subsystem ue <> None ->
  exists trace, handle_generic_device_event platform_names ue = Some trace.
Proof.
  intros Haction Hpath Hsub. unfold handle_generic_device_event.
  assert (Hname : exists n, parse_device_name ue 64 = Some n).
  { unfold parse_device_name.
    destruct (ue_path ue) as [path|]; [|contradiction].
    repeat match goal with
           | |- context [match ?x with _ => _ end] => destruct x
           end; eauto. }
  destruct Hname as [[name|] ->]; [|eauto].
  destruct (ue_subsystem ue) as [subsys|] eqn:Esub; [|contradiction].
  cbv zeta.
  assert (Hs : ue_subsystem ue <> None) by congruence.
  destruct (ueventd_subsystem_find_by_name subsys) as [subsystem|].
  { destruct (ss_devname_src subsystem); [eauto | |];
      now apply handle_generic_assembled_returns. }
  destruct (strncmp subsys "usb" 3 =? 0).
  { destruct ((strcmp subsys "usb" =? 0) || (strcmp subsys "usbmisc" =? 0));
      [|eauto].
    destruct (ue_device_name ue) as [device_name|].
    - now apply handle_generic_assembled_returns.
    - apply handle_generic_device_tail_returns; auto. discriminate. }
  repeat match goal with
         | |- context [if ?c then _ else _] => destruct c
         end;
    apply handle_generic_device_tail_returns; auto; discriminate.
Qed.

(** C8. The device node path the generic handler assembles is at most
    95 bytes long and is the chosen base directory followed by the
    device name in full; whenever that text is longer than 95 bytes the
    handler returns without a single call, so that no device node is
    created, removed or relabelled.  On an event with an action, a
    path and a subsystem the handler does return. *)
Theorem generic_devpath_within_limit
    (platform_names : list platform_node) (ue : uevent) :
  (forall trace,
      handle_generic_device_event platform_names ue = Some trace ->
      forall p, In p (node_paths trace) -> strlen p <= 95)
  /\ (forall name subsys text,
         parse_device_name ue 64 = Some (Some name) ->
         ue_subsystem ue = Some subsys ->
         chosen_devpath ue name subsys = Some text ->
         (95 < strlen text ->
          handle_generic_device_event platform_names ue = Some [])
         /\ (forall trace,
                handle_generic_device_event platform_names ue = Some trace ->
                forall p, In p (node_paths trace) -> p = text))
  /\ (ue_action ue <> None -> ue_path ue <> None -> ue_subsystem ue <> None ->
      exists trace,
        handle_generic_device_event platform_names ue = Some trace).
Proof.
  assert (Hroute : forall name subsys text,
             parse_device_name ue 64 = Some (Some name) ->
             ue_subsystem ue = Some subsys ->
             chosen_devpath ue name subsys = Some text ->
             (95 < strlen text ->
              handle_generic_device_event platform_names ue = Some [])
             /\ (forall trace,
                    handle_generic_device_event platform_names ue = Some trace ->
                    forall p, In p (node_paths trace) ->
                              p = text /\ strlen p <= 95)).
  { intros name subsys text Hname Hsub Htext.
    pose proof (handle_generic_device_event_route platform_names _ _ _
                  Hname Hsub) as Hr.
    rewrite Htext in Hr.
    destruct (95 <? strlen text) eqn:E.
    - split; [auto|]. intros trace Hrun p Hp.
      rewrite Hr in Hrun. injection Hrun as <-. destruct Hp.
    - split; [lia|]. intros trace Hrun p Hp.
      rewrite (Hr trace Hrun p Hp). split; [reflexivity | lia]. }
  split; [|split].
  - intros trace Hrun p Hp.
    destruct (parse_device_name ue 64) as [[name|]|] eqn:Hname.
    + destruct (ue_subsystem ue) as [subsys|] eqn:Hsub.
      * pose proof (handle_generic_device_event_route platform_names _ _ _
                      Hname Hsub) as Hr.
        destruct (chosen_devpath ue name subsys) as [text|] eqn:Htext.
        -- now apply (proj2 (Hroute name subsys text eq_refl eq_refl Htext)
                        trace Hrun).
        -- rewrite Hr in Hrun. injection Hrun as <-. destruct Hp.
      * unfold handle_generic_device_event in Hrun.
        rewrite Hname, Hsub in Hrun. discriminate.
    + unfold handle_generic_device_event in Hrun. rewrite Hname in Hrun.
      injection Hrun as <-. destruct Hp.
    + unfold handle_generic_device_event in Hrun. rewrite Hname in Hrun.
      discriminate.
  - intros name subsys text Hname Hsub Htext.
    destruct (Hroute name subsys text Hname Hsub Htext) as [Ha Hb].
    split; [assumption|].
    intros trace Hrun p Hp. now apply (proj1 (Hb trace Hrun p Hp)).
  - apply handle_generic_device_event_returns.
Qed.

End Generic_facts.

(** ** Links of a block device *)

(** C5, as the code has it.  For a block uevent whose devpath has a
    platform parent (type platform, device the entry's name) or, failing
    that, a PCI prefix (type pci), and whose base directory
    /dev/block/<type>/<device> is at most 255 bytes long, the links are,
    in this order: <base>/by-name/<sanitized PARTNAME> when PARTNAME is
    present, <base>/by-num/p<PARTN> when PARTN >= 0, and always
    <base>/<leaf of the devpath>; there are no other links, and no links
    at all when neither kind of parent matches. *)
Theorem block_device_symlinks_in_order
    (platform_names : list platform_node) (ue : uevent) (path : string) :
  ue_path ue = Some path ->
  (forall type device dir leaf,
      block_parent platform_names path type device ->
      path = (dir ++ String "/" leaf)%string -> strchr leaf "/" = None ->
      let base := ("/dev/block/" ++ type ++ "/" ++ device)%string in
      strlen base <= 255 ->
      get_block_device_symlinks platform_names ue
      = Some (Some (by_name_link base ue ++ by_num_link base ue
                    ++ [(base ++ "/" ++ leaf)%string])))
  /\ (find_platform_device platform_names path = None ->
      fst (find_pci_device_prefix path 256) <> 0 ->
      get_block_device_symlinks platform_names ue = Some None).
Proof.
  intros Hpath. split.
  - intros type device dir leaf Hparent Hsplit Hleaf base Hfit.
    unfold get_block_device_symlinks. rewrite Hpath.
    assert (Hp : match find_platform_device platform_names path with
                 | Some pdev => Some (bus_name pdev, "platform")
                 | None =>
                     match find_pci_device_prefix path 256 with
                     | (0, Some buf) => Some (buf, "pci")
                     | _ => None
                     end
                 end = Some (device, type)).
    { destruct Hparent as [[pdev [Hfind [-> ->]]] | [Hfind [Hpci ->]]];
        rewrite Hfind; [reflexivity | now rewrite Hpci]. }
    rewrite Hp. fold base.
    rewrite (snprintf_fits 256 base) by lia.
    rewrite Hsplit, (strrchr_last _ _ _ Hleaf). simpl advance.
    unfold by_name_link, by_num_link. rewrite Z.geb_leb.
    destruct (ue_partition_name ue), (0 <=? ue_partition_num ue); reflexivity.
  - intros Hfind Hpci. unfold get_block_device_symlinks.
    rewrite Hpath, Hfind.
    destruct (find_pci_device_prefix path 256) as [ret buf]. simpl in Hpci.
    destruct ret; try reflexivity; contradiction.
Qed.

(** C5, as stated, fails: a base directory longer than 255 bytes is cut
    to its first 255 bytes before the links are formatted. *)
Lemma block_device_symlinks_cut_base :
  let device := zeros 240 in
  let parent := ("/devices/platform/" ++ device)%string in
  let platform_names := add_platform_device [] parent in
  let ue := {| ue_action := Some "add";
               ue_path := Some (parent ++ "/sda")%string;
               ue_subsystem := Some "block"; ue_firmware := Some "";
               ue_partition_name := None; ue_device_name := None;
               ue_modalias := None; ue_partition_num := -1;
               ue_major := 8; ue_minor := 0 |} in
  option_map bus_name (find_platform_device platform_names (parent ++ "/sda"))
  = Some device
  /\ get_block_device_symlinks platform_names ue
     = Some (Some [("/dev/block/platform/" ++ zeros 235 ++ "/sda")%string])
  /\ get_block_device_symlinks platform_names ue
     <> Some (Some [("/dev/block/platform/" ++ device ++ "/sda")%string]).
Proof. repeat split; vm_compute; discriminate. Qed.

(** ** The uevent parser *)

Lemma cstr_past_tag (msg : list ascii) (tag v : string) :
  cstr msg = (tag ++ v)%string ->
  cstr (skipn (String.length tag) msg) = v
  /\ skip_record (skipn (String.length tag) msg) = skip_record msg.
Proof.
  revert msg. induction tag as [|t tag IH]; intros msg Hc; simpl in *.
  - auto.
  - destruct msg as [|c msg]; simpl in Hc; [discriminate|].
    simpl skip_record. destruct (is_nul c); [discriminate|].
    inversion Hc; subst. now apply IH.
Qed.

Lemma advance_past_tag (tag v : string) :
  advance (String.length tag) (tag ++ v) = v.
Proof. apply advance_append. Qed.

Lemma skip_record_padded_bytes (bytes : list ascii) :
  exists next,
    skip_record (bytes ++ [zero; zero]) = Some next
    /\ padded next
    /\ (List.length next <= List.length bytes + 1)%nat.
Proof.
  induction bytes as [|b bytes IH]; simpl.
  - exists [zero]. repeat split; [now left | simpl; lia].
  - destruct (is_nul b).
    + exists (bytes ++ [zero; zero]). repeat split.
      * right. now exists bytes.
      * rewrite length_app. simpl. lia.
    + destruct IH as [next [Hs [Hp Hl]]]. exists next. repeat split; auto.
Qed.

(** The loop that skips a record stays inside a padded message and
    leaves a padded message. *)
Lemma skip_record_padded (c : ascii) (rest : list ascii) :
  padded (c :: rest) -> is_nul c = false ->
  exists next,
    skip_record (c :: rest) = Some next
    /\ padded next
    /\ (List.length next < List.length (c :: rest))%nat.
Proof.
  intros [Hone | [bytes Hb]] Hc.
  - inversion Hone; subst. discriminate.
  - destruct bytes as [|b bytes]; simpl in Hb.
    + inversion Hb; subst. discriminate.
    + inversion Hb; subst b rest. simpl skip_record. rewrite Hc.
      destruct (skip_record_padded_bytes bytes) as [next [Hs [Hp Hl]]].
      exists next. repeat split; auto.
      simpl. rewrite length_app. simpl. lia.
Qed.

Lemma fields_next (msg next : list ascii) :
  skip_record msg = Some next -> fields msg = cstr msg :: fields next.
Proof.
  revert next. induction msg as [|c msg IH]; intros next; simpl;
    [discriminate|].
  destruct (is_nul c).
  - now intros [= ->].
  - intros Hs. now rewrite (IH next Hs).
Qed.

Lemma records_next (c : ascii) (rest next : list ascii) :
  is_nul c = false -> skip_record (c :: rest) = Some next ->
  records (c :: rest) = cstr (c :: rest) :: records next.
Proof.
  intros Hc Hs. unfold records. rewrite (fields_next _ _ Hs).
  simpl. now rewrite Hc.
Qed.

Lemma records_end (c : ascii) (rest : list ascii) :
  is_nul c = true -> records (c :: rest) = [].
Proof. intros Hc. unfold records. simpl. now rewrite Hc. Qed.

Lemma last_value_none (tag : string) (recs : list string) :
  last_value tag recs = None
  <-> forall r, In r recs -> tag_value tag r = None.
Proof.
  unfold last_value.
  assert (Hgen : forall recs found,
             fold_left (fun found r =>
                          match tag_value tag r with
                          | Some v => Some v
                          | None => found
                          end) recs found = None
             <-> found = None /\ forall r, In r recs -> tag_value tag r = None).
  { clear recs. induction recs as [|r recs IH]; intros found; simpl.
    - split; [intros ->; split; [reflexivity | intros r []] | now intros [-> _]].
    - rewrite IH. destruct (tag_value tag r) eqn:E.
      + split; [intros [Hc _]; discriminate|].
        intros [_ Hall]. specialize (Hall r (or_introl eq_refl)). congruence.
      + split; intros [Hf Hall]; split; auto.
        intros r' [<- | Hin]; auto. }
  rewrite Hgen. split; [now intros [_ Hall] | auto].
Qed.

Section Parser_facts.
Context `{Libc}.

(** One turn of the tag chain reads the record at [msg] and leaves the
    pointer inside that record. *)
Lemma parse_tag_record (msg : list ascii) (ue : uevent) :
  snd (parse_tag msg ue) = record_update ue (cstr msg)
  /\ skip_record (fst (parse_tag msg ue)) = skip_record msg.
Proof.
  unfold parse_tag, record_update. destruct ue. cbv zeta beta.
  repeat match goal with
         | |- context [if strncmp (cstr msg) ?tag ?n =? 0 then _ else _] =>
             let E := fresh "E" in
             destruct (strncmp (cstr msg) tag n =? 0) eqn:E;
             [apply (strncmp_prefix_eqb (cstr msg) tag) in E;
              destruct E as [v Hv];
              destruct (cstr_past_tag msg tag v Hv) as [Hc Hs];
              cbn [fst snd]; rewrite Hc, Hs, Hv, advance_past_tag;
              split; reflexivity
             | clear E]
         end.
  split; reflexivity.
Qed.

(** What a record does to each field of the event. *)
Ltac field_of_record tag :=
  intros ue r; unfold tag_value;
  destruct (strncmp r tag (String.length tag) =? 0) eqn:E;
  [ apply (strncmp_prefix_eqb r tag) in E; destruct E as [v ->];
    destruct ue; reflexivity
  | unfold record_update; destruct ue; cbv zeta beta; rewrite E;
    repeat match goal with
           | |- context [if ?c then _ else _] => destruct c
           end; reflexivity ].

Lemma record_update_action : forall ue r,
  ue_action (record_update ue r)
  = match tag_value "ACTION=" r with Some v => Some v | None => ue_action ue end.
Proof. field_of_record "ACTION=". Qed.

Lemma record_update_path : forall ue r,
  ue_path (record_update ue r)
  = match tag_value "DEVPATH=" r with Some v => Some v | None => ue_path ue end.
Proof. field_of_record "DEVPATH=". Qed.

Lemma record_update_subsystem : forall ue r,
  ue_subsystem (record_update ue r)
  = match tag_value "SUBSYSTEM=" r with
    | Some v => Some v
    | None => ue_subsystem ue
    end.
Proof. field_of_record "SUBSYSTEM=". Qed.

Lemma record_update_firmware : forall ue r,
  ue_firmware (record_update ue r)
  = match tag_value "FIRMWARE=" r with
    | Some v => Some v
    | None => ue_firmware ue
    end.
Proof. field_of_record "FIRMWARE=". Qed.

Lemma record_update_major : forall ue r,
  ue_major (record_update ue r)
  = match tag_value "MAJOR=" r with Some v => atoi v | None => ue_major ue end.
Proof. field_of_record "MAJOR=". Qed.

Lemma record_update_minor : forall ue r,
  ue_minor (record_update ue r)
  = match tag_value "MINOR=" r with Some v => atoi v | None => ue_minor ue end.
Proof. field_of_record "MINOR=". Qed.

Lemma record_update_partition_num : forall ue r,
  ue_partition_num (record_update ue r)
  = match tag_value "PARTN=" r with
    | Some v => atoi v
    | None => ue_partition_num ue
    end.
Proof. field_of_record "PARTN=". Qed.

Lemma record_update_partition_name : forall ue r,
  ue_partition_name (record_update ue r)
  = match tag_value "PARTNAME=" r with
    | Some v => Some v
    | None => ue_partition_name ue
    end.
Proof. field_of_record "PARTNAME=". Qed.

Lemma record_update_device_name : forall ue r,
  ue_device_name (record_update ue r)
  = match tag_value "DEVNAME=" r with
    | Some v => Some v
    | None => ue_device_name ue
    end.
Proof. field_of_record "DEVNAME=". Qed.

Lemma record_update_modalias : forall ue r,
  ue_modalias (record_update ue r)
  = match tag_value "MODALIAS=" r with
    | Some v => Some v
    | None => ue_modalias ue
    end.
Proof. field_of_record "MODALIAS=". Qed.

(** A field after all the records: the value of the last record with
    its tag, or what the field held before. *)
Lemma fold_record_update {A : Type} (proj : uevent -> A) (conv : string -> A)
    (tag : string) :
  (forall ue r,
      proj (record_update ue r)
      = match tag_value tag r with Some v => conv v | None => proj ue end) ->
  forall recs ue,
    proj (fold_left record_update recs ue)
    = match last_value tag recs with Some v => conv v | None => proj ue end.
Proof.
  intros Hstep recs ue. unfold last_value.
  assert (Hgen : forall recs ue found d,
             proj ue = match found with Some v => conv v | None => d end ->
             proj (fold_left record_update recs ue)
             = match fold_left (fun found r =>
                                  match tag_value tag r with
                                  | Some v => Some v
                                  | None => found
                                  end) recs found with
               | Some v => conv v
               | None => d
               end).
  { clear recs ue. induction recs as [|r recs IH]; intros ue found d Hinv;
      simpl; [assumption|].
    apply IH. rewrite Hstep. now destruct (tag_value tag r). }
  now apply Hgen.
Qed.

(** The loop over the records applies them in order and ends. *)
Lemma parse_event_loop_records (turns : nat) :
  forall msg ue,
    (List.length msg < turns)%nat -> padded msg ->
    parse_event_loop turns msg ue
    = Some (fold_left record_update (records msg) ue).
Proof.
  induction turns as [|turns IH]; intros msg ue Hlen Hpad; [lia|].
  destruct msg as [|c rest].
  { destruct Hpad as [Hc | [bytes Hc]]; [discriminate|].
    now destruct bytes. }
  simpl parse_event_loop. destruct (is_nul c) eqn:Hc.
  - now rewrite (records_end _ _ Hc).
  - destruct (skip_record_padded c rest Hpad Hc) as [next [Hs [Hp Hl]]].
    destruct (parse_tag_record (c :: rest) ue) as [Hue Hskip].
    destruct (parse_tag (c :: rest) ue) as [msg' ue'].
    simpl fst in Hskip. simpl snd in Hue. rewrite Hskip, Hs.
    rewrite (records_next _ _ _ Hc Hs), Hue.
    apply (IH next (record_update ue (cstr (c :: rest))));
      [simpl in *; lia | assumption].
Qed.

(** C9. On a message followed by its two terminators the parser
    returns an event in which action, path, subsystem and firmware are
    not null: each holds the value of the last record with its tag, and
    the empty string when there is none; partition_name, device_name
    and modalias are null exactly when no record has their tag; major,
    minor and partition_num are -1 when no record has their tag and
    otherwise [atoi] of the value. *)
Theorem parse_event_fields (bytes : list ascii) :
  let msg := bytes ++ [zero; zero] in
  let value tag := last_value tag (records msg) in
  exists ue,
    parse_event msg = Some ue
    /\ ue_action ue = Some (or_empty (value "ACTION="))
    /\ ue_path ue = Some (or_empty (value "DEVPATH="))
    /\ ue_subsystem ue = Some (or_empty (value "SUBSYSTEM="))
    /\ ue_firmware ue = Some (or_empty (value "FIRMWARE="))
    /\ ue_partition_name ue = value "PARTNAME="
    /\ ue_device_name ue = value "DEVNAME="
    /\ ue_modalias ue = value "MODALIAS="
    /\ ue_major ue = number_or (-1) (value "MAJOR=")
    /\ ue_minor ue = number_or (-1) (value "MINOR=")
    /\ ue_partition_num ue = number_or (-1) (value "PARTN=")
    /\ (forall tag, value tag = None
                    <-> forall r, In r (records msg) -> tag_value tag r = None).
Proof.
  intros msg value. unfold parse_event.
  rewrite parse_event_loop_records; [|lia | right; now exists bytes].
  eexists. split; [reflexivity|]. unfold value.
  rewrite (fold_record_update ue_action Some "ACTION=" record_update_action).
  rewrite (fold_record_update ue_path Some "DEVPATH=" record_update_path).
  rewrite (fold_record_update ue_subsystem Some "SUBSYSTEM="
             record_update_subsystem).
  rewrite (fold_record_update ue_firmware Some "FIRMWARE="
             record_update_firmware).
  rewrite (fold_record_update ue_partition_name Some "PARTNAME="
             record_update_partition_name).
  rewrite (fold_record_update ue_device_name Some "DEVNAME="
             record_update_device_name).
  rewrite (fold_record_update ue_modalias Some "MODALIAS="
             record_update_modalias).
  rewrite (fold_record_update ue_major atoi "MAJOR=" record_update_major).
  rewrite (fold_record_update ue_minor atoi "MINOR=" record_update_minor).
  rewrite (fold_record_update ue_partition_num atoi "PARTN="
             record_update_partition_num).
  simpl. unfold number_or, or_empty.
  repeat split;
    try (match goal with
         | |- context [last_value ?tag ?recs] =>
             now destruct (last_value tag recs)
         end);
    now apply last_value_none.
Qed.

End Parser_facts.

(** ** Module loading *)

Lemma is_module_blacklisted_first (blacklist : list module_blacklist_node)
    (name : string) (b : module_blacklist_node) (need_deferred : bool) :
  first_blacklist_entry blacklist name b ->
  is_module_blacklisted_or_deferred_scan blacklist name need_deferred
  = if blk_deferred b then (if need_deferred then 2 else 0) else 1.
Proof.
  intros [before [after [-> [Hname Hbefore]]]].
  induction before as [|x before IH]; simpl.
  - rewrite <- Hname, strcmp_refl. reflexivity.
  - destruct (strcmp name (blk_name x) =? 0) eqn:E.
    + apply strcmp_eqb in E. exfalso. apply (Hbefore x); [now left | auto].
    + apply IH. intros y Hy. apply Hbefore. now right.
Qed.

Section Module_facts.
Context `{Libc} `{Probe_module}.

Lemma load_module_loop_calls (aliases : list module_alias_node)
    (blacklist : list module_blacklist_node) (id : string)
    (need_deferred : bool) (name : string) :
  is_module_blacklisted_or_deferred_scan blacklist name need_deferred <> 0 ->
  forall ret calls,
  exists new,
    snd (load_module_by_device_modalias_loop aliases blacklist id
           need_deferred ret calls) = calls ++ new
    /\ ~ In name new.
Proof.
  intros Hblk. induction aliases as [|alias aliases IH]; intros ret calls.
  - exists []. simpl. rewrite app_nil_r. auto.
  - simpl. destruct (alias_name alias) as [n|]; [|apply IH].
    destruct (alias_pattern alias) as [pattern|]; [|apply IH].
    destruct (fnmatch pattern id 0 =? 0); [|apply IH].
    destruct (is_module_blacklisted_or_deferred_scan blacklist n need_deferred
              =? 0) eqn:E; [|apply IH].
    destruct (IH (insmod_by_dep calls n) (calls ++ [n])) as [new [Hnew Hnot]].
    exists (n :: new). split.
    + rewrite Hnew, <- app_assoc. reflexivity.
    + intros [-> | Hin]; [|contradiction].
      apply Z.eqb_eq in E. contradiction.
Qed.

(** C2, as the code has it.  When the first blacklist entry for a
    module name has deferred=false, [load_module_by_device_modalias]
    never passes that name to insmod, whatever the modalias, the alias
    table and the need_deferred flag are. *)
Theorem blacklisted_module_never_loaded (aliases : list module_alias_node)
    (blacklist : list module_blacklist_node) (id name : string)
    (need_deferred : bool) (b : module_blacklist_node)
    (calls : list string) :
  first_blacklist_entry blacklist name b ->
  blk_deferred b = false ->
  exists new,
    snd (load_module_by_device_modalias aliases blacklist id need_deferred
           calls) = calls ++ new
    /\ ~ In name new.
Proof.
  intros Hfirst Hdef. unfold load_module_by_device_modalias.
  apply load_module_loop_calls.
  rewrite (is_module_blacklisted_first _ _ _ _ Hfirst), Hdef. discriminate.
Qed.

(** [handle_module_loading] only ever appends to the deferred queue. *)
Lemma handle_module_loading_queue (env : module_env) (st : modules)
    (modalias : option string) :
  exists added,
    deferred_module_loading_list (handle_module_loading env st modalias)
    = deferred_module_loading_list st ++ added.
Proof.
  unfold handle_module_loading.
  set (st1 := if list_empty (modules_aliases_map st) then _ else st).
  assert (Hq : deferred_module_loading_list st1
               = deferred_module_loading_list st).
  { unfold st1, read_modules_aliases, read_modules_blacklist.
    destruct (list_empty (modules_aliases_map st)); [|reflexivity].
    destruct (env_modules_alias env); [|reflexivity].
    destruct (env_modules_blacklist env); reflexivity. }
  destruct modalias as [modalias|].
  - destruct (list_empty (modules_aliases_map st1)).
    + eexists. simpl. now rewrite Hq.
    + destruct (load_module_by_device_modalias _ _ _ _ _) as [ret calls].
      destruct (ret =? 2); simpl; rewrite Hq; eexists;
        [reflexivity | now rewrite app_nil_r].
  - exists []. now rewrite app_nil_r.
Qed.

End Module_facts.

(** C2, as stated, fails: with the lines "deferred foo" and
    "blacklist foo" in modules.blacklist, in this order, the name foo is
    in the blacklist with deferred=false and is still passed to insmod
    once booting is over. *)
Lemma blacklisted_module_loaded_after_deferred_entry :
  let env := {| env_modules_alias :=
                  Some [T_TEXT "alias"; T_TEXT "pci:*"; T_TEXT "foo";
                        T_NEWLINE];
                env_modules_blacklist :=
                  Some [T_TEXT "deferred"; T_TEXT "foo"; T_NEWLINE;
                        T_TEXT "blacklist"; T_TEXT "foo"; T_NEWLINE];
                env_is_booting := false |} in
  let st0 := {| modules_aliases_map := []; modules_blacklist := [];
                deferred_module_loading_list := []; insmod_calls := [] |} in
  let st := @handle_module_loading sample_libc sample_probe_module env st0
              (Some "pci:v00008086") in
  In {| blk_name := "foo"; blk_deferred := false |} (modules_blacklist st)
  /\ modules_aliases_map st
     = [{| alias_name := Some "foo"; alias_pattern := Some "pci:*" |}]
  /\ insmod_calls st = ["foo"].
Proof. vm_compute. repeat split. right. now left. Qed.

(** C3 fails on the code: with the alias table empty and modules.alias
    readable, [handle_module_loading] reads both files and returns with
    the deferred queue as it was, without a load attempt for the queued
    modalias. *)
Theorem handle_module_loading_leaves_queue :
  let env := {| env_modules_alias :=
                  Some [T_TEXT "alias"; T_TEXT "acpi:PNP0A*";
                        T_TEXT "pcihost"; T_NEWLINE];
                env_modules_blacklist := Some [];
                env_is_booting := false |} in
  let queued := {| alias_name := None; alias_pattern := Some "acpi:PNP0A03" |} in
  let st0 := {| modules_aliases_map := []; modules_blacklist := [];
                deferred_module_loading_list := [queued];
                insmod_calls := [] |} in
  let st := @handle_module_loading sample_libc sample_probe_module env st0
              None in
  modules_aliases_map st
  = [{| alias_name := Some "pcihost"; alias_pattern := Some "acpi:PNP0A*" |}]
  /\ deferred_module_loading_list st = [queued]
  /\ insmod_calls st = []
  /\ insmod_calls (@handle_deferred_module_loading sample_libc
                     sample_probe_module st) = ["pcihost"].
Proof. vm_compute. repeat split. Qed.

(** ** Firmware *)

Lemma load_firmware_loop_status (reads : list read_result) :
  forall len_to_copy,
    fst (load_firmware_loop reads len_to_copy) = 0
    \/ fst (load_firmware_loop reads len_to_copy) = -1.
Proof.
  induction reads as [|r reads IH]; intros len; simpl;
    destruct (len >? 0); auto.
  destruct r as [| |nr written]; auto.
  destruct written; auto.
  specialize (IH (len - Z.pos nr)).
  destruct (load_firmware_loop reads (len - Z.pos nr)). assumption.
Qed.

Lemma last_loading_write_end (writes : list fw_write) (bytes : string) :
  last_loading_write (writes ++ [write_loading bytes]) = Some bytes.
Proof. induction writes as [|w writes IH]; simpl; [|rewrite IH]; reflexivity. Qed.

(** Once [fstat] has succeeded, the copy ends with "0" written to the
    loading file when it returns 0 and with "-1" when it returns -1. *)
Lemma load_firmware_last_write (fw : fw_file) (st_size : Z) :
  fw_fstat fw = Some st_size ->
  (fst (load_firmware fw) = 0
   /\ last_loading_write (snd (load_firmware fw)) = Some "0")
  \/ (fst (load_firmware fw) = -1
      /\ last_loading_write (snd (load_firmware fw)) = Some "-1").
Proof.
  intros Hstat. unfold load_firmware. rewrite Hstat.
  pose proof (load_firmware_loop_status (fw_reads fw) st_size) as Hret.
  destruct (load_firmware_loop (fw_reads fw) st_size) as [ret writes].
  simpl in Hret. simpl fst. simpl snd.
  destruct Hret as [-> | ->]; [left | right]; (split; [reflexivity|]);
    apply (last_loading_write_end (write_loading "1" :: writes)).
Qed.

(** A firmware file that is not found while the system is not booting
    has "-1" written to the loading file. *)
Lemma firmware_not_found_last_write (searches : nat) (n : nat) (x86 : bool)
    (env : fw_env) (firmware : string) :
  search_firmware_dirs (firmware_dirs x86) (fw_open env n) firmware = None ->
  try_loading_again (S searches) n false x86 env firmware
  = Some [write_loading "-1"].
Proof. intros Hnone. simpl. now rewrite Hnone. Qed.

(** A firmware file that opens in one of the directories is copied at
    once, whatever the booting state. *)
Lemma firmware_found_writes (searches : nat) (n : nat) (booting x86 : bool)
    (env : fw_env) (firmware : string) (ret : Z) (writes : list fw_write) :
  search_firmware_dirs (firmware_dirs x86) (fw_open env n) firmware
  = Some (ret, writes) ->
  try_loading_again (S searches) n booting x86 env firmware = Some writes.
Proof. intros Hfound. simpl. now rewrite Hfound. Qed.

(** C6 fails on the code: when [fstat] of the firmware file fails,
    the copy fails and nothing is written to the loading file. *)
Theorem firmware_fstat_failure_writes_nothing :
  let fw := {| fw_fstat := None; fw_reads := [] |} in
  let env := {| fw_open_loading := fun _ => true;
                fw_open_data := fun _ => true;
                fw_open := fun _ file =>
                  if String.eqb file "/system/lib/firmware/foo.bin"
                  then Some fw else None;
                fw_is_booting := fun _ => false |} in
  let ue := {| ue_action := Some "add";
               ue_path := Some "/devices/pci0000:00/0000:00:1c.0/firmware/foo";
               ue_subsystem := Some "firmware";
               ue_firmware := Some "foo.bin";
               ue_partition_name := None; ue_device_name := None;
               ue_modalias := None; ue_partition_num := -1;
               ue_major := -1; ue_minor := -1 |} in
  fst (load_firmware fw) = -1
  /\ handle_firmware_event 1 true env ue = Some []
  /\ option_map last_loading_write (handle_firmware_event 1 true env ue)
     <> Some (Some "-1").
Proof. vm_compute. repeat split. discriminate. Qed.

(** * Worked examples

    The statements above, applied to concrete rules, events and
    tables, with the concrete C library. *)

Lemma get_device_perm_first_match_witness :
  @get_device_perm sample_libc input_rules "/dev/input/event0" None
  = (432, 0, 1004)
  /\ @get_device_perm sample_libc input_rules "/dev/zero"
       (Some ["/dev/block/zero"]) = (384, 0, 0).
Proof.
  split.
  - apply (proj1 (@get_device_perm_first_match sample_libc input_rules
                    "/dev/input/event0" None)
             []
             {| dp_name := "/dev/input/*"; dp_attr := None; dp_perm := 432;
                dp_uid := 0; dp_gid := 1004; dp_prefix := 0;
                dp_wildcard := 1 |}
             [ {| dp_name := "/dev/null"; dp_attr := None; dp_perm := 438;
                  dp_uid := 0; dp_gid := 0; dp_prefix := 0;
                  dp_wildcard := 0 |} ]).
    + reflexivity.
    + intros r [].
    + left. reflexivity.
  - apply (proj1 (proj2 (@get_device_perm_first_match sample_libc input_rules
                           "/dev/zero" (Some ["/dev/block/zero"])))).
    intros r Hin [Hm | [ls [l [Hs [Hl Hm]]]]].
    + destruct Hin as [<- | [<- | []]]; vm_compute in Hm; discriminate.
    + injection Hs as <-. destruct Hl as [<- | []].
      destruct Hin as [<- | [<- | []]]; vm_compute in Hm; discriminate.
Defined.

Lemma platform_registry_distinct_paths_witness :
  NoDup (stored_paths
           [ {| bus_name := "soc.1"; bus_path := "/devices/platform/soc.1";
                bus_path_len := 23 |} ]).
Proof.
  apply (platform_registry_distinct_paths []
           [ platform_event "add" "/devices/platform/soc.0";
             platform_event "add" "/devices/platform/soc.1";
             platform_event "remove" "/devices/platform/soc.0" ]).
  - constructor.
  - simpl. split; [intros path _ _ [] |].
    intros names1 Hn. vm_compute in Hn. injection Hn as <-.
    split; [intros path _ Hp [Hq | []]; injection Hp as <-; discriminate |].
    intros names2 Hn. vm_compute in Hn. injection Hn as <-.
    split; [intros path Ha; discriminate |].
    intros names3 _. exact I.
  - reflexivity.
Defined.

Lemma find_pci_device_prefix_second_slash_witness :
  find_pci_device_prefix "/devices/pci0000:00/0000:00:1f.2/ata1/host0" 256
  = (0, Some "pci0000:00/0000:00:1f.2").
Proof.
  apply (proj1 (find_pci_device_prefix_second_slash
                  "/devices/pci0000:00/0000:00:1f.2/ata1/host0" 256)).
  - exists "0000:00/0000:00:1f.2/ata1/host0". reflexivity.
  - reflexivity.
  - vm_compute. discriminate.
Defined.

Lemma generic_devpath_within_limit_witness :
  @handle_generic_device_event sample_ueventd_parser [] usb_event
  = Some [ mkdir_recursive "/dev/bus/usb/002" 493;
           make_device "/dev/bus/usb/002/005"
             "/devices/pci0000:00/0000:00:1d.0/usb2/2-1" 0 189 133 None ]
  /\ strlen "/dev/bus/usb/002/005" <= 95.
Proof.
  split; [reflexivity|].
  apply (proj1 (@generic_devpath_within_limit sample_ueventd_parser []
                  usb_event) _ eq_refl).
  simpl. now left.
Defined.

Lemma block_device_symlinks_in_order_witness :
  get_block_device_symlinks
    (add_platform_device [] "/devices/platform/soc.0") mmc_event
  = Some (Some [ "/dev/block/platform/soc.0/by-name/user_data_bad";
                 "/dev/block/platform/soc.0/by-num/p3";
                 "/dev/block/platform/soc.0/mmcblk0p3" ]).
Proof.
  apply (proj1 (block_device_symlinks_in_order
                  (add_platform_device [] "/devices/platform/soc.0")
                  mmc_event "/devices/platform/soc.0/by.pci/mmcblk0p3"
                  eq_refl)
           "platform" "soc.0" "/devices/platform/soc.0/by.pci" "mmcblk0p3").
  - left. eexists. split; [reflexivity | split; reflexivity].
  - reflexivity.
  - reflexivity.
  - vm_compute. discriminate.
Defined.

Lemma parse_event_fields_witness :
  let msg := list_ascii_of_string
               ("add@/devices/platform/soc.0" ++ String zero
                  ("ACTION=add" ++ String zero
                     ("MAJOR=179" ++ String zero "")))
             ++ [zero; zero] in
  exists ue,
    @parse_event sample_libc msg = Some ue
    /\ ue_action ue = Some "add" /\ ue_path ue = Some ""
    /\ ue_modalias ue = None /\ ue_major ue = 179 /\ ue_minor ue = -1.
Proof.
  intros msg.
  destruct (@parse_event_fields sample_libc
              (list_ascii_of_string
                 ("add@/devices/platform/soc.0" ++ String zero
                    ("ACTION=add" ++ String zero
                       ("MAJOR=179" ++ String zero "")))))
    as [ue [Hparse [Haction [Hpath [_ [_ [_ [_ [Hmodalias
                                                  [Hmajor [Hminor _]]]]]]]]]]].
  exists ue. split; [exact Hparse|].
  rewrite Haction, Hpath, Hmodalias, Hmajor, Hminor.
  repeat split; reflexivity.
Defined.

Lemma handlers_return_on_null_device_name_witness :
  handle_block_device_event [] (platform_event "add" "/devices/virtual/x")
  = Some []
  /\ @handle_generic_device_event sample_ueventd_parser []
       (platform_event "add" "/devices/virtual/x") = Some [].
Proof.
  apply (@handlers_return_on_null_device_name sample_ueventd_parser []
           (platform_event "add" "/devices/virtual/x")).
  left. simpl. lia.
Defined.

Lemma blacklisted_module_never_loaded_witness :
  exists new,
    snd (@load_module_by_device_modalias sample_libc sample_probe_module
           [ {| alias_name := Some "foo"; alias_pattern := Some "pci:*" |};
             {| alias_name := Some "bar"; alias_pattern := Some "pci:v*" |} ]
           [ {| blk_name := "foo"; blk_deferred := false |} ]
           "pci:v00008086" true []) = [] ++ new
    /\ ~ In "foo" new.
Proof.
  apply (@blacklisted_module_never_loaded sample_libc sample_probe_module
           _ _ _ "foo" _ {| blk_name := "foo"; blk_deferred := false |}).
  - exists [], []. repeat split. intros x [].
  - reflexivity.
Defined.

(** A block device with a partition name and number under a platform
    device: the node and its three links. *)
Example block_add_with_partition :
  handle_block_device_event
    (add_platform_device [] "/devices/platform/soc.0") mmc_event
  = Some
      [ make_dir "/dev/block/" 493;
        make_device "/dev/block/mmcblk0p3"
          "/devices/platform/soc.0/by.pci/mmcblk0p3" 1 179 3
          (Some [ "/dev/block/platform/soc.0/by-name/user_data_bad";
                  "/dev/block/platform/soc.0/by-num/p3";
                  "/dev/block/platform/soc.0/mmcblk0p3" ]);
        make_link_init "/dev/block/mmcblk0p3"
          "/dev/block/platform/soc.0/by-name/user_data_bad";
        make_link_init "/dev/block/mmcblk0p3"
          "/dev/block/platform/soc.0/by-num/p3";
        make_link_init "/dev/block/mmcblk0p3"
          "/dev/block/platform/soc.0/mmcblk0p3" ].
Proof. reflexivity. Qed.

(** A modalias that arrives while modules.alias cannot be read is
    queued; the drain at the end of coldboot loads its module. *)
Example modalias_queued_then_drained :
  let absent := {| env_modules_alias := None; env_modules_blacklist := None;
                   env_is_booting := true |} in
  let st0 := {| modules_aliases_map := []; modules_blacklist := [];
                deferred_module_loading_list := []; insmod_calls := [] |} in
  let st1 := @handle_module_loading sample_libc sample_probe_module absent st0
               (Some "acpi:PNP0A03") in
  let st2 := {| modules_aliases_map :=
                  [{| alias_name := Some "pcihost";
                      alias_pattern := Some "acpi:PNP0A*" |}];
                modules_blacklist := modules_blacklist st1;
                deferred_module_loading_list :=
                  deferred_module_loading_list st1;
                insmod_calls := insmod_calls st1 |} in
  let st3 := @handle_deferred_module_loading sample_libc sample_probe_module
               st2 in
  deferred_module_loading_list st1
  = [{| alias_name := None; alias_pattern := Some "acpi:PNP0A03" |}]
  /\ insmod_calls st1 = []
  /\ deferred_module_loading_list st3 = []
  /\ insmod_calls st3 = ["pcihost"].
Proof. vm_compute. repeat split. Qed.

(** A firmware file that is copied in two reads, and one whose second
    read fails. *)
Example firmware_copy_writes :
  load_firmware {| fw_fstat := Some 6000;
                   fw_reads := [Read_data 4096 true; Read_data 1904 true] |}
  = (0, [write_loading "1"; write_data 4096; write_data 1904;
         write_loading "0"])
  /\ load_firmware {| fw_fstat := Some 6000;
                      fw_reads := [Read_data 4096 true; Read_error] |}
     = (-1, [write_loading "1"; write_data 4096; write_loading "-1"]).
Proof. split; reflexivity. Qed.

(** * Further properties *)

(** ** The platform registry: lookups *)

Lemma char_at_end (p : string) (c : ascii) (rest : string) :
  char_at (p ++ String c rest) (strlen p) = c.
Proof.
  unfold char_at, strlen. rewrite Nat2Z.id.
  induction p as [|x p IH]; simpl; [reflexivity | assumption].
Qed.

Lemma to_nat_strlen (s : string) : Z.to_nat (strlen s) = String.length s.
Proof. unfold strlen. apply Nat2Z.id. Qed.

Lemma strncmp_own_prefix (p rest : string) :
  (strncmp (p ++ rest) p (String.length p) =? 0) = true.
Proof. apply strncmp_prefix_eqb. now exists rest. Qed.

(** The test of one entry, for an entry that records the length of its
    path: the path of the entry is a directory above the devpath. *)
Lemma platform_test_directory (bus : platform_node) (path : string) :
  bus_path_len bus = strlen (bus_path bus) ->
  ((bus_path_len bus <? strlen path)
   && Ascii.eqb (char_at path (bus_path_len bus)) "/"
   && (strncmp path (bus_path bus) (Z.to_nat (bus_path_len bus)) =? 0)) = true
  <-> directory_above (bus_path bus) path.
Proof.
  intros Hlen. rewrite Hlen, to_nat_strlen.
  split.
  - intros Ht. apply andb_true_iff in Ht. destruct Ht as [Ht Hs].
    apply andb_true_iff in Ht. destruct Ht as [Hl Hc].
    apply strncmp_prefix_eqb in Hs. destruct Hs as [r ->].
    destruct r as [|c rest].
    + apply Z.ltb_lt in Hl. unfold strlen in Hl.
      rewrite length_append in Hl. simpl String.length in Hl. lia.
    + rewrite char_at_end in Hc. apply Ascii.eqb_eq in Hc. subst c.
      now exists rest.
  - intros [rest ->]. rewrite char_at_end, strncmp_own_prefix.
    unfold strlen. rewrite length_append. simpl.
    rewrite andb_true_r, andb_true_r. apply Z.ltb_lt. lia.
Qed.

Lemma find_platform_device_scan_found (nodes : list platform_node)
    (path : string) (bus : platform_node) :
  Forall (fun b => bus_path_len b = strlen (bus_path b)) nodes ->
  find_platform_device_scan nodes path = Some bus ->
  exists before after,
    nodes = before ++ bus :: after
    /\ directory_above (bus_path bus) path
    /\ forall b, In b before -> ~ directory_above (bus_path b) path.
Proof.
  intros Hwf. induction Hwf as [|b nodes Hb Hwf IH]; simpl; [discriminate|].
  destruct (_ && _ && _) eqn:Et.
  - intros [= <-]. exists [], nodes. repeat split.
    + now apply platform_test_directory.
    + intros b' [].
  - intros Hfind. destruct (IH Hfind) as [before [after [-> [Hdir Hnone]]]].
    exists (b :: before), after. repeat split; [assumption|].
    intros b' [<- | Hin]; [|now apply Hnone].
    intros Hd. apply (platform_test_directory b path Hb) in Hd. congruence.
Qed.

Lemma find_platform_device_scan_none (nodes : list platform_node)
    (path : string) :
  Forall (fun b => bus_path_len b = strlen (bus_path b)) nodes ->
  find_platform_device_scan nodes path = None ->
  forall b, In b nodes -> ~ directory_above (bus_path b) path.
Proof.
  intros Hwf. induction Hwf as [|b nodes Hb Hwf IH]; simpl; [intros _ b []|].
  destruct (_ && _ && _) eqn:Et; [discriminate|].
  intros Hfind b' [<- | Hin]; [|now apply IH].
  intros Hd. apply (platform_test_directory b path Hb) in Hd. congruence.
Qed.

(** X1. In a registry whose entries record the length of their path,
    [find_platform_device] returns the most recently added entry whose
    path is a directory above the devpath, and null exactly when no
    entry is. *)
Theorem find_platform_device_newest_directory
    (platform_names : list platform_node) (path : string) :
  lengths_recorded platform_names ->
  (forall bus,
      find_platform_device platform_names path = Some bus ->
      exists older newer,
        platform_names = older ++ bus :: newer
        /\ directory_above (bus_path bus) path
        /\ forall b, In b newer -> ~ directory_above (bus_path b) path)
  /\ (find_platform_device platform_names path = None ->
      forall b, In b platform_names -> ~ directory_above (bus_path b) path).
Proof.
  intros Hwf. unfold find_platform_device.
  assert (Hrev : Forall (fun b => bus_path_len b = strlen (bus_path b))
                   (rev platform_names)).
  { apply Forall_forall. intros b Hb. apply in_rev in Hb.
    revert b Hb. now apply Forall_forall. }
  split.
  - intros bus Hfind.
    destruct (find_platform_device_scan_found _ _ _ Hrev Hfind)
      as [before [after [Hsplit [Hdir Hnone]]]].
    exists (rev after), (rev before). repeat split; [|assumption|].
    + rewrite <- (rev_involutive platform_names), Hsplit.
      rewrite rev_app_distr. simpl. now rewrite <- app_assoc.
    + intros b Hb. apply Hnone. now apply in_rev.
  - intros Hfind b Hb.
    apply (find_platform_device_scan_none _ _ Hrev Hfind).
    now rewrite <- in_rev.
Qed.

(** X2. After a platform device is added, a devpath below its path is
    resolved to the new entry, whatever the registry held before. *)
Theorem find_platform_device_after_add
    (platform_names : list platform_node) (path rest : string) :
  exists name,
    add_platform_device platform_names path
    = platform_names ++ [{| bus_name := name; bus_path := path;
                            bus_path_len := strlen path |}]
    /\ find_platform_device (add_platform_device platform_names path)
         (path ++ String "/" rest)
       = Some {| bus_name := name; bus_path := path;
                 bus_path_len := strlen path |}.
Proof.
  unfold add_platform_device.
  set (name := if strncmp path "/devices/" 9 =? 0 then _ else path).
  exists name. split; [reflexivity|].
  unfold find_platform_device. rewrite rev_app_distr. simpl.
  rewrite char_at_end, to_nat_strlen, strncmp_own_prefix.
  replace (strlen path <? strlen (path ++ String "/" rest)) with true;
    [reflexivity|].
  symmetry. apply Z.ltb_lt. unfold strlen. rewrite length_append. simpl. lia.
Qed.

(** X3. The name of a new entry is its path without a leading
    "/devices/" and without a "platform/" after that; a path that does
    not begin with "/devices/" is its own name. *)
Theorem add_platform_device_name (platform_names : list platform_node)
    (path : string) :
  let named name :=
    add_platform_device platform_names path
    = platform_names ++ [{| bus_name := name; bus_path := path;
                            bus_path_len := strlen path |}] in
  (forall n, path = ("/devices/platform/" ++ n)%string -> named n)
  /\ (forall n, path = ("/devices/" ++ n)%string ->
                (~ exists m, n = ("platform/" ++ m)%string) -> named n)
  /\ ((~ exists n, path = ("/devices/" ++ n)%string) -> named path).
Proof.
  intros named. unfold named, add_platform_device. repeat split.
  - intros n ->. reflexivity.
  - intros n -> Hn.
    change (strncmp ("/devices/" ++ n) "/devices/" 9 =? 0) with true.
    cbv iota. change (advance 9 ("/devices/" ++ n)) with n.
    destruct (strncmp n "platform/" 9 =? 0) eqn:E; [|reflexivity].
    exfalso. apply Hn. now apply (strncmp_prefix_eqb n "platform/").
  - intros Hn.
    destruct (strncmp path "/devices/" 9 =? 0) eqn:E; [|reflexivity].
    exfalso. apply Hn. now apply (strncmp_prefix_eqb path "/devices/").
Qed.

Lemma remove_scan_absent (nodes : list platform_node) (path : string) :
  ~ In path (stored_paths nodes) ->
  remove_platform_device_scan nodes path = nodes.
Proof.
  induction nodes as [|bus nodes IH]; simpl; [reflexivity|].
  intros Hnot. destruct (strcmp path (bus_path bus) =? 0) eqn:E.
  - apply strcmp_eqb in E. exfalso. apply Hnot. now left.
  - rewrite IH; [reflexivity|]. intros Hin. apply Hnot. now right.
Qed.

(** X4. Removing a platform device that was just added gives the
    registry back, and removing a devpath that is not stored changes
    nothing. *)
Theorem remove_platform_device_undoes_add
    (platform_names : list platform_node) (path : string) :
  remove_platform_device (add_platform_device platform_names path) path
  = platform_names
  /\ (~ In path (stored_paths platform_names) ->
      remove_platform_device platform_names path = platform_names).
Proof.
  unfold remove_platform_device. split.
  - unfold add_platform_device. rewrite rev_app_distr. simpl.
    rewrite strcmp_refl. simpl. apply rev_involutive.
  - intros Hnot. rewrite remove_scan_absent; [apply rev_involutive|].
    rewrite stored_paths_rev. intros Hin. apply Hnot. now apply in_rev.
Qed.

Lemma remove_scan_drops_path (nodes : list platform_node) (path : string) :
  NoDup (stored_paths nodes) ->
  ~ In path (stored_paths (remove_platform_device_scan nodes path)).
Proof.
  induction nodes as [|bus nodes IH]; simpl; [auto|].
  intros Hnd. inversion Hnd as [|x l Hnotin Hrest]; subst.
  destruct (strcmp path (bus_path bus) =? 0) eqn:E.
  - apply strcmp_eqb in E. now subst path.
  - simpl. intros [Heq | Hin]; [|now apply IH].
    subst path. now rewrite strcmp_refl in E.
Qed.

Lemma find_platform_device_scan_In (nodes : list platform_node)
    (path : string) (bus : platform_node) :
  find_platform_device_scan nodes path = Some bus -> In bus nodes.
Proof.
  induction nodes as [|b nodes IH]; simpl; [discriminate|].
  destruct (_ && _ && _); [intros [= <-]; now left | right; now apply IH].
Qed.

(** X5. While the stored devpaths are pairwise distinct, a devpath that
    was removed is no longer the parent of any device. *)
Theorem removed_platform_device_not_found
    (platform_names : list platform_node) (removed path : string)
    (bus : platform_node) :
  NoDup (stored_paths platform_names) ->
  find_platform_device (remove_platform_device platform_names removed) path
  = Some bus ->
  bus_path bus <> removed.
Proof.
  intros Hnd Hfind Heq. unfold find_platform_device in Hfind.
  apply find_platform_device_scan_In in Hfind. apply in_rev in Hfind.
  unfold remove_platform_device in Hfind. apply in_rev in Hfind.
  apply (remove_scan_drops_path (rev platform_names) removed).
  - rewrite stored_paths_rev. now apply NoDup_rev.
  - subst removed. unfold stored_paths.
    now apply (in_map bus_path) in Hfind.
Qed.

Lemma lengths_recorded_remove_scan (nodes : list platform_node)
    (path : string) :
  lengths_recorded nodes ->
  lengths_recorded (remove_platform_device_scan nodes path).
Proof.
  unfold lengths_recorded. intros Hwf.
  induction Hwf as [|b nodes Hb Hwf IH]; simpl; [constructor|].
  destruct (strcmp path (bus_path b) =? 0); [assumption | now constructor].
Qed.

Lemma lengths_recorded_rev (nodes : list platform_node) :
  lengths_recorded nodes -> lengths_recorded (rev nodes).
Proof.
  unfold lengths_recorded. intros Hwf. apply Forall_forall. intros b Hb.
  apply in_rev in Hb. revert b Hb. now apply Forall_forall.
Qed.

Lemma lengths_recorded_event (platform_names : list platform_node)
    (ue : uevent) (platform_names' : list platform_node) :
  lengths_recorded platform_names ->
  handle_platform_device_event platform_names ue = Some platform_names' ->
  lengths_recorded platform_names'.
Proof.
  intros Hwf. unfold handle_platform_device_event.
  destruct (ue_path ue) as [path|]; [|discriminate].
  destruct (ue_action ue) as [action|]; [|discriminate].
  destruct (strcmp action "add" =? 0).
  - intros [= <-]. unfold add_platform_device, lengths_recorded.
    apply Forall_app. split; [assumption | now repeat constructor].
  - destruct (strcmp action "remove" =? 0); intros [= <-]; [|assumption].
    unfold remove_platform_device.
    now apply lengths_recorded_rev, lengths_recorded_remove_scan,
      lengths_recorded_rev.
Qed.

(** X6. Platform events keep the registry such that every entry
    records the length of its path; the empty registry is such, so
    every registry that events build compares whole path components in
    its lookups. *)
Theorem platform_events_record_lengths (events : list uevent)
    (platform_names platform_names' : list platform_node) :
  lengths_recorded platform_names ->
  platform_events platform_names events = Some platform_names' ->
  lengths_recorded platform_names'.
Proof.
  revert platform_names. induction events as [|ue rest IH];
    intros names Hwf; simpl.
  - now intros [= <-].
  - destruct (handle_platform_device_event names ue) as [names1|] eqn:Hev;
      [|discriminate].
    apply IH. now apply (lengths_recorded_event names ue).
Qed.

(** ** Permission rules: adding and overriding *)

Section Permission_rules.
Context `{Libc}.



(** ** Sysfs permissions *)

Lemma fixup_sys_perms_loop_step (dp : perms_) (nodes : list perms_)
    (upath : string) :
  sys_rule_readable dp ->
  fixup_sys_perms_loop (dp :: nodes) upath
  = if negb (sys_perm_matches upath dp) then fixup_sys_perms_loop nodes upath
    else if strlen upath + strlen (or_empty (dp_attr dp)) + 6 >? 512
         then Some []
         else
           calls <- fixup_sys_perms_loop nodes upath ;;
           Some (sys_attr_calls upath dp ++ calls).
Proof.
  intros [Hname Hattr]. cbn [fixup_sys_perms_loop].
  destruct (strlen (dp_name dp) <? 4) eqn:E; [lia|].
  destruct (negb (sys_perm_matches upath dp)); [reflexivity|].
  destruct (dp_attr dp) as [attr|] eqn:Ea; [|contradiction].
  simpl or_empty.
  destruct (strlen upath + strlen attr + 6 >? 512) eqn:Efit; [reflexivity|].
  rewrite snprintf_fits.
  - unfold sys_attr_calls, sys_attr_path. rewrite Ea. reflexivity.
  - unfold strlen in *. rewrite !length_append. simpl String.length.
    rewrite ?length_append. simpl String.length. lia.
Qed.

Lemma fixup_sys_perms_loop_all (sys_perms : list perms_) (upath : string) :
  (forall dp, In dp sys_perms -> sys_rule_readable dp) ->
  (forall dp, In dp sys_perms -> sys_perm_matches upath dp = true ->
              sys_rule_fits upath dp) ->
  fixup_sys_perms_loop sys_perms upath
  = Some (flat_map (sys_attr_calls upath)
            (filter (sys_perm_matches upath) sys_perms)).
Proof.
  induction sys_perms as [|dp rest IH]; intros Hread Hfit; [reflexivity|].
  rewrite fixup_sys_perms_loop_step by (apply Hread; now left).
  rewrite IH;
    [| intros r Hr; apply Hread; now right
     | intros r Hr Hm; apply Hfit; [now right | assumption]].
  simpl filter. destruct (sys_perm_matches upath dp) eqn:Em; simpl negb;
    cbv iota; [|reflexivity].
  assert (Hf := Hfit dp (or_introl eq_refl) Em). unfold sys_rule_fits in Hf.
  destruct (_ >? 512) eqn:E; [lia | reflexivity].
Qed.

(** X8. When every sysfs rule can be read and the attribute path of
    every matching rule fits the buffer, [fixup_sys_perms] applies all
    the matching rules, in the order they were added: a chown and a
    chmod of /sys<upath>/<attr> for each, with the path in full; it then
    restores the labels under /sys<upath> when that path is shorter
    than 512 bytes and exists. *)
Theorem fixup_sys_perms_applies_all (access : string -> bool)
    (sys_perms : list perms_) (upath : string) :
  (forall dp, In dp sys_perms -> sys_rule_readable dp) ->
  (forall dp, In dp sys_perms -> sys_perm_matches upath dp = true ->
              sys_rule_fits upath dp) ->
  fixup_sys_perms access sys_perms upath
  = Some (flat_map (sys_attr_calls upath)
            (filter (sys_perm_matches upath) sys_perms)
          ++ (if (strlen ("/sys" ++ upath) <? 512)
                 && access ("/sys" ++ upath)%string
              then [restorecon_recursive ("/sys" ++ upath)%string]
              else [])).
Proof.
  intros Hread Hfit. unfold fixup_sys_perms.
  rewrite (fixup_sys_perms_loop_all _ _ Hread Hfit).
  unfold snprintf. set (text := ("/sys" ++ upath)%string).
  assert (Hpos : (strlen text <? 0) = false)
    by (apply Z.ltb_ge; unfold strlen; lia).
  rewrite Hpos, Z.geb_leb. cbn [orb].
  destruct (strlen text <? 512) eqn:E.
  - replace (512 <=? strlen text) with false
      by (symmetry; apply Z.leb_gt; lia).
    rewrite strncpy_all by (unfold strlen in *; lia).
    cbn [andb]. destruct (access text); [reflexivity | now rewrite app_nil_r].
  - replace (512 <=? strlen text) with true
      by (symmetry; apply Z.leb_le; lia).
    cbn [andb]. now rewrite app_nil_r.
Qed.

(** X9. A matching sysfs rule whose attribute path does not fit the
    buffer ends the scan: neither that rule nor any rule added after it
    is applied. *)
Theorem fixup_sys_perms_stops_at_long_rule (before : list perms_)
    (dp : perms_) (after : list perms_) (upath : string) :
  sys_rule_readable dp ->
  sys_perm_matches upath dp = true ->
  ~ sys_rule_fits upath dp ->
  (forall r, In r before -> sys_rule_readable r) ->
  fixup_sys_perms_loop (before ++ dp :: after) upath
  = fixup_sys_perms_loop before upath.
Proof.
  intros Hread Hmatch Hlong Hbefore.
  induction before as [|r before IH].
  - simpl app. rewrite fixup_sys_perms_loop_step by assumption.
    rewrite Hmatch. simpl negb. cbv iota. unfold sys_rule_fits in Hlong.
    destruct (_ >? 512) eqn:E; [reflexivity | lia].
  - simpl app.
    rewrite !fixup_sys_perms_loop_step by (apply Hbefore; now left).
    rewrite IH by (intros; apply Hbefore; now right). reflexivity.
Qed.

(** X10. A sysfs rule is compared with the uevent path after its
    first four bytes: an exact rule named /sys<p> matches the uevent
    path p only, and a prefix rule named /sys<p> matches the uevent
    paths that begin with p. *)
Theorem sys_perm_matches_after_sys (upath p : string) (dp : perms_) :
  dp_name dp = ("/sys" ++ p)%string ->
  (dp_prefix dp = 0 -> dp_wildcard dp = 0 ->
   (sys_perm_matches upath dp = true <-> upath = p))
  /\ (dp_prefix dp <> 0 ->
      (sys_perm_matches upath dp = true
       <-> exists rest, upath = (p ++ rest)%string)).
Proof.
  intros Hname. unfold sys_perm_matches. rewrite Hname.
  change (advance 4 ("/sys" ++ p)) with p. split.
  - intros -> ->. simpl. apply strcmp_eqb.
  - intros Hp. destruct (dp_prefix dp =? 0) eqn:E; [lia|]. simpl.
    apply strncmp_prefix_eqb.
Qed.

End Permission_rules.

(** ** Links: bounds and shapes *)

Lemma before_slash_split (k : nat) (s pre : string) :
  before_slash k s = Some pre -> exists rest, s = (pre ++ String "/" rest)%string.
Proof.
  revert k pre. induction s as [|c r IH]; intros k pre; simpl; [discriminate|].
  destruct (Ascii.eqb c "/") eqn:Ec.
  - apply Ascii.eqb_eq in Ec. subst c. destruct k as [|[|k]]; [discriminate | |].
    + intros [= <-]. now exists r.
    + destruct (before_slash (S k) r) as [pre'|] eqn:E; [|discriminate].
      intros [= <-]. destruct (IH _ _ E) as [rest ->]. now exists rest.
  - destruct (before_slash k r) as [pre'|] eqn:E; [|discriminate].
    intros [= <-]. destruct (IH _ _ E) as [rest ->]. now exists rest.
Qed.

(** X11. [find_pci_device_prefix] returns 0 with the buffer filled or
    -1 with the buffer untouched; on 0 the result and its terminator fit
    the buffer, the result begins with "pci", and the devpath is
    "/devices/", the result, a slash and a remainder. *)
Theorem find_pci_device_prefix_fits (path : string) (buf_sz : Z) :
  (forall pre,
      find_pci_device_prefix path buf_sz = (0, Some pre) ->
      strlen pre + 1 <= buf_sz
      /\ (exists q, pre = ("pci" ++ q)%string)
      /\ (exists rest, path = ("/devices/" ++ pre ++ "/" ++ rest)%string))
  /\ (find_pci_device_prefix path buf_sz = (-1, None)
      \/ exists pre, find_pci_device_prefix path buf_sz = (0, Some pre)).
Proof.
  destruct (strncmp path "/devices/pci" 12 =? 0) eqn:Ep.
  - apply (strncmp_prefix_eqb path "/devices/pci") in Ep.
    destruct Ep as [rest0 ->]. rewrite find_pci_device_prefix_cases.
    change (advance 9 ("/devices/pci" ++ rest0)) with ("pci" ++ rest0)%string.
    destruct (before_slash 2 ("pci" ++ rest0)) as [pre'|] eqn:Eb.
    + destruct (strlen pre' + 1 >? buf_sz) eqn:Efit.
      * split; [discriminate | now left].
      * split; [|right; now exists pre'].
        intros pre [= <-]. split; [lia|].
        destruct (before_slash_split _ _ _ Eb) as [rest Hrest].
        split.
        -- destruct pre' as [|a [|b [|c q]]]; simpl in Hrest;
             try discriminate; inversion Hrest; subst.
           now exists q.
        -- exists rest. change ("/devices/pci" ++ rest0)%string
             with ("/devices/" ++ ("pci" ++ rest0))%string.
           rewrite Hrest. reflexivity.
    + split; [discriminate | now left].
  - unfold find_pci_device_prefix. rewrite Ep. simpl.
    split; [discriminate | now left].
Qed.

(** X12. [get_block_device_symlinks] returns one, two or three links,
    so that the array of four pointers always keeps its terminator, and
    every link is below /dev/block/. *)
Theorem get_block_device_symlinks_bound
    (platform_names : list platform_node) (ue : uevent)
    (links : list string) :
  get_block_device_symlinks platform_names ue = Some (Some links) ->
  (1 <= List.length links <= 3)%nat
  /\ forall l, In l links -> exists rest, l = ("/dev/block/" ++ rest)%string.
Proof.
  unfold get_block_device_symlinks.
  destruct (ue_path ue) as [path|]; [|discriminate].
  set (parent := match find_platform_device platform_names path with
                 | Some pdev => Some (bus_name pdev, "platform")
                 | None => _
                 end).
  destruct parent as [[device type]|]; [|discriminate].
  destruct (strrchr path "/") as [slash|]; [|discriminate].
  intros [= <-].
  destruct (ue_partition_name ue), (ue_partition_num ue >=? 0);
    (split; [simpl; lia|]); intros l Hl; cbn [app In] in Hl;
    repeat (destruct Hl as [<- | Hl]; [eexists; reflexivity|]);
    destruct Hl.
Qed.

Lemma to_slash_append (a t : string) :
  strchr a "/" = None -> to_slash (a ++ String "/" t) = String "/" t.
Proof.
  induction a as [|x a IH]; simpl; [reflexivity|].
  destruct (Ascii.eqb x "/"); [discriminate | assumption].
Qed.

Lemma strchr_append (a t : string) (c : ascii) :
  strchr a c = None -> strchr (a ++ String c t) c = Some (String c t).
Proof.
  induction a as [|x a IH]; simpl.
  - now rewrite Ascii.eqb_refl.
  - destruct (Ascii.eqb x c); [discriminate | assumption].
Qed.

(** X13. For a character device below a platform device and a USB root
    hub, [get_character_device_symlinks] skips the root hub and the
    device and links /dev/usb/<subsystem><interface>, after which it
    makes the /dev/usb directory; in every case it returns no link, or
    one link together with that directory. *)
Theorem get_character_device_symlinks_usb
    (platform_names : list platform_node) (ue : uevent) :
  (forall parent hub device interface rest subsystem pdev,
      let path := (parent ++ "/usb" ++ hub ++ "/" ++ device ++ "/"
                   ++ interface ++ "/" ++ rest)%string in
      ue_path ue = Some path ->
      ue_subsystem ue = Some subsystem ->
      find_platform_device platform_names path = Some pdev ->
      bus_path_len pdev = strlen parent ->
      strchr hub "/" = None -> strchr device "/" = None ->
      strchr interface "/" = None -> interface <> "" ->
      get_character_device_symlinks platform_names ue
      = Some (Some [("/dev/usb/" ++ subsystem ++ interface)%string],
              [mkdir "/dev/usb" 493]))
  /\ (forall links calls,
         get_character_device_symlinks platform_names ue
         = Some (links, calls) ->
         (links = None /\ calls = [])
         \/ (exists l, links = Some [("/dev/usb/" ++ l)%string]
                       /\ calls = [mkdir "/dev/usb" 493])).
Proof.
  split.
  - intros parent hub device interface rest subsystem pdev path
      Hpath Hsub Hfind Hlen Hhub Hdev Hif Hne.
    unfold get_character_device_symlinks.
    rewrite Hpath, Hfind, Hsub, Hlen, to_nat_strlen.
    unfold path. rewrite advance_append.
    change ("/usb" ++ hub ++ "/" ++ device ++ "/" ++ interface ++ "/" ++ rest)%string
      with (String "/" ("usb" ++ hub ++ String "/"
              (device ++ String "/" (interface ++ String "/" rest))))%string.
    set (below := (interface ++ String "/" rest)%string).
    set (at_device := (device ++ String "/" below)%string).
    assert (H1 : next_slash (String "/" ("usb" ++ hub ++ String "/" at_device))
                 = String "/" at_device).
    { unfold next_slash. cbn [advance].
      change ("usb" ++ hub ++ String "/" at_device)%string
        with (("usb" ++ hub) ++ String "/" at_device)%string.
      apply to_slash_append. simpl. exact Hhub. }
    assert (H2 : next_slash (String "/" at_device) = String "/" below).
    { unfold next_slash. cbn [advance]. now apply to_slash_append. }
    cbn [strchr]. rewrite Ascii.eqb_refl.
    replace (strncmp _ "/usb" 4 =? 0) with true by reflexivity.
    cbv zeta. rewrite !H1. cbn [is_empty]. rewrite !H2. cbn [is_empty advance].
    unfold below. rewrite (strchr_append interface rest "/" Hif).
    assert (Hw : strlen (interface ++ String "/" rest) - strlen (String "/" rest)
                 = strlen interface).
    { unfold strlen. rewrite length_append. simpl String.length. lia. }
    rewrite Hw.
    destruct (strlen interface <=? 0) eqn:E.
    + apply Z.leb_le in E. destruct interface; [contradiction|].
      unfold strlen in E. simpl String.length in E. lia.
    + rewrite to_nat_strlen, strncpy_append. reflexivity.
  - intros links calls. unfold get_character_device_symlinks.
    repeat match goal with
           | |- context [match ?x with _ => _ end] => destruct x
           end;
      intros [= <- <-]; try (left; split; reflexivity).
    all: right; eexists; split; reflexivity.
Qed.

(** ** The block handler *)

(** X14. The node of a block device is /dev/block/ followed by the
    leaf name of the devpath, in full: the 96-byte buffer never cuts
    it, and no call of the handler names another node. *)
Theorem block_device_node_path (platform_names : list platform_node)
    (ue : uevent) (dir leaf : string) (trace : list call) :
  ue_path ue = Some (dir ++ String "/" leaf)%string ->
  strchr leaf "/" = None ->
  handle_block_device_event platform_names ue = Some trace ->
  forall p, In p (node_paths trace) ->
            p = ("/dev/block/" ++ leaf)%string /\ strlen p <= 75.
Proof.
  intros Hpath Hleaf. unfold handle_block_device_event, parse_device_name.
  rewrite Hpath, (strrchr_last _ _ _ Hleaf).
  change (advance 1 (String "/" leaf)) with leaf.
  destruct ((ue_major ue <? 0) || (ue_minor ue <? 0));
    [intros [= <-] p [] |].
  destruct (strlen leaf >? 64) eqn:Elen; [intros [= <-] p [] |].
  assert (Hfit : strlen ("/dev/block/" ++ leaf) <= 75).
  { unfold strlen in *. rewrite length_append. simpl String.length. lia. }
  rewrite (snprintf_fits 96) by lia.
  destruct (if strncmp _ "/devices/" 9 =? 0 then _ else Some None)
    as [links|]; [|discriminate].
  destruct (ue_action ue) as [action|]; [|discriminate].
  intros [= <-] p Hp. simpl in Hp.
  apply handle_device_node_paths in Hp. now subst p.
Qed.

(** ** The parser: records without a tag *)

Section Parser_untagged.
Context `{Libc}.

Lemma record_update_untagged (ue : uevent) (r : string) :
  has_known_tag r = false -> record_update ue r = ue.
Proof.
  unfold has_known_tag, known_tags. cbn [existsb]. intros Hr.
  repeat (apply orb_false_iff in Hr; let E := fresh "E" in destruct Hr as [E Hr]).
  unfold record_update. destruct ue. cbv zeta beta.
  repeat match goal with
         | Hc : ?c = false |- context [if ?c then _ else _] => rewrite Hc
         end.
  reflexivity.
Qed.

Lemma fold_record_update_tagged (recs : list string) :
  forall ue,
    fold_left record_update recs ue
    = fold_left record_update (filter has_known_tag recs) ue.
Proof.
  induction recs as [|r recs IH]; intros ue; simpl; [reflexivity|].
  destruct (has_known_tag r) eqn:E; simpl.
  - apply IH.
  - rewrite (record_update_untagged ue r E). apply IH.
Qed.

(** X15. The parser ignores every record that begins with none of its
    ten tags (the header line, SEQNUM and the like): two messages whose
    tagged records are the same, in the same order, give the same
    event. *)
Theorem parse_event_ignores_untagged_records (bytes1 bytes2 : list ascii) :
  filter has_known_tag (records (bytes1 ++ [zero; zero]))
  = filter has_known_tag (records (bytes2 ++ [zero; zero])) ->
  parse_event (bytes1 ++ [zero; zero]) = parse_event (bytes2 ++ [zero; zero]).
Proof.
  intros Hsame. unfold parse_event.
  rewrite !parse_event_loop_records;
    try lia; try (right; eexists; reflexivity).
  f_equal.
  rewrite (fold_record_update_tagged (records (bytes1 ++ _))).
  rewrite (fold_record_update_tagged (records (bytes2 ++ _))).
  now rewrite Hsame.
Qed.

End Parser_untagged.

(** ** The module description files *)

Lemma firstn_full {A : Type} (k : nat) (args ws : list A) :
  List.length args = k -> firstn k (args ++ ws) = args.
Proof.
  intros <-. rewrite firstn_app, Nat.sub_diag, firstn_all. simpl.
  apply app_nil_r.
Qed.

(** The words of a line fill the argument array up to its size. *)
Lemma read_modules_desc_words {A : Type} (parse_line : A -> list string -> A)
    (k : nat) (ws : list string) (tokens : list token) :
  forall (args : list string) (table : A),
    (List.length args <= k)%nat ->
    read_modules_desc_tokens parse_line k (map T_TEXT ws ++ tokens) args table
    = read_modules_desc_tokens parse_line k tokens (firstn k (args ++ ws))
        table.
Proof.
  induction ws as [|w ws IH]; intros args table Hlen; simpl.
  - rewrite app_nil_r, firstn_all2 by lia. reflexivity.
  - destruct (List.length args <? k)%nat eqn:E.
    + apply Nat.ltb_lt in E. rewrite IH.
      * now rewrite <- app_assoc.
      * rewrite length_app. simpl. lia.
    + apply Nat.ltb_ge in E. rewrite IH by assumption.
      assert (Hk : List.length args = k) by lia.
      now rewrite !(firstn_full k args) by assumption.
Qed.

Lemma read_modules_desc_tokens_lines {A : Type}
    (parse_line : A -> list string -> A) (args_to_read : nat)
    (lines : list (list string)) (unterminated : list string) (table : A) :
  read_modules_desc_tokens parse_line args_to_read
    (tokens_of_lines lines ++ map T_TEXT unterminated) [] table
  = parse_lines parse_line args_to_read lines table.
Proof.
  unfold parse_lines. revert table.
  induction lines as [|line lines IH]; intros table.
  - simpl. rewrite <- (app_nil_r (map T_TEXT unterminated)).
    rewrite read_modules_desc_words by (simpl; lia). reflexivity.
  - unfold tokens_of_lines. cbn [flat_map]. fold (tokens_of_lines lines).
    rewrite <- !app_assoc.
    rewrite read_modules_desc_words by (simpl; lia).
    cbn [app fold_left read_modules_desc_tokens].
    destruct (firstn args_to_read line); apply IH.
Qed.

(** X16. Reading a description file works line by line: every line
    ended by a newline is cut to its first [args_to_read] words and
    passed to the line parser unless it is empty, and words after the
    last newline are dropped. *)
Theorem read_modules_desc_by_lines {A : Type}
    (parse_line : A -> list string -> A) (args_to_read : nat)
    (lines : list (list string)) (unterminated : list string) (table : A) :
  read_modules_desc_tokens parse_line args_to_read
    (tokens_of_lines lines ++ map T_TEXT unterminated) [] table
  = parse_lines parse_line args_to_read lines table.
Proof. apply read_modules_desc_tokens_lines. Qed.

Lemma parse_lines_alias (lines : list (list string)) :
  forall aliases,
    parse_lines parse_line_module_alias 3 lines aliases
    = aliases ++ flat_map alias_of_line lines.
Proof.
  unfold parse_lines.
  induction lines as [|line lines IH]; intros aliases; simpl.
  - now rewrite app_nil_r.
  - destruct line as [|a [|b [|c rest]]]; simpl; rewrite IH;
      try reflexivity.
    now rewrite <- app_assoc.
Qed.

(** X17. Every line of modules.alias with three words or more adds
    one alias, with the second word as its pattern and the third as its
    module: the first word is not looked at and further words are
    dropped; shorter lines and a last line without a newline add
    nothing, and the aliases read before are kept.  When the file
    cannot be read the status is -1 and nothing changes. *)
Theorem read_modules_aliases_lines (env : module_env) (st : modules) :
  (forall lines unterminated,
      env_modules_alias env
      = Some (tokens_of_lines lines ++ map T_TEXT unterminated) ->
      fst (read_modules_aliases env st) = 0
      /\ modules_aliases_map (snd (read_modules_aliases env st))
         = modules_aliases_map st ++ flat_map alias_of_line lines
      /\ modules_blacklist (snd (read_modules_aliases env st))
         = modules_blacklist st
      /\ deferred_module_loading_list (snd (read_modules_aliases env st))
         = deferred_module_loading_list st)
  /\ (env_modules_alias env = None ->
      read_modules_aliases env st = (-1, st)).
Proof.
  unfold read_modules_aliases. split.
  - intros lines unterminated ->. simpl.
    rewrite read_modules_desc_tokens_lines, parse_lines_alias. auto.
  - now intros ->.
Qed.

(** ** Loading by modalias: status and queue *)

Section Loading_facts.
Context `{Libc} `{Probe_module}.

Lemma load_module_loop_app (l1 l2 : list module_alias_node)
    (blacklist : list module_blacklist_node) (id : string)
    (need_deferred : bool) :
  forall ret calls,
    load_module_by_device_modalias_loop (l1 ++ l2) blacklist id need_deferred
      ret calls
    = let '(ret1, calls1) :=
        load_module_by_device_modalias_loop l1 blacklist id need_deferred
          ret calls in
      load_module_by_device_modalias_loop l2 blacklist id need_deferred
        ret1 calls1.
Proof.
  induction l1 as [|a l1 IH]; intros ret calls; simpl; [reflexivity|].
  destruct (alias_name a); [|apply IH].
  destruct (alias_pattern a); [|apply IH].
  destruct (fnmatch _ id 0 =? 0); [|apply IH].
  destruct (_ =? 0); apply IH.
Qed.

Lemma load_module_loop_no_match (aliases : list module_alias_node)
    (blacklist : list module_blacklist_node) (id : string)
    (need_deferred : bool) :
  (forall a, In a aliases -> ~ alias_matches id a) ->
  forall ret calls,
    load_module_by_device_modalias_loop aliases blacklist id need_deferred
      ret calls = (ret, calls).
Proof.
  induction aliases as [|a aliases IH]; intros Hnone ret calls; simpl;
    [reflexivity|].
  assert (Hrest : forall b, In b aliases -> ~ alias_matches id b)
    by (intros b Hb; apply Hnone; now right).
  destruct (alias_name a) as [name|] eqn:En; [|now apply IH].
  destruct (alias_pattern a) as [pattern|] eqn:Ep; [|now apply IH].
  destruct (fnmatch pattern id 0 =? 0) eqn:Em; [|now apply IH].
  exfalso. apply (Hnone a); [now left|].
  exists name, pattern. repeat split; auto. now apply Z.eqb_eq.
Qed.

Lemma load_module_last_match (before : list module_alias_node)
    (a : module_alias_node) (after : list module_alias_node)
    (blacklist : list module_blacklist_node) (id name pattern : string)
    (need_deferred : bool) (calls : list string) :
  alias_name a = Some name -> alias_pattern a = Some pattern ->
  fnmatch pattern id 0 = 0 ->
  (forall b, In b after -> ~ alias_matches id b) ->
  is_module_blacklisted_or_deferred blacklist (Some name) need_deferred <> 0 ->
  fst (load_module_by_device_modalias (before ++ a :: after) blacklist id
         need_deferred calls)
  = is_module_blacklisted_or_deferred blacklist (Some name) need_deferred.
Proof.
  intros Hname Hpat Hmatch Hafter Hblk. unfold load_module_by_device_modalias.
  rewrite load_module_loop_app.
  destruct (load_module_by_device_modalias_loop before _ _ _ _ _)
    as [ret1 calls1].
  simpl. rewrite Hname, Hpat, Hmatch. simpl Z.eqb. cbv iota.
  simpl in Hblk.
  destruct (is_module_blacklisted_or_deferred_scan blacklist name
              need_deferred =? 0) eqn:E; [apply Z.eqb_eq in E; contradiction|].
  now rewrite load_module_loop_no_match.
Qed.

(** X18. The status of [load_module_by_device_modalias] is that of the
    last alias that matches: -1, without a call of insmod, when no
    alias matches; and when the module of the last matching alias is
    blacklisted or deferred, the status of the blacklist for it,
    whatever happened to the matching aliases before. *)
Theorem load_module_status_of_last_match (aliases : list module_alias_node)
    (blacklist : list module_blacklist_node) (id : string)
    (need_deferred : bool) (calls : list string) :
  ((forall a, In a aliases -> ~ alias_matches id a) ->
   load_module_by_device_modalias aliases blacklist id need_deferred calls
   = (-1, calls))
  /\ (forall before a after name pattern,
         aliases = before ++ a :: after ->
         alias_name a = Some name -> alias_pattern a = Some pattern ->
         fnmatch pattern id 0 = 0 ->
         (forall b, In b after -> ~ alias_matches id b) ->
         is_module_blacklisted_or_deferred blacklist (Some name) need_deferred
         <> 0 ->
         fst (load_module_by_device_modalias aliases blacklist id
                need_deferred calls)
         = is_module_blacklisted_or_deferred blacklist (Some name)
             need_deferred).
Proof.
  split.
  - intros Hnone. unfold load_module_by_device_modalias.
    now apply load_module_loop_no_match.
  - intros before a after name pattern -> Hname Hpat Hmatch Hafter Hblk.
    now apply (load_module_last_match before a after _ _ name pattern).
Qed.

Lemma handle_module_loading_reads (env : module_env) (st : modules) :
  modules_aliases_map st <> [] ->
  forall modalias,
    handle_module_loading env st (Some modalias)
    = let '(ret, calls) :=
        load_module_by_device_modalias (modules_aliases_map st)
          (modules_blacklist st) modalias (env_is_booting env)
          (insmod_calls st) in
      let st' :=
        {| modules_aliases_map := modules_aliases_map st;
           modules_blacklist := modules_blacklist st;
           deferred_module_loading_list := deferred_module_loading_list st;
           insmod_calls := calls |} in
      if ret =? 2 then enqueue_deferred st' modalias else st'.
Proof.
  intros Hne modalias. unfold handle_module_loading.
  assert (E : list_empty (modules_aliases_map st) = false)
    by (destruct (modules_aliases_map st); [contradiction | reflexivity]).
  rewrite E. cbv iota. rewrite E. reflexivity.
Qed.

(** X19. While the system is booting, a modalias whose last matching
    alias names a module that the blacklist defers is put at the end of
    the deferred queue, and the lists of aliases and of blacklisted
    modules stay as they are. *)
Theorem deferred_module_is_queued_while_booting (env : module_env)
    (st : modules) (modalias : string)
    (before : list module_alias_node) (a : module_alias_node)
    (after : list module_alias_node) (name pattern : string)
    (b : module_blacklist_node) :
  env_is_booting env = true ->
  modules_aliases_map st = before ++ a :: after ->
  alias_name a = Some name -> alias_pattern a = Some pattern ->
  fnmatch pattern modalias 0 = 0 ->
  (forall x, In x after -> ~ alias_matches modalias x) ->
  first_blacklist_entry (modules_blacklist st) name b ->
  blk_deferred b = true ->
  let st' := handle_module_loading env st (Some modalias) in
  deferred_module_loading_list st'
  = deferred_module_loading_list st
    ++ [{| alias_name := None; alias_pattern := Some modalias |}]
  /\ modules_aliases_map st' = modules_aliases_map st
  /\ modules_blacklist st' = modules_blacklist st
  /\ ~ In name (skipn (List.length (insmod_calls st)) (insmod_calls st')).
Proof.
  intros Hboot Hsplit Hname Hpat Hmatch Hafter Hfirst Hdef st'.
  assert (Hblk : is_module_blacklisted_or_deferred (modules_blacklist st)
                   (Some name) true = 2).
  { simpl. rewrite (is_module_blacklisted_first _ _ _ _ Hfirst), Hdef.
    reflexivity. }
  assert (Hne : modules_aliases_map st <> []).
  { rewrite Hsplit. now destruct before. }
  unfold st'. rewrite (handle_module_loading_reads env st Hne), Hboot.
  pose proof (load_module_last_match before a after (modules_blacklist st)
                modalias name pattern true (insmod_calls st)
                Hname Hpat Hmatch Hafter) as Hret.
  rewrite <- Hsplit, Hblk in Hret. specialize (Hret ltac:(discriminate)).
  destruct (load_module_loop_calls (modules_aliases_map st)
              (modules_blacklist st) modalias true name
              ltac:(simpl in Hblk; rewrite Hblk; discriminate)
              (-1) (insmod_calls st)) as [new [Hnew Hnot]].
  fold (load_module_by_device_modalias (modules_aliases_map st)
          (modules_blacklist st) modalias true (insmod_calls st)) in Hnew.
  destruct (load_module_by_device_modalias _ _ _ _ _) as [ret calls].
  simpl in Hret, Hnew. subst ret calls. simpl.
  repeat split; auto.
  rewrite skipn_app, skipn_all, Nat.sub_diag. simpl. assumption.
Qed.

Lemma drain_loop_empties (queue aliases : list module_alias_node)
    (blacklist : list module_blacklist_node) :
  Forall (fun node => alias_pattern node <> None) queue ->
  forall calls,
    fst (handle_deferred_module_loading_loop queue aliases blacklist calls)
    = [].
Proof.
  intros Hq. induction Hq as [|node queue Hnode Hq IH]; intros calls; simpl;
    [reflexivity|].
  destruct (alias_pattern node) as [pattern|]; [|contradiction].
  destruct (load_module_by_device_modalias _ _ _ _ _) as [ret calls1].
  apply IH.
Qed.

(** X20. Every node that [handle_module_loading] queues holds a
    modalias; on such a queue [handle_deferred_module_loading] removes
    every node when the alias table has entries, and does nothing at all
    while the alias table is empty. *)
Theorem deferred_queue_is_drained (env : module_env) (st : modules)
    (modalias : option string) :
  queue_holds_modaliases st ->
  queue_holds_modaliases (handle_module_loading env st modalias)
  /\ (modules_aliases_map st <> [] ->
      deferred_module_loading_list (handle_deferred_module_loading st) = []
      /\ modules_aliases_map (handle_deferred_module_loading st)
         = modules_aliases_map st)
  /\ (modules_aliases_map st = [] -> handle_deferred_module_loading st = st).
Proof.
  intros Hq. repeat split.
  - unfold queue_holds_modaliases in *.
    destruct (handle_module_loading_queue env st modalias) as [added Hadd].
    rewrite Hadd. apply Forall_app. split; [assumption|].
    revert Hadd. unfold handle_module_loading.
    set (st1 := if list_empty (modules_aliases_map st) then _ else st).
    assert (Hq1 : deferred_module_loading_list st1
                  = deferred_module_loading_list st).
    { unfold st1, read_modules_aliases, read_modules_blacklist.
      destruct (list_empty (modules_aliases_map st)); [|reflexivity].
      destruct (env_modules_alias env); [|reflexivity].
      destruct (env_modules_blacklist env); reflexivity. }
    destruct modalias as [m|].
    + destruct (list_empty (modules_aliases_map st1)).
      * simpl. rewrite Hq1. intros Ha. apply app_inv_head in Ha. subst added.
        repeat constructor. discriminate.
      * destruct (load_module_by_device_modalias _ _ _ _ _) as [ret calls].
        destruct (ret =? 2); simpl; rewrite Hq1; intros Ha.
        -- apply app_inv_head in Ha. subst added.
           repeat constructor. discriminate.
        -- rewrite <- (app_nil_r (deferred_module_loading_list st)) in Ha at 1.
           apply app_inv_head in Ha. subst added. constructor.
    + rewrite Hq1. intros Ha.
      rewrite <- (app_nil_r (deferred_module_loading_list st)) in Ha at 1.
      apply app_inv_head in Ha. subst added. constructor.
  - unfold handle_deferred_module_loading.
    destruct (modules_aliases_map st) eqn:E; [contradiction|]. simpl negb.
    cbv iota.
    pose proof (drain_loop_empties (deferred_module_loading_list st)
                  (m :: l) (modules_blacklist st) Hq (insmod_calls st)) as Hd.
    destruct (handle_deferred_module_loading_loop _ _ _ _) as [queue calls].
    simpl in *. assumption.
  - unfold handle_deferred_module_loading.
    destruct (modules_aliases_map st) eqn:E; [contradiction|]. simpl negb.
    cbv iota.
    destruct (handle_deferred_module_loading_loop _ _ _ _) as [queue calls].
    reflexivity.
  - intros Hempty. unfold handle_deferred_module_loading.
    now rewrite Hempty.
Qed.

End Loading_facts.

(** ** The modprobe helper *)

Lemma skip_quiet_flags_spec (flags : list string) :
  quiet_flags flags ->
  forall prog,
    (forall name args, name <> "-q" -> name <> "--" ->
       exists prog',
         skip_quiet_flags (prog :: flags ++ name :: args)
         = prog' :: name :: args)
    /\ (exists prog', skip_quiet_flags (prog :: flags) = [prog']).
Proof.
  induction flags as [|f flags IH]; intros Hq prog.
  - split.
    + intros name args Hn1 Hn2. exists prog. simpl.
      destruct (strcmp name "-q" =? 0) eqn:E1;
        [apply strcmp_eqb in E1; contradiction|].
      destruct (strcmp name "--" =? 0) eqn:E2;
        [apply strcmp_eqb in E2; contradiction|].
      reflexivity.
    + now exists prog.
  - assert (Hf : (strcmp f "-q" =? 0) || (strcmp f "--" =? 0) = true).
    { destruct (Hq f (or_introl eq_refl)) as [-> | ->]; reflexivity. }
    assert (Hq' : quiet_flags flags) by (intros g Hg; apply Hq; now right).
    destruct (IH Hq' f) as [Hname Hnone]. split.
    + intros name args Hn1 Hn2. cbn [app skip_quiet_flags]. rewrite Hf.
      now apply Hname.
    + cbn [skip_quiet_flags]. rewrite Hf. exact Hnone.
Qed.

Section Modprobe_facts.
Context `{Libc} `{Probe_module}.

(** X21. Run by root, [modprobe_main] drops every leading "-q" and
    "--": it probes the first other word with the words after it as
    options, and returns -EINVAL without touching the lists when no
    other word is left.  Run by another user it returns -EPERM and
    does nothing, whatever its arguments are. *)
Theorem modprobe_main_arguments
    (insmod_options : list string -> string -> string -> Z)
    (env : module_env) (st : modules) (prog : string) (flags : list string) :
  quiet_flags flags ->
  (forall name args,
      name <> "-q" -> name <> "--" ->
      modprobe_main insmod_options 0 env st (prog :: flags ++ name :: args)
      = module_probe insmod_options env st (prog :: name :: args))
  /\ modprobe_main insmod_options 0 env st (prog :: flags)
     = Some (- EINVAL, st, None)
  /\ (forall uid argv,
         uid <> 0 ->
         modprobe_main insmod_options uid env st argv
         = Some (- EPERM, st, None)).
Proof.
  intros Hq. destruct (skip_quiet_flags_spec flags Hq prog) as [Hname Hnone].
  repeat split.
  - intros name args Hn1 Hn2. unfold modprobe_main. simpl negb. cbv iota.
    destruct (Hname name args Hn1 Hn2) as [prog' ->]. reflexivity.
  - unfold modprobe_main. simpl negb. cbv iota.
    destruct Hnone as [prog' ->]. reflexivity.
  - intros uid argv Huid. unfold modprobe_main.
    destruct (uid =? 0) eqn:E; [lia | reflexivity].
Qed.

(** X22. When no alias matches its argument, [module_probe] passes
    the argument itself to insmod, with the remaining words joined by
    spaces as options, and returns the status of that call; the
    blacklist is not consulted for it. *)
Theorem module_probe_falls_back_to_name
    (insmod_options : list string -> string -> string -> Z)
    (env : module_env) (st : modules) (prog name : string)
    (args : list string) :
  modules_aliases_map st <> [] ->
  (forall a, In a (modules_aliases_map st) -> ~ alias_matches name a) ->
  module_probe insmod_options env st (prog :: name :: args)
  = Some (insmod_options (insmod_calls st) name (join_options args),
          {| modules_aliases_map := modules_aliases_map st;
             modules_blacklist := modules_blacklist st;
             deferred_module_loading_list := deferred_module_loading_list st;
             insmod_calls := insmod_calls st ++ [name] |},
          Some (name, join_options args)).
Proof.
  intros Hne Hnone. unfold module_probe.
  assert (E : list_empty (modules_aliases_map st) = false)
    by (destruct (modules_aliases_map st); [contradiction | reflexivity]).
  rewrite E. cbv iota. cbn [nth_error].
  unfold load_module_by_device_modalias.
  rewrite (load_module_loop_no_match _ _ _ _ Hnone). reflexivity.
Qed.

End Modprobe_facts.

(** ** Firmware: the copy and the retries *)

Lemma load_firmware_loop_data (reads : list read_result) :
  forall len_to_copy,
    forallb is_write_data (snd (load_firmware_loop reads len_to_copy)) = true.
Proof.
  induction reads as [|r reads IH]; intros len; simpl;
    destruct (len >? 0); try reflexivity.
  destruct r as [| |nr written]; try reflexivity.
  destruct written; [|reflexivity].
  specialize (IH (len - Z.pos nr)).
  destruct (load_firmware_loop reads (len - Z.pos nr)). simpl in *.
  assumption.
Qed.

(** X23. Once [fstat] has succeeded, the loading file is written
    exactly twice: "1" before any data, and after the last data either
    "0", when the copy returns 0, or "-1", when it returns -1. *)
Theorem load_firmware_handshake (fw : fw_file) (st_size : Z) :
  fw_fstat fw = Some st_size ->
  exists data status,
    snd (load_firmware fw)
    = write_loading "1" :: data ++ [write_loading status]
    /\ forallb is_write_data data = true
    /\ ((fst (load_firmware fw) = 0 /\ status = "0")
        \/ (fst (load_firmware fw) = -1 /\ status = "-1")).
Proof.
  intros Hstat. unfold load_firmware. rewrite Hstat.
  pose proof (load_firmware_loop_status (fw_reads fw) st_size) as Hret.
  pose proof (load_firmware_loop_data (fw_reads fw) st_size) as Hdata.
  destruct (load_firmware_loop (fw_reads fw) st_size) as [ret data].
  simpl in Hret, Hdata. simpl fst. simpl snd.
  destruct Hret as [-> | ->].
  - exists data, "0". repeat split; auto.
  - exists data, "-1". repeat split; auto.
Qed.

Lemma load_firmware_loop_without_error (reads : list read_result) :
  reads_without_error reads ->
  forall len_to_copy, fst (load_firmware_loop reads len_to_copy) = 0.
Proof.
  unfold reads_without_error.
  induction reads as [|r reads IH]; intros Hok len; simpl;
    destruct (len >? 0); try reflexivity.
  destruct (Hok r (or_introl eq_refl)) as [-> | [nr ->]]; [reflexivity|].
  assert (Hrest : forall r', In r' reads ->
                   r' = Read_eof \/ exists nr', r' = Read_data nr' true)
    by (intros r' Hr; apply Hok; now right).
  specialize (IH Hrest (len - Z.pos nr)).
  destruct (load_firmware_loop reads (len - Z.pos nr)). assumption.
Qed.

(** X24. A copy in which no read fails and every write succeeds
    returns 0 and ends with "0" written to the loading file, also when
    the file ends before the size [fstat] reported, or holds more. *)
Theorem load_firmware_without_error (fw : fw_file) (st_size : Z) :
  fw_fstat fw = Some st_size ->
  reads_without_error (fw_reads fw) ->
  fst (load_firmware fw) = 0
  /\ last_loading_write (snd (load_firmware fw)) = Some "0".
Proof.
  intros Hstat Hok. unfold load_firmware. rewrite Hstat.
  pose proof (load_firmware_loop_without_error _ Hok st_size) as Hret.
  destruct (load_firmware_loop (fw_reads fw) st_size) as [ret data].
  simpl in Hret. subst ret. simpl fst. simpl snd. split; [reflexivity|].
  apply (last_loading_write_end (write_loading "1" :: data)).
Qed.

Lemma try_loading_again_found (x86 : bool) (env : fw_env) (firmware : string)
    (ret : Z) (writes : list fw_write) (k : nat) :
  forall n searches,
    (forall i, (i < k)%nat ->
               firmware_search x86 env firmware (n + i) = None
               /\ fw_is_booting env (n + i) = true) ->
    firmware_search x86 env firmware (n + k) = Some (ret, writes) ->
    (k < searches)%nat ->
    try_loading_again searches n (fw_is_booting env n) x86 env firmware
    = Some writes.
Proof.
  unfold firmware_search.
  induction k as [|k IH]; intros n searches Hmiss Hfound Hfuel;
    (destruct searches as [|searches]; [lia|]); simpl.
  - rewrite Nat.add_0_r in Hfound. now rewrite Hfound.
  - destruct (Hmiss 0%nat ltac:(lia)) as [Hs Hb].
    rewrite Nat.add_0_r in Hs, Hb. rewrite Hs, Hb.
    apply IH; [| |lia].
    + intros i Hi. replace (S n + i)%nat with (n + S i)%nat by lia.
      apply Hmiss. lia.
    + now replace (S n + k)%nat with (n + S k)%nat by lia.
Qed.

Lemma try_loading_again_gives_up (x86 : bool) (env : fw_env)
    (firmware : string) (k : nat) :
  forall n searches,
    (forall i, (i <= k)%nat ->
               firmware_search x86 env firmware (n + i) = None) ->
    (forall i, (i < k)%nat -> fw_is_booting env (n + i) = true) ->
    fw_is_booting env (n + k) = false ->
    (k < searches)%nat ->
    try_loading_again searches n (fw_is_booting env n) x86 env firmware
    = Some [write_loading "-1"].
Proof.
  unfold firmware_search.
  induction k as [|k IH]; intros n searches Hmiss Hboot Hend Hfuel;
    (destruct searches as [|searches]; [lia|]); simpl;
    pose proof (Hmiss 0%nat ltac:(lia)) as Hs;
    rewrite Nat.add_0_r in Hs; rewrite Hs.
  - rewrite Nat.add_0_r in Hend. now rewrite Hend.
  - pose proof (Hboot 0%nat ltac:(lia)) as Hb.
    rewrite Nat.add_0_r in Hb. rewrite Hb.
    apply IH; [| | |lia].
    + intros i Hi. replace (S n + i)%nat with (n + S i)%nat by lia.
      apply Hmiss. lia.
    + intros i Hi. replace (S n + i)%nat with (n + S i)%nat by lia.
      apply Hboot. lia.
    + now replace (S n + k)%nat with (n + S k)%nat by lia.
Qed.

Lemma try_loading_again_waits (x86 : bool) (env : fw_env)
    (firmware : string) (searches : nat) :
  forall n,
    (forall i, firmware_search x86 env firmware i = None
               /\ fw_is_booting env i = true) ->
    try_loading_again searches n (fw_is_booting env n) x86 env firmware
    = None.
Proof.
  unfold firmware_search.
  induction searches as [|searches IH]; intros n Hall; simpl; [reflexivity|].
  destruct (Hall n) as [Hs Hb]. rewrite Hs, Hb. now apply IH.
Qed.

Lemma process_firmware_event_opens (searches : nat) (x86 : bool)
    (env : fw_env) (ue : uevent) :
  sysfs_files_open env ue ->
  process_firmware_event searches x86 env ue
  = try_loading_again searches 0 (fw_is_booting env 0) x86 env
      (fmt_s (ue_firmware ue)).
Proof.
  intros [Hl Hd]. unfold process_firmware_event.
  rewrite <- !append_assoc in Hl, Hd.
  rewrite <- !append_assoc. rewrite Hl, Hd. reflexivity.
Qed.

(** X25. A firmware file that is missing at first is loaded as soon
    as a search finds it, as long as the system was booting at every
    search before: the writes are those of the copy of the file found
    by that search. *)
Theorem firmware_loaded_when_it_appears (x86 : bool) (env : fw_env)
    (ue : uevent) (k searches : nat) (ret : Z) (writes : list fw_write) :
  sysfs_files_open env ue ->
  (forall i, (i < k)%nat ->
             firmware_search x86 env (fmt_s (ue_firmware ue)) i = None
             /\ fw_is_booting env i = true) ->
  firmware_search x86 env (fmt_s (ue_firmware ue)) k = Some (ret, writes) ->
  (k < searches)%nat ->
  process_firmware_event searches x86 env ue = Some writes.
Proof.
  intros Hopen Hmiss Hfound Hfuel.
  rewrite (process_firmware_event_opens _ _ _ _ Hopen).
  now apply (try_loading_again_found x86 env _ ret writes k 0 searches).
Qed.

(** X26. The loader gives up, with "-1" as its only write, at the
    first failed search after which the system is found not to be
    booting; and while the file stays missing and the system stays
    booting it writes nothing and goes on searching, however many
    searches it is given. *)
Theorem firmware_gives_up_after_boot (x86 : bool) (env : fw_env)
    (ue : uevent) :
  sysfs_files_open env ue ->
  (forall k searches,
      (forall i, (i <= k)%nat ->
                 firmware_search x86 env (fmt_s (ue_firmware ue)) i = None) ->
      (forall i, (i < k)%nat -> fw_is_booting env i = true) ->
      fw_is_booting env k = false ->
      (k < searches)%nat ->
      process_firmware_event searches x86 env ue
      = Some [write_loading "-1"])
  /\ ((forall i, firmware_search x86 env (fmt_s (ue_firmware ue)) i = None
                 /\ fw_is_booting env i = true) ->
      forall searches, process_firmware_event searches x86 env ue = None).
Proof.
  intros Hopen. split.
  - intros k searches Hmiss Hboot Hend Hfuel.
    rewrite (process_firmware_event_opens _ _ _ _ Hopen).
    now apply (try_loading_again_gives_up x86 env _ k 0 searches).
  - intros Hall searches.
    rewrite (process_firmware_event_opens _ _ _ _ Hopen).
    now apply try_loading_again_waits.
Qed.

(** ** The dispatcher *)

Lemma handle_device_other_action (action devpath path : string)
    (block major minor : Z) (links : option (list string)) :
  action <> "add" -> action <> "remove" ->
  handle_device action devpath path block major minor links = [].
Proof.
  intros Hadd Hrem. unfold handle_device.
  destruct (strcmp action "add" =? 0) eqn:Ea;
    [apply strcmp_eqb in Ea; contradiction|].
  destruct (strcmp action "remove" =? 0) eqn:Er;
    [apply strcmp_eqb in Er; contradiction|].
  reflexivity.
Qed.

Lemma handle_block_other_action (platform_names : list platform_node)
    (ue : uevent) (action : string) (trace : list call) :
  ue_action ue = Some action -> action <> "add" -> action <> "remove" ->
  handle_block_device_event platform_names ue = Some trace ->
  node_paths trace = [].
Proof.
  intros Haction Hadd Hrem. unfold handle_block_device_event.
  destruct (parse_device_name ue 64) as [[name|]|]; [| |discriminate].
  - destruct (ue_path ue) as [path|]; [|discriminate].
    destruct (if strncmp path "/devices/" 9 =? 0 then _ else Some None)
      as [links|]; [|discriminate].
    rewrite Haction. intros [= <-].
    now rewrite handle_device_other_action.
  - now intros [= <-].
Qed.

Section Dispatcher_facts.
Context `{Libc} `{Probe_module} `{Ueventd_parser}.

Lemma handle_generic_tail_other_action
    (platform_names : list platform_node) (ue : uevent) (calls : list call)
    (devpath : string) (base : option string) (name action : string)
    (trace : list call) :
  ue_action ue = Some action -> action <> "add" -> action <> "remove" ->
  node_paths calls = [] ->
  handle_generic_device_tail platform_names ue calls devpath base name
  = Some trace ->
  node_paths trace = [].
Proof.
  intros Haction Hadd Hrem Hcalls. unfold handle_generic_device_tail.
  destruct (get_character_device_symlinks platform_names ue)
    as [[links link_calls]|] eqn:Hsym; [|discriminate].
  apply get_character_device_symlinks_calls in Hsym.
  destruct (if is_empty devpath then _ else Some devpath) as [d|];
    [|discriminate].
  rewrite Haction. destruct (ue_path ue) as [path|]; [|discriminate].
  intros [= <-]. rewrite handle_device_other_action by assumption.
  unfold node_paths in *. rewrite !flat_map_app, Hcalls, Hsym. reflexivity.
Qed.

Lemma handle_generic_other_action (platform_names : list platform_node)
    (ue : uevent) (action : string) (trace : list call) :
  ue_action ue = Some action -> action <> "add" -> action <> "remove" ->
  handle_generic_device_event platform_names ue = Some trace ->
  node_paths trace = [].
Proof.
  intros Haction Hadd Hrem. unfold handle_generic_device_event.
  destruct (parse_device_name ue 64) as [[name|]|]; [| |discriminate];
    [|now intros [= <-]].
  destruct (ue_subsystem ue) as [subsys|]; [|discriminate].
  cbv zeta. unfold assemble_devpath, snprintf.
  repeat match goal with
         | |- context [match ?x with _ => _ end] =>
             lazymatch x with
             | handle_generic_device_tail _ _ _ _ _ _ => fail
             | _ => let E := fresh "E" in destruct x eqn:E
             end
         end;
    try discriminate; try (now intros [= <-]);
    intros Hrun;
    apply (handle_generic_tail_other_action _ _ _ _ _ _ action _
             Haction Hadd Hrem) in Hrun;
    try assumption; try reflexivity;
    match goal with
    | Hc : mkdir_recursive_for_devpath _ = Some _ |- _ =>
        now apply mkdir_recursive_for_devpath_call in Hc
    end.
Qed.

(** X27. An event whose action is neither add nor remove (change,
    online and the others) makes no call that creates, removes or links
    a device node, and leaves the platform registry, the rule lists and
    the module lists as they are. *)
Theorem other_actions_touch_no_node (access : string -> bool)
    (env : module_env) (st : devices) (ue : uevent) (action : string)
    (st' : devices) (sys_calls : list sys_call) (calls : list call) :
  ue_action ue = Some action -> action <> "add" -> action <> "remove" ->
  handle_device_event access env st ue = Some (st', sys_calls, calls) ->
  node_paths calls = [] /\ st' = st.
Proof.
  intros Haction Hadd Hrem. unfold handle_device_event. rewrite Haction.
  destruct (strcmp action "add" =? 0) eqn:Ea;
    [apply strcmp_eqb in Ea; contradiction|].
  destruct (if _ || _ || _ then _ else Some []) as [sys|]; [|discriminate].
  destruct (ue_subsystem ue) as [subsys|]; [|discriminate].
  assert (Hst : {| dev_sys_perms := dev_sys_perms st;
                   dev_dev_perms := dev_dev_perms st;
                   dev_platform_names := dev_platform_names st;
                   dev_modules := dev_modules st |} = st) by now destruct st.
  destruct (strncmp subsys "block" 5 =? 0).
  - destruct (handle_block_device_event _ ue) as [trace|] eqn:Hb;
      [|discriminate].
    intros [= <- <- <-]. split; [|assumption].
    now apply (handle_block_other_action _ _ _ _ Haction Hadd Hrem Hb).
  - destruct (strncmp subsys "platform" 8 =? 0).
    + unfold handle_platform_device_event. rewrite Haction.
      destruct (ue_path ue); [|discriminate].
      destruct (strcmp action "add" =? 0); [discriminate|].
      destruct (strcmp action "remove" =? 0) eqn:Er;
        [apply strcmp_eqb in Er; contradiction|].
      intros [= <- <- <-]. now split.
    + destruct (handle_generic_device_event _ ue) as [trace|] eqn:Hg;
        [|discriminate].
      intros [= <- <- <-]. split; [|assumption].
      now apply (handle_generic_other_action _ _ _ _ Haction Hadd Hrem Hg).
Qed.

End Dispatcher_facts.

(** ** A platform device and the block devices below it *)

Lemma find_platform_device_added (platform_names : list platform_node)
    (path rest name : string) :
  add_platform_device platform_names path
  = platform_names ++ [{| bus_name := name; bus_path := path;
                          bus_path_len := strlen path |}] ->
  find_platform_device (add_platform_device platform_names path)
    (path ++ String "/" rest)
  = Some {| bus_name := name; bus_path := path; bus_path_len := strlen path |}.
Proof.
  intros ->. unfold find_platform_device. rewrite rev_app_distr. simpl.
  rewrite char_at_end, to_nat_strlen, strncmp_own_prefix.
  replace (strlen path <? strlen (path ++ String "/" rest)) with true;
    [reflexivity|].
  symmetry. apply Z.ltb_lt. unfold strlen. rewrite length_append. simpl. lia.
Qed.

Lemma handle_block_below_platform (platform_names : list platform_node)
    (ue : uevent) (pdev : platform_node) (path dir leaf action : string) :
  ue_path ue = Some path -> ue_action ue = Some action ->
  0 <= ue_major ue -> 0 <= ue_minor ue ->
  path = (dir ++ String "/" leaf)%string -> strchr leaf "/" = None ->
  strlen leaf <= 64 ->
  (exists rest, path = ("/devices/" ++ rest)%string) ->
  find_platform_device platform_names path = Some pdev ->
  let base := ("/dev/block/platform/" ++ bus_name pdev)%string in
  strlen base <= 255 ->
  handle_block_device_event platform_names ue
  = Some (make_dir "/dev/block/" 493
          :: handle_device action ("/dev/block/" ++ leaf) path 1
               (ue_major ue) (ue_minor ue)
               (Some (by_name_link base ue ++ by_num_link base ue
                      ++ [(base ++ "/" ++ leaf)%string]))).
Proof.
  intros Hpath Haction Hmaj Hmin Hsplit Hleaf Hlen Hdev Hfind base Hfit.
  unfold handle_block_device_event, parse_device_name,
    get_block_device_symlinks.
  rewrite Hpath, Haction, Hfind.
  replace ((ue_major ue <? 0) || (ue_minor ue <? 0)) with false
    by (symmetry; apply orb_false_iff; split; apply Z.ltb_ge; lia).
  rewrite Hsplit at 1. rewrite (strrchr_last _ _ _ Hleaf).
  change (advance 1 (String "/" leaf)) with leaf.
  replace (strlen leaf >? 64) with false
    by (symmetry; rewrite Z.gtb_ltb; apply Z.ltb_ge; lia).
  rewrite (snprintf_fits 96)
    by (unfold strlen in *; rewrite length_append; simpl String.length; lia).
  replace (strncmp path "/devices/" 9 =? 0) with true
    by (symmetry; now apply (strncmp_prefix_eqb path "/devices/")).
  change ("/dev/block/" ++ "platform" ++ "/" ++ bus_name pdev)%string
    with base.
  rewrite (snprintf_fits 256 base) by lia.
  rewrite Hsplit at 1. rewrite (strrchr_last _ _ _ Hleaf).
  change (advance 1 (String "/" leaf)) with leaf.
  unfold by_name_link, by_num_link. rewrite Z.geb_leb.
  destruct (ue_partition_name ue), (0 <=? ue_partition_num ue); reflexivity.
Qed.

Section Composition.
Context `{Libc} `{Probe_module} `{Ueventd_parser}.

(** X28. After the add event of a platform device, the add event of a
    block device below it links /dev/block/platform/<name>/<leaf> to the
    node /dev/block/<leaf>, where <name> is the name the registry gave
    the platform device; this holds when the devpath begins with
    "/devices/", the leaf has at most 64 bytes and the link directory at
    most 255, and major and minor are present. *)
Theorem block_device_linked_below_new_platform_device
    (access : string -> bool) (env1 env2 : module_env) (st st1 st2 : devices)
    (ue1 ue2 : uevent) (parent name below dir leaf : string)
    (sys1 sys2 : list sys_call) (calls1 calls2 : list call) :
  ue_action ue1 = Some "add" -> ue_subsystem ue1 = Some "platform" ->
  ue_path ue1 = Some ("/devices/" ++ parent)%string ->
  add_platform_device (dev_platform_names st) ("/devices/" ++ parent)
  = dev_platform_names st
    ++ [{| bus_name := name; bus_path := ("/devices/" ++ parent)%string;
           bus_path_len := strlen ("/devices/" ++ parent) |}] ->
  handle_device_event access env1 st ue1 = Some (st1, sys1, calls1) ->
  ue_action ue2 = Some "add" -> ue_subsystem ue2 = Some "block" ->
  ue_path ue2 = Some ("/devices/" ++ parent ++ "/" ++ below)%string ->
  ("/devices/" ++ parent ++ "/" ++ below = dir ++ String "/" leaf)%string ->
  strchr leaf "/" = None -> strlen leaf <= 64 ->
  0 <= ue_major ue2 -> 0 <= ue_minor ue2 ->
  strlen ("/dev/block/platform/" ++ name) <= 255 ->
  handle_device_event access env2 st1 ue2 = Some (st2, sys2, calls2) ->
  In (make_link_init ("/dev/block/" ++ leaf)
        ("/dev/block/platform/" ++ name ++ "/" ++ leaf)%string) calls2.
Proof.
  intros Ha1 Hs1 Hp1 Hadd Hev1 Ha2 Hs2 Hp2 Hsplit Hleaf Hlen Hmaj Hmin Hfit
    Hev2.
  assert (Hnames : dev_platform_names st1
                   = add_platform_device (dev_platform_names st)
                       ("/devices/" ++ parent)).
  { revert Hev1. unfold handle_device_event. rewrite Ha1, Hs1, Hp1.
    destruct (fixup_sys_perms access _ _) as [sys|];
      [|simpl; discriminate].
    unfold handle_platform_device_event. rewrite Ha1, Hp1.
    simpl. now intros [= <- _ _]. }
  revert Hev2. unfold handle_device_event. rewrite Ha2, Hs2, Hp2.
  destruct (if _ || _ || _ then _ else Some []) as [sys|]; [|discriminate].
  replace (strncmp "block" "block" 5 =? 0) with true by reflexivity.
  pose proof (find_platform_device_added (dev_platform_names st)
                ("/devices/" ++ parent) below name Hadd) as Hfind.
  rewrite <- Hnames in Hfind.
  change (("/devices/" ++ parent) ++ String "/" below)%string
    with ("/devices/" ++ parent ++ "/" ++ below)%string in Hfind.
  rewrite (handle_block_below_platform (dev_platform_names st1) ue2 _ _
             dir leaf "add" Hp2 Ha2 Hmaj Hmin Hsplit Hleaf Hlen
             ltac:(eexists; reflexivity) Hfind Hfit).
  intros [= _ _ <-]. right. unfold handle_device.
  replace (strcmp "add" "add" =? 0) with true by reflexivity.
  apply in_or_app. left. right. apply in_map.
  apply in_or_app. right. apply in_or_app. right. simpl. left.
  reflexivity.
Qed.

End Composition.

(** ** Creating a device node *)

Section Make_device_facts.
Context `{Libc}.

Lemma mode_bits (perm type : Z) :
  0 <= perm < 4096 -> type = S_IFBLK \/ type = S_IFCHR ->
  Z.land (Z.lor perm type) 4095 = perm
  /\ Z.land (Z.lor perm type) 61440 = type.
Proof.
  intros Hperm Htype.
  assert (Hp : Z.land perm 4095 = perm).
  { change 4095 with (Z.ones 12). rewrite Z.land_ones by lia.
    apply Z.mod_small. lia. }
  assert (Hq : Z.land perm 61440 = 0).
  { rewrite <- Hp. rewrite <- Z.land_assoc.
    change (Z.land 4095 61440) with 0. apply Z.land_0_r. }
  rewrite !Z.land_lor_distr_l, Hp, Hq.
  destruct Htype as [-> | ->]; split; simpl; rewrite ?Z.lor_0_r; reflexivity.
Qed.

(** X29. [make_device] does nothing when no SELinux label is found
    for the node.  Otherwise it makes the node with the mode, and the
    owner of the rule that [get_device_perm] resolves: the effective
    gid is that rule's gid for the mknod and root again after it, the
    label is set on the node only when mknod reports that it exists
    already, and the creation label is cleared at the end; for a rule
    mode of twelve bits the permission bits of the node are that mode
    and its type is block or character as asked. *)
Theorem make_device_applies_resolved_rule
    (selabel : string -> option (list string) -> Z -> option string)
    (mknod_errno : string -> Z -> Z -> Z -> option Z)
    (dev_perms : list perms_) (path : string) (block major minor : Z)
    (links : option (list string)) (perm uid gid : Z) :
  get_device_perm dev_perms path links = (perm, uid, gid) ->
  let type := if negb (block =? 0) then S_IFBLK else S_IFCHR in
  let mode := Z.lor perm type in
  (selabel path links mode = None ->
   Dev.make_device selabel mknod_errno dev_perms path block major minor links
   = [])
  /\ (forall secontext,
         selabel path links mode = Some secontext ->
         Dev.make_device selabel mknod_errno dev_perms path block major minor
           links
         = [setfscreatecon (Some secontext); setegid gid;
            mknod path mode major minor]
           ++ (if match mknod_errno path mode major minor with
                  | Some errno => errno =? EEXIST
                  | None => false
                  end
               then [lsetfilecon path secontext] else [])
           ++ [chown path uid (-1); setegid AID_ROOT; freecon secontext;
               setfscreatecon None])
  /\ (0 <= perm < 4096 ->
      Z.land mode 4095 = perm /\ Z.land mode 61440 = type).
Proof.
  intros Hperm type mode. unfold Dev.make_device. rewrite Hperm.
  fold type. fold mode. repeat split.
  - now intros ->.
  - intros secontext ->.
    destruct (mknod_errno path mode major minor) as [errno|]; reflexivity.
  - apply mode_bits; [assumption|]. unfold type.
    destruct (negb (block =? 0)); auto.
  - apply mode_bits; [assumption|]. unfold type.
    destruct (negb (block =? 0)); auto.
Qed.

End Make_device_facts.

(** * Further worked examples *)

Lemma find_platform_device_newest_directory_witness :
  exists older newer,
    soc_registry
    = older ++ {| bus_name := "soc.0"; bus_path := "/devices/platform/soc.0";
                  bus_path_len := 23 |} :: newer
    /\ directory_above "/devices/platform/soc.0"
         "/devices/platform/soc.0/mmc/mmcblk0"
    /\ forall b, In b newer ->
                 ~ directory_above (bus_path b)
                     "/devices/platform/soc.0/mmc/mmcblk0".
Proof.
  apply (proj1 (find_platform_device_newest_directory soc_registry
                  "/devices/platform/soc.0/mmc/mmcblk0"
                  ltac:(repeat constructor))
           {| bus_name := "soc.0"; bus_path := "/devices/platform/soc.0";
              bus_path_len := 23 |}).
  reflexivity.
Defined.

Lemma add_platform_device_name_witness :
  add_platform_device [] "/devices/platform/soc.0"
  = [] ++ [{| bus_name := "soc.0"; bus_path := "/devices/platform/soc.0";
              bus_path_len := strlen "/devices/platform/soc.0" |}].
Proof.
  apply (proj1 (add_platform_device_name [] "/devices/platform/soc.0") "soc.0").
  reflexivity.
Defined.

Lemma remove_platform_device_undoes_add_witness :
  remove_platform_device soc_registry "/devices/platform/soc.1" = soc_registry.
Proof.
  apply (proj2 (remove_platform_device_undoes_add soc_registry
                  "/devices/platform/soc.1")).
  intros [Heq | []]. discriminate Heq.
Defined.

Lemma removed_platform_device_not_found_witness :
  "/devices/platform/soc.1" <> "/devices/platform/soc.0".
Proof.
  apply (removed_platform_device_not_found
           (add_platform_device soc_registry "/devices/platform/soc.1")
           "/devices/platform/soc.0" "/devices/platform/soc.1/mmc"
           {| bus_name := "soc.1"; bus_path := "/devices/platform/soc.1";
              bus_path_len := 23 |}).
  - repeat constructor; simpl.
    + intros [Heq | []]. discriminate Heq.
    + intros [].
  - reflexivity.
Defined.

Lemma platform_events_record_lengths_witness :
  lengths_recorded
    [ {| bus_name := "soc.1"; bus_path := "/devices/platform/soc.1";
         bus_path_len := 23 |} ].
Proof.
  apply (platform_events_record_lengths
           [ platform_event "add" "/devices/platform/soc.0";
             platform_event "add" "/devices/platform/soc.1";
             platform_event "remove" "/devices/platform/soc.0" ] []).
  - constructor.
  - reflexivity.
Defined.


Lemma fixup_sys_perms_applies_all_witness :
  @fixup_sys_perms sample_libc (fun _ => true) [cpu_prefix_rule; cpu_rule]
    "/devices/system/cpu/cpu0"
  = Some [ chown "/sys/devices/system/cpu/cpu0/uevent" 0 0;
           chmod "/sys/devices/system/cpu/cpu0/uevent" 420;
           chown "/sys/devices/system/cpu/cpu0/online" 0 1000;
           chmod "/sys/devices/system/cpu/cpu0/online" 436;
           restorecon_recursive "/sys/devices/system/cpu/cpu0" ].
Proof.
  etransitivity.
  - apply (@fixup_sys_perms_applies_all sample_libc (fun _ => true)
             [cpu_prefix_rule; cpu_rule] "/devices/system/cpu/cpu0").
    + intros dp [<- | [<- | []]]; (split; [vm_compute|]; discriminate).
    + intros dp [<- | [<- | []]] _; vm_compute; discriminate.
  - reflexivity.
Defined.

Lemma fixup_sys_perms_stops_at_long_rule_witness :
  @fixup_sys_perms_loop sample_libc
    ([cpu_prefix_rule] ++ long_cpu_rule :: [cpu_rule])
    "/devices/system/cpu/cpu0"
  = @fixup_sys_perms_loop sample_libc [cpu_prefix_rule]
      "/devices/system/cpu/cpu0".
Proof.
  apply (@fixup_sys_perms_stops_at_long_rule sample_libc).
  - split; [vm_compute|]; discriminate.
  - reflexivity.
  - intros Hfits. vm_compute in Hfits. now apply Hfits.
  - intros r [<- | []]. split; [vm_compute|]; discriminate.
Defined.

Lemma sys_perm_matches_after_sys_witness :
  @sys_perm_matches sample_libc "/devices/system/cpu/cpu0" cpu_rule = true.
Proof.
  apply (proj1 (@sys_perm_matches_after_sys sample_libc
                  "/devices/system/cpu/cpu0" "/devices/system/cpu/cpu0"
                  cpu_rule eq_refl) eq_refl eq_refl).
  reflexivity.
Defined.

Lemma find_pci_device_prefix_fits_witness :
  strlen "pci0000:00/0000:00:1f.2" + 1 <= 256.
Proof.
  apply (proj1 (find_pci_device_prefix_fits
                  "/devices/pci0000:00/0000:00:1f.2/ata1/host0" 256)
           "pci0000:00/0000:00:1f.2").
  reflexivity.
Defined.

Lemma get_block_device_symlinks_bound_witness :
  (1 <= List.length
          [ "/dev/block/platform/soc.0/by-name/user_data_bad";
            "/dev/block/platform/soc.0/by-num/p3";
            "/dev/block/platform/soc.0/mmcblk0p3" ] <= 3)%nat.
Proof.
  apply (get_block_device_symlinks_bound soc_registry mmc_event).
  reflexivity.
Defined.

Lemma get_character_device_symlinks_usb_witness :
  get_character_device_symlinks soc_registry tty_event
  = Some (Some ["/dev/usb/tty1-1:1.0"], [mkdir "/dev/usb" 493]).
Proof.
  apply (proj1 (get_character_device_symlinks_usb soc_registry tty_event)
           "/devices/platform/soc.0" "1" "1-1" "1-1:1.0"
           "ttyUSB0/tty/ttyUSB0" "tty"
           {| bus_name := "soc.0"; bus_path := "/devices/platform/soc.0";
              bus_path_len := 23 |});
    try reflexivity.
  discriminate.
Defined.

Lemma block_device_node_path_witness :
  "/dev/block/mmcblk0p3" = ("/dev/block/" ++ "mmcblk0p3")%string
  /\ strlen "/dev/block/mmcblk0p3" <= 75.
Proof.
  apply (block_device_node_path soc_registry mmc_event
           "/devices/platform/soc.0/by.pci" "mmcblk0p3" _
           eq_refl eq_refl eq_refl).
  simpl. now left.
Defined.

Lemma parse_event_ignores_untagged_records_witness :
  @parse_event sample_libc
    (list_ascii_of_string
       ("add@/devices/virtual/misc/fuse" ++ String zero
          ("SEQNUM=1201" ++ String zero ("ACTION=add" ++ String zero "")))
     ++ [zero; zero])
  = @parse_event sample_libc
      (list_ascii_of_string ("ACTION=add" ++ String zero "") ++ [zero; zero]).
Proof.
  apply (@parse_event_ignores_untagged_records sample_libc).
  reflexivity.
Defined.

Lemma read_modules_aliases_lines_witness :
  modules_aliases_map
    (snd (read_modules_aliases
            {| env_modules_alias :=
                 Some (tokens_of_lines
                         [ ["alias"; "pci:*"; "foo"; "extra"]; ["alias"; "x"] ]
                       ++ map T_TEXT ["alias"; "usb:*"; "bar"]);
               env_modules_blacklist := None; env_is_booting := false |}
            no_modules))
  = [] ++ [foo_alias].
Proof.
  apply (proj1 (read_modules_aliases_lines
                  {| env_modules_alias :=
                       Some (tokens_of_lines
                               [ ["alias"; "pci:*"; "foo"; "extra"];
                                 ["alias"; "x"] ]
                             ++ map T_TEXT ["alias"; "usb:*"; "bar"]);
                     env_modules_blacklist := None;
                     env_is_booting := false |}
                  no_modules)
           [ ["alias"; "pci:*"; "foo"; "extra"]; ["alias"; "x"] ]
           ["alias"; "usb:*"; "bar"] eq_refl).
Defined.

Lemma load_module_status_of_last_match_witness :
  fst (@load_module_by_device_modalias sample_libc sample_probe_module
         ([] ++ foo_alias :: [])
         [ {| blk_name := "foo"; blk_deferred := false |} ]
         "pci:v00008086" true [])
  = 1.
Proof.
  apply (proj2 (@load_module_status_of_last_match sample_libc
                  sample_probe_module ([] ++ foo_alias :: [])
                  [ {| blk_name := "foo"; blk_deferred := false |} ]
                  "pci:v00008086" true [])
           [] foo_alias [] "foo" "pci:*" eq_refl eq_refl eq_refl eq_refl).
  - intros b [].
  - discriminate.
Defined.

Lemma deferred_module_is_queued_while_booting_witness :
  deferred_module_loading_list
    (@handle_module_loading sample_libc sample_probe_module no_files
       {| modules_aliases_map := [foo_alias];
          modules_blacklist := [ {| blk_name := "foo"; blk_deferred := true |} ];
          deferred_module_loading_list := []; insmod_calls := [] |}
       (Some "pci:v00008086"))
  = [] ++ [{| alias_name := None; alias_pattern := Some "pci:v00008086" |}].
Proof.
  apply (@deferred_module_is_queued_while_booting sample_libc
           sample_probe_module no_files
           {| modules_aliases_map := [foo_alias];
              modules_blacklist :=
                [ {| blk_name := "foo"; blk_deferred := true |} ];
              deferred_module_loading_list := []; insmod_calls := [] |}
           "pci:v00008086" [] foo_alias [] "foo" "pci:*"
           {| blk_name := "foo"; blk_deferred := true |}
           eq_refl eq_refl eq_refl eq_refl eq_refl).
  - intros x [].
  - exists [], []. repeat split. intros x [].
  - reflexivity.
Defined.

Lemma deferred_queue_is_drained_witness :
  queue_holds_modaliases
    (@handle_module_loading sample_libc sample_probe_module no_files
       no_modules (Some "pci:v00008086")).
Proof.
  apply (@deferred_queue_is_drained sample_libc sample_probe_module no_files
           no_modules (Some "pci:v00008086")).
  constructor.
Defined.

Lemma modprobe_main_arguments_witness :
  @modprobe_main sample_libc sample_probe_module (fun _ _ _ => 0) 0 no_files
    no_modules ("modprobe" :: ["-q"; "--"] ++ "foo" :: ["a=1"])
  = @module_probe sample_libc sample_probe_module (fun _ _ _ => 0) no_files
      no_modules ("modprobe" :: "foo" :: ["a=1"]).
Proof.
  apply (proj1 (@modprobe_main_arguments sample_libc sample_probe_module
                  (fun _ _ _ => 0) no_files no_modules "modprobe"
                  ["-q"; "--"]
                  ltac:(intros f [<- | [<- | []]]; auto))).
  - discriminate.
  - discriminate.
Defined.

Lemma module_probe_falls_back_to_name_witness :
  @module_probe sample_libc sample_probe_module (fun _ _ _ => 0) no_files
    {| modules_aliases_map := [foo_alias];
       modules_blacklist := [ {| blk_name := "foo"; blk_deferred := false |} ];
       deferred_module_loading_list := []; insmod_calls := [] |}
    ("modprobe" :: "foo" :: ["a=1"; "b=2"])
  = Some (0,
          {| modules_aliases_map := [foo_alias];
             modules_blacklist :=
               [ {| blk_name := "foo"; blk_deferred := false |} ];
             deferred_module_loading_list := [];
             insmod_calls := [] ++ ["foo"] |},
          Some ("foo", join_options ["a=1"; "b=2"])).
Proof.
  apply (@module_probe_falls_back_to_name sample_libc sample_probe_module
           (fun _ _ _ => 0) no_files
           {| modules_aliases_map := [foo_alias];
              modules_blacklist :=
                [ {| blk_name := "foo"; blk_deferred := false |} ];
              deferred_module_loading_list := []; insmod_calls := [] |}
           "modprobe" "foo" ["a=1"; "b=2"]).
  - discriminate.
  - intros a [<- | []] [n [p [Hn [Hp Hm]]]].
    injection Hp as <-. vm_compute in Hm. discriminate.
Defined.

Lemma load_firmware_handshake_witness :
  exists data status,
    snd (load_firmware two_chunks)
    = write_loading "1" :: data ++ [write_loading status]
    /\ forallb is_write_data data = true
    /\ ((fst (load_firmware two_chunks) = 0 /\ status = "0")
        \/ (fst (load_firmware two_chunks) = -1 /\ status = "-1")).
Proof. apply (load_firmware_handshake two_chunks 6000). reflexivity. Defined.

Lemma load_firmware_without_error_witness :
  fst (load_firmware two_chunks) = 0
  /\ last_loading_write (snd (load_firmware two_chunks)) = Some "0".
Proof.
  apply (load_firmware_without_error two_chunks 6000); [reflexivity|].
  intros r [<- | [<- | []]]; right; eexists; reflexivity.
Defined.

Lemma firmware_loaded_when_it_appears_witness :
  process_firmware_event 2 true (late_firmware true) firmware_event
  = Some [write_loading "1"; write_data 4096; write_data 1904;
          write_loading "0"].
Proof.
  apply (firmware_loaded_when_it_appears true (late_firmware true)
           firmware_event 1 2 0).
  - split; reflexivity.
  - intros i Hi. assert (i = 0%nat) as -> by lia. split; reflexivity.
  - reflexivity.
  - lia.
Defined.

Lemma firmware_gives_up_after_boot_witness :
  process_firmware_event 1 true no_firmware firmware_event
  = Some [write_loading "-1"].
Proof.
  apply (proj1 (firmware_gives_up_after_boot true no_firmware firmware_event
                  (conj eq_refl eq_refl)) 0%nat 1%nat).
  - intros i Hi. reflexivity.
  - intros i Hi. lia.
  - reflexivity.
  - lia.
Defined.

Lemma other_actions_touch_no_node_witness :
  node_paths [mkdir_recursive "/dev/bus/usb/002" 493] = []
  /\ no_tables = no_tables.
Proof.
  apply (@other_actions_touch_no_node sample_libc sample_probe_module
           sample_ueventd_parser (fun _ => true) no_files no_tables
           usb_change_event "change" no_tables
           [restorecon_recursive "/sys/devices/pci0000:00/0000:00:1d.0/usb2/2-1"]
           [mkdir_recursive "/dev/bus/usb/002" 493]).
  - reflexivity.
  - discriminate.
  - discriminate.
  - reflexivity.
Defined.

Lemma block_device_linked_below_new_platform_device_witness :
  exists st2 sys2 calls2,
    @handle_device_event sample_libc sample_probe_module
      sample_ueventd_parser (fun _ => false) no_files
      {| dev_sys_perms := []; dev_dev_perms := [];
         dev_platform_names := soc_registry; dev_modules := no_modules |}
      mmc_event = Some (st2, sys2, calls2)
    /\ In (make_link_init "/dev/block/mmcblk0p3"
             "/dev/block/platform/soc.0/mmcblk0p3") calls2.
Proof.
  eexists. eexists. eexists. split; [reflexivity|].
  eapply (@block_device_linked_below_new_platform_device sample_libc
           sample_probe_module sample_ueventd_parser (fun _ => false)
           no_files no_files no_tables
           {| dev_sys_perms := []; dev_dev_perms := [];
              dev_platform_names := soc_registry;
              dev_modules := no_modules |}
           _
           (platform_event "add" "/devices/platform/soc.0") mmc_event
           "platform/soc.0" "soc.0" "by.pci/mmcblk0p3"
           "/devices/platform/soc.0/by.pci" "mmcblk0p3" [] _ [] _);
    try reflexivity; try (vm_compute; discriminate).
Defined.

Lemma make_device_applies_resolved_rule_witness :
  Z.land (Z.lor 432 S_IFCHR) 4095 = 432
  /\ Z.land (Z.lor 432 S_IFCHR) 61440 = S_IFCHR.
Proof.
  apply (proj2 (proj2 (@make_device_applies_resolved_rule sample_libc
                         (fun _ _ _ => None) (fun _ _ _ _ => None)
                         input_rules "/dev/input/event0" 0 13 64 None
                         432 0 1004 eq_refl))).
  lia.
Defined.
